(** * ChendAI ensemble core: a shallow embedding and its verified properties

    The development follows the Python sources file by file:
    [material_properties.py], [player_system.py], [orchestration_engine.py],
    [spectral_engine.py] and [ensemble_mixer.py].

    Modelling conventions.
    - A Python [float] is a rational number ([Q]); IEEE rounding is not
      modelled.  Where a claim is about NaN, samples are taken in an extended
      type with an explicit NaN (module [PostFx]).
    - [int(x)] on a float truncates toward zero ([py_int]).
    - A Python exception is a value of [exn]; fallible code returns [result].
    - The global random generators ([random], [np.random]) are one explicit
      source [Rng], threaded through every function that draws from it.
    - A Python [dict] is an association list in insertion order.
    - [math.sin], [math.exp], [np.tanh], the scipy filters and the other
      library routines the code calls are parameters ([PyMath]). *)

From Stdlib Require Import QArith Qabs Qround ZArith List String Bool Lia Lqa.
Import ListNotations.
Open Scope Q_scope.

(* ------------------------------------------------------------------ *)
(** * Python runtime: numbers, exceptions, random source, dictionaries *)
(* ------------------------------------------------------------------ *)

Module Py.

Inductive exn : Type :=
| ValueError
| KeyError
| IndexError
| AttributeError
| TypeError.

Inductive result (A : Type) : Type :=
| Ok (a : A)
| Raise (e : exn).
Arguments Ok {A} a.
Arguments Raise {A} e.

Definition bind {A B : Type} (m : result A) (k : A -> result B) : result B :=
  match m with
  | Ok a => k a
  | Raise e => Raise e
  end.

Definition is_ok {A : Type} (m : result A) : bool :=
  match m with Ok _ => true | Raise _ => false end.

(** Float comparisons. *)
Definition Qltb (a b : Q) : bool := negb (Qle_bool b a).
Definition Qleb (a b : Q) : bool := Qle_bool a b.

(** [int(x)] for a float [x]: truncation toward zero. *)
Definition py_int (x : Q) : Z := Z.quot (Qnum x) (Zpos (Qden x)).

(** [round(x)] for a float [x]: nearest integer, ties to even. *)
Definition py_round (x : Q) : Z :=
  let f := Qfloor x in
  let r := x - inject_Z f in
  if Qltb r (1#2) then f
  else if Qltb (1#2) r then (f + 1)%Z
  else if Z.even f then f else (f + 1)%Z.

(** [np.clip(x, lo, hi)] = [minimum(maximum(x, lo), hi)]. *)
Definition np_clip (x lo hi : Q) : Q :=
  let y := if Qltb x lo then lo else x in
  if Qltb hi y then hi else y.

(** [np.zeros(n)]: a negative dimension raises [ValueError]. *)
Definition np_zeros (n : Z) : result (list Q) :=
  if (n <? 0)%Z then Raise ValueError else Ok (repeat 0 (Z.to_nat n)).

(** The random source.  [unit_draws] feeds [np.random.uniform] (samples of
    [[0,1)]), [gauss_draws] feeds [np.random.normal] (standard normal
    samples), [index_draws] feeds [random.choice] and the like; [cursor]
    counts the draws made so far. *)
Record Rng : Type := mkRng {
  unit_draws : nat -> Q;
  gauss_draws : nat -> Q;
  index_draws : nat -> nat;
  cursor : nat
}.

Definition advance (r : Rng) : Rng :=
  mkRng (unit_draws r) (gauss_draws r) (index_draws r) (S (cursor r)).

(** [np.random.uniform(low, high)] is [low + (high - low) * random_sample()]. *)
Definition np_uniform (low high : Q) (r : Rng) : Q * Rng :=
  (low + (high - low) * unit_draws r (cursor r), advance r).

(** [np.random.normal(loc, scale)] is [loc + scale * standard_normal()]. *)
Definition np_normal (loc scale : Q) (r : Rng) : Q * Rng :=
  (loc + scale * gauss_draws r (cursor r), advance r).

(** [random.choice(seq)]: [IndexError] on an empty sequence. *)
Definition random_choice {A : Type} (l : list A) (r : Rng) : result A * Rng :=
  match l with
  | [] => (Raise IndexError, r)
  | x :: _ => (Ok (nth (index_draws r (cursor r) mod List.length l) l x), advance r)
  end.

(** Every uniform draw of the source lies in [[0,1)]. *)
Definition unit_range (r : Rng) : Prop :=
  forall n, 0 <= unit_draws r n /\ unit_draws r n < 1.

(** A source whose draws are all at the low end. *)
Definition rng_low : Rng := mkRng (fun _ => 0) (fun _ => 0) (fun _ => 0%nat) 0.

(** A source whose uniform draws sit in the middle of the interval. *)
Definition rng_mid : Rng := mkRng (fun _ => 1#2) (fun _ => 0) (fun _ => 0%nat) 0.

(** ** Dictionaries with string keys *)

Definition dict (V : Type) : Type := list (string * V).

Fixpoint dict_get {V : Type} (d : dict V) (k : string) : option V :=
  match d with
  | [] => None
  | (k', v) :: d' => if String.eqb k k' then Some v else dict_get d' k
  end.

(** [d[k] = v]: an existing key keeps its position, a new key goes last. *)
Fixpoint dict_set {V : Type} (d : dict V) (k : string) (v : V) : dict V :=
  match d with
  | [] => [(k, v)]
  | (k', v') :: d' =>
      if String.eqb k k' then (k', v) :: d' else (k', v') :: dict_set d' k v
  end.

(** [d[k]]: a missing key raises [KeyError]. *)
Definition dict_item {V : Type} (d : dict V) (k : string) : result V :=
  match dict_get d k with
  | Some v => Ok v
  | None => Raise KeyError
  end.

Definition dict_keys {V : Type} (d : dict V) : list string := map fst d.
Definition dict_values {V : Type} (d : dict V) : list V := map snd d.

(** [d.update(e)]. *)
Definition dict_update {V : Type} (d e : dict V) : dict V :=
  fold_left (fun acc kv => dict_set acc (fst kv) (snd kv)) e d.

End Py.
Export Py.

Notation "x <- m ;; k" := (Py.bind m (fun x => k))
  (at level 61, m at next level, right associativity).
Notation "' pat <- m ;; k" := (Py.bind m (fun x => match x with pat => k end))
  (at level 61, pat pattern, m at next level, right associativity).

(* ------------------------------------------------------------------ *)
(** * material_properties.py *)
(* ------------------------------------------------------------------ *)

Module Material.

Record WoodProperties : Type := mkWood {
  wood_name : string;
  density : Q;
  youngs_modulus : Q;
  damping_coefficient : Q;
  speed_of_sound : Q;
  hardness : Q
}.

(** [WoodProperties.resonance_brightness]. *)
Definition resonance_brightness (w : WoodProperties) : Q :=
  1 - (density w - 500) / 1000.

Record MembraneProperties : Type := mkMembrane {
  material : string;
  thickness : Q;
  tension : Q;
  age_months : Z;
  moisture_absorption : Q
}.

(** [MembraneProperties.effective_tension]. *)
Definition effective_tension (m : MembraneProperties) : Q :=
  let age_factor := 1 + (inject_Z (age_months m) / 24) * (3#10) in
  tension m * age_factor.

Record StickProperties : Type := mkStick {
  stick_material : string;
  mass : Q;
  stick_length : Q;
  stick_diameter : Q;
  tip_hardness : Q;
  tip_radius : Q
}.

Definition momentum_factor (s : StickProperties) : Q := mass s / 100.
Definition impact_brightness (s : StickProperties) : Q := tip_hardness s / 100.

Record InstrumentBody : Type := mkBody {
  wood_type : string;
  body_length : Q;
  body_diameter : Q;
  wall_thickness : Q
}.

Definition WOOD_DATABASE : dict WoodProperties :=
  [ ("jackwood", mkWood "Jackwood (Varikka)" 720 (98#10) (15#100) 3800 65);
    ("rosewood", mkWood "Rosewood (Eetti)" 900 (125#10) (18#100) 4200 80);
    ("teak", mkWood "Teak (Thekkу)" 680 (102#10) (12#100) 3900 70);
    ("bamboo", mkWood "Bamboo (Mula)" 400 17 (8#100) 4500 55);
    ("mango", mkWood "Mango Wood (Maavu)" 650 (85#10) (14#100) 3600 60) ]%string.

Definition STICK_DATABASE : dict StickProperties :=
  [ ("bamboo_light", mkStick "bamboo" 85 35 (12#10) 70 8);
    ("bamboo_medium", mkStick "bamboo" 95 35 (14#10) 75 8);
    ("bamboo_heavy", mkStick "bamboo" 110 38 (15#10) 78 9);
    ("teak_medium", mkStick "teak" 125 34 (13#10) 82 7);
    ("rosewood_heavy", mkStick "rosewood" 145 33 (14#10) 88 6) ]%string.

(** [StickProperties.resonant_frequency]. *)
Definition resonant_frequency (s : StickProperties) : Q :=
  let wood :=
    match dict_get WOOD_DATABASE (stick_material s) with
    | Some w => w
    | None => mkWood "Bamboo (Mula)" 400 17 (8#100) 4500 55
    end in
  100 * youngs_modulus wood / (stick_length s * stick_length s).

(** The default of the [variation] argument. *)
Definition default_variation : Q := 1#10.

(** [get_random_wood_variant(base_wood, variation=0.1)].  The five factors
    are drawn in the order in which the keyword arguments are evaluated. *)
Definition get_random_wood_variant
    (base_wood : string) (variation : option Q) (r : Rng)
  : result (WoodProperties * Rng) :=
  let v := match variation with Some v => v | None => default_variation end in
  base <- dict_item WOOD_DATABASE base_wood ;;
  let '(f_density, r1) := np_uniform (1 - v) (1 + v) r in
  let '(f_youngs, r2) := np_uniform (1 - v / 2) (1 + v / 2) r1 in
  let '(f_damping, r3) := np_uniform (1 - v) (1 + v) r2 in
  let '(f_speed, r4) := np_uniform (1 - v / 4) (1 + v / 4) r3 in
  let '(f_hardness, r5) := np_uniform (1 - v) (1 + v) r4 in
  Ok (mkWood (wood_name base ++ " (Variant)")
             (density base * f_density)
             (youngs_modulus base * f_youngs)
             (damping_coefficient base * f_damping)
             (speed_of_sound base * f_speed)
             (hardness base * f_hardness),
      r5).

(** The variant generator as the specification words it: every numeric field
    perturbed within [1 - variation, 1 + variation], the elasticity modulus
    alone within half that range.  Used only to compare with the code. *)
Definition wood_variant_as_specified
    (base_wood : string) (variation : option Q) (r : Rng)
  : result (WoodProperties * Rng) :=
  let v := match variation with Some v => v | None => default_variation end in
  base <- dict_item WOOD_DATABASE base_wood ;;
  let '(f_density, r1) := np_uniform (1 - v) (1 + v) r in
  let '(f_youngs, r2) := np_uniform (1 - v / 2) (1 + v / 2) r1 in
  let '(f_damping, r3) := np_uniform (1 - v) (1 + v) r2 in
  let '(f_speed, r4) := np_uniform (1 - v) (1 + v) r3 in
  let '(f_hardness, r5) := np_uniform (1 - v) (1 + v) r4 in
  Ok (mkWood (wood_name base ++ " (Variant)")
             (density base * f_density)
             (youngs_modulus base * f_youngs)
             (damping_coefficient base * f_damping)
             (speed_of_sound base * f_speed)
             (hardness base * f_hardness),
      r5).

(** The factor a uniform draw [u] gives on the range [1 -+ spread]. *)
Definition factor_at (spread u : Q) : Q := (1 - spread) + ((1 + spread) - (1 - spread)) * u.

End Material.
Export Material.

(* ------------------------------------------------------------------ *)
(** * player_system.py *)
(* ------------------------------------------------------------------ *)

Module PlayerSystem.

Inductive PlayerRole : Type :=
| CHENDA_LEAD
| CHENDA_RHYTHM
| CHENDA_ACCENT
| ELATHAALAM_PRIMARY
| ELATHAALAM_SECONDARY
| KOMBU.

Definition role_eqb (a b : PlayerRole) : bool :=
  match a, b with
  | CHENDA_LEAD, CHENDA_LEAD
  | CHENDA_RHYTHM, CHENDA_RHYTHM
  | CHENDA_ACCENT, CHENDA_ACCENT
  | ELATHAALAM_PRIMARY, ELATHAALAM_PRIMARY
  | ELATHAALAM_SECONDARY, ELATHAALAM_SECONDARY
  | KOMBU, KOMBU => true
  | _, _ => false
  end.

Inductive InstrumentType : Type :=
| CHENDA
| ELATHAALAM
| WIND_KOMBU
| WIND_KUZHAL.

Definition is_chenda (t : InstrumentType) : bool :=
  match t with CHENDA => true | _ => false end.
Definition is_elathaalam (t : InstrumentType) : bool :=
  match t with ELATHAALAM => true | _ => false end.

Record TimingCharacteristics : Type := mkTiming {
  base_precision : Q;
  rush_tendency : Q;
  groove_offset : Q
}.

(** [TimingCharacteristics.get_timing_offset]. *)
Definition get_timing_offset (t : TimingCharacteristics) (beat_position : Q) (r : Rng)
  : Q * Rng :=
  let '(random_variation, r1) := np_normal 0 ((1 - base_precision t) * (1#100)) r in
  let rush_component := rush_tendency t * (5#1000) in
  let groove_component := groove_offset t / 1000 in
  (random_variation + rush_component + groove_component, r1).

(** ** The membrane presets are shared objects

    [MEMBRANE_DATABASE] maps a preset name to one [MembraneProperties]
    object.  Objects live in a heap, addressed by [mref]; the database and
    every instrument hold addresses, so that a write through one alias is
    seen through all the others. *)

Definition mref : Type := nat.
Definition MembraneHeap : Type := list MembraneProperties.

Definition MEMBRANE_DATABASE : dict mref :=
  [ ("cow_high", 0%nat); ("cow_medium", 1%nat);
    ("cow_low", 2%nat); ("goat_high", 3%nat) ]%string.

(** The heap as the module is imported. *)
Definition initial_membranes : MembraneHeap :=
  [ mkMembrane "cow_leather" (32#10) (85#100) 6 (3#10);
    mkMembrane "cow_leather" (35#10) (65#100) 12 (3#10);
    mkMembrane "cow_leather" 4 (45#100) 18 (3#10);
    mkMembrane "goat_leather" (28#10) (75#100) 4 (25#100) ]%string.

Definition null_membrane : MembraneProperties := mkMembrane "" 0 0 0 0.

Definition deref (h : MembraneHeap) (p : mref) : MembraneProperties :=
  nth p h null_membrane.

Fixpoint heap_update (h : MembraneHeap) (p : mref)
    (f : MembraneProperties -> MembraneProperties) : MembraneHeap :=
  match h, p with
  | [], _ => []
  | m :: h', O => f m :: h'
  | m :: h', S p' => m :: heap_update h' p' f
  end.

(** [membrane.tension *= factor]. *)
Definition scale_tension (factor : Q) (m : MembraneProperties) : MembraneProperties :=
  mkMembrane (material m) (thickness m) (tension m * factor)
             (age_months m) (moisture_absorption m).

Record ChendaInstrument : Type := mkChenda {
  chenda_id : string;
  body_wood : WoodProperties;
  membrane_valam : mref;
  membrane_edamthala : mref;
  body : InstrumentBody;
  stick_valam : StickProperties;
  stick_edamthala : StickProperties
}.

Record ElathaalamInstrument : Type := mkElathaalam {
  elathaalam_id : string;
  diameter : Q;
  cymbal_thickness : Q;
  metal_type : string;
  age_years : Z
}.

(** The [instrument] attribute of a player: a chenda, a cymbal, or [None]. *)
Inductive Instrument : Type :=
| IChenda (c : ChendaInstrument)
| IElathaalam (e : ElathaalamInstrument)
| INone.

(** The mix state kept is the part the mixer reads (gain, pan, mute, solo);
    the FX-send attributes are read by no function modelled here. *)
Record Player : Type := mkPlayer {
  id : string;
  name : string;
  role : PlayerRole;
  instrument_type : InstrumentType;
  instrument : Instrument;
  timing : TimingCharacteristics;
  skill_level : Q;
  dynamic_range : Q * Q;
  spatial_position : Q * Q * Q;
  gain : Q;
  pan : Q;
  mute : bool;
  solo : bool
}.

(** The dataclass constructor with [__post_init__]: an unset pan is the
    x coordinate of the position. *)
Definition new_player (pid nm : string) (rl : PlayerRole) (ty : InstrumentType)
    (ins : Instrument) (tm : TimingCharacteristics) (skill : Q)
    (range : Q * Q) (pos : Q * Q * Q) : Player :=
  mkPlayer pid nm rl ty ins tm skill range pos 1 (fst (fst pos)) false false.

(** [player.solo = b] and [player.mute = b], as the mixer controls set them. *)
Definition set_solo (p : Player) (b : bool) : Player :=
  mkPlayer (id p) (name p) (role p) (instrument_type p) (instrument p) (timing p)
           (skill_level p) (dynamic_range p) (spatial_position p)
           (gain p) (pan p) (mute p) b.

Definition set_mute (p : Player) (b : bool) : Player :=
  mkPlayer (id p) (name p) (role p) (instrument_type p) (instrument p) (timing p)
           (skill_level p) (dynamic_range p) (spatial_position p)
           (gain p) (pan p) b (solo p).

(** [Player.get_velocity_for_intensity]. *)
Definition get_velocity_for_intensity (p : Player) (intensity : Q) (r : Rng) : Q * Rng :=
  let '(min_vel, max_vel) := dynamic_range p in
  let base_velocity := min_vel + intensity * (max_vel - min_vel) in
  let '(variation, r1) := np_normal 0 ((1 - skill_level p) * (5#100)) r in
  (np_clip (base_velocity + variation) 0 1, r1).

(** The world the factories run in: the membrane heap and the random source. *)
Definition World : Type := (MembraneHeap * Rng)%type.

(** [InstrumentFactory.create_chenda]. *)
Definition create_chenda (chenda_id base_wood valam_tension edamthala_tension
    valam_stick edamthala_stick : string) (variation : Q) (w : World)
  : result (ChendaInstrument * World) :=
  let '(h, r) := w in
  '(wood, r1) <- get_random_wood_variant base_wood (Some variation) r ;;
  membrane_v <- dict_item MEMBRANE_DATABASE ("cow_" ++ valam_tension) ;;
  membrane_e <- dict_item MEMBRANE_DATABASE ("cow_" ++ edamthala_tension) ;;
  let '(f_v, r2) := np_uniform (95#100) (105#100) r1 in
  let h1 := heap_update h membrane_v (scale_tension f_v) in
  let '(f_e, r3) := np_uniform (95#100) (105#100) r2 in
  let h2 := heap_update h1 membrane_e (scale_tension f_e) in
  let '(len, r4) := np_uniform 58 62 r3 in
  let '(dia, r5) := np_uniform 28 32 r4 in
  let '(wall, r6) := np_uniform (23#10) (27#10) r5 in
  let body := mkBody base_wood len dia wall in
  stick_v <- dict_item STICK_DATABASE valam_stick ;;
  stick_e <- dict_item STICK_DATABASE edamthala_stick ;;
  Ok (mkChenda chenda_id wood membrane_v membrane_e body stick_v stick_e, (h2, r6)).

(** [InstrumentFactory.create_elathaalam]. *)
Definition create_elathaalam (elathaalam_id size : string) (r : Rng)
  : ElathaalamInstrument * Rng :=
  let sizes : dict (Q * Q) :=
    [ ("small", (12, 14)); ("medium", (14, 16)); ("large", (16, 18)) ]%string in
  let diameter_range :=
    match dict_get sizes size with Some rg => rg | None => (14, 16) end in
  let '(dia, r1) := np_uniform (fst diameter_range) (snd diameter_range) r in
  let '(th, r2) := np_uniform (15#10) (25#10) r1 in
  let metal := nth (index_draws r2 (cursor r2) mod 2) ["bronze"; "brass"]%string "bronze"%string in
  let r3 := advance r2 in
  let age := (1 + Z.of_nat (index_draws r3 (cursor r3) mod 10))%Z in
  (mkElathaalam elathaalam_id dia th metal age, advance r3).

(** ** PlayerFactory *)

Definition create_chenda_lead (player_id : string) (w : World) : result (Player * World) :=
  '(ins, w1) <- create_chenda (player_id ++ "_chenda") "jackwood" "high" "medium"
                   "bamboo_medium" "bamboo_heavy" (8#100) w ;;
  Ok (new_player player_id "Lead Player" CHENDA_LEAD CHENDA (IChenda ins)
        (mkTiming (95#100) (2#100) 0) (95#100) (6#10, 1) (-(3#10), 0, 1), w1).

Definition create_chenda_rhythm (player_id : string) (w : World) : result (Player * World) :=
  '(ins, w1) <- create_chenda (player_id ++ "_chenda") "teak" "medium" "medium"
                   "bamboo_medium" "bamboo_heavy" (8#100) w ;;
  Ok (new_player player_id "Rhythm Player" CHENDA_RHYTHM CHENDA (IChenda ins)
        (mkTiming (98#100) 0 0) (92#100) (5#10, 85#100) (3#10, 0, 1), w1).

Definition create_chenda_accent (player_id : string) (w : World) : result (Player * World) :=
  '(ins, w1) <- create_chenda (player_id ++ "_chenda") "rosewood" "high" "medium"
                   "teak_medium" "bamboo_heavy" (8#100) w ;;
  Ok (new_player player_id "Accent Player" CHENDA_ACCENT CHENDA (IChenda ins)
        (mkTiming (90#100) (-(1#100)) 0) (90#100) (4#10, 1) (0, 0, 8#10), w1).

Definition create_elathaalam_primary (player_id : string) (w : World) : Player * World :=
  let '(h, r) := w in
  let '(ins, r1) := create_elathaalam (player_id ++ "_elathaalam") "medium" r in
  (new_player player_id "Elathaalam 1" ELATHAALAM_PRIMARY ELATHAALAM (IElathaalam ins)
     (mkTiming (93#100) 0 0) (90#100) (5#10, 9#10) (-(8#10), 0, 12#10), (h, r1)).

Definition create_elathaalam_secondary (player_id : string) (w : World) : Player * World :=
  let '(h, r) := w in
  let '(ins, r1) := create_elathaalam (player_id ++ "_elathaalam") "small" r in
  (new_player player_id "Elathaalam 2" ELATHAALAM_SECONDARY ELATHAALAM (IElathaalam ins)
     (mkTiming (91#100) 0 (1#2)) (88#100) (4#10, 8#10) (8#10, 0, 12#10), (h, r1)).

Definition create_kombu (player_id : string) : Player :=
  new_player player_id "Kombu Player" KOMBU WIND_KOMBU INone
    (mkTiming (85#100) 0 0) (85#100) (3#10, 7#10) (0, 0, 15#10).

(** ** Ensemble *)

Record Ensemble : Type := mkEnsemble { players : dict Player }.

(** [Ensemble.build_standard_melam]. *)
Definition build_standard_melam (w : World) : result (Ensemble * World) :=
  '(p1, w1) <- create_chenda_lead "P1" w ;;
  '(p2, w2) <- create_chenda_rhythm "P2" w1 ;;
  '(p3, w3) <- create_chenda_accent "P3" w2 ;;
  let '(p4, w4) := create_elathaalam_primary "P4" w3 in
  let '(p5, w5) := create_elathaalam_secondary "P5" w4 in
  let p6 := create_kombu "P6" in
  Ok (mkEnsemble [ ("P1", p1); ("P2", p2); ("P3", p3);
                   ("P4", p4); ("P5", p5); ("P6", p6) ]%string, w5).

Definition get_player (e : Ensemble) (player_id : string) : option Player :=
  dict_get (players e) player_id.

Definition get_players_by_role (e : Ensemble) (rl : PlayerRole) : list Player :=
  filter (fun p => role_eqb (role p) rl) (dict_values (players e)).

Definition get_chenda_players (e : Ensemble) : list Player :=
  filter (fun p => is_chenda (instrument_type p)) (dict_values (players e)).

Definition get_cymbal_players (e : Ensemble) : list Player :=
  filter (fun p => is_elathaalam (instrument_type p)) (dict_values (players e)).

End PlayerSystem.
Export PlayerSystem.

(* ------------------------------------------------------------------ *)
(** * orchestration_engine.py *)
(* ------------------------------------------------------------------ *)

Module Orchestration.

Inductive OrchestrationStrategy : Type :=
| TRADITIONAL
| DYNAMIC
| ANTIPHONAL
| UNISON
| LAYERED.

Record StrokeEvent : Type := mkEvent {
  time : Q;
  stroke_type : string;
  sound_category : string;
  intensity : Q;
  duration : Q;
  assigned_player : option string;
  velocity : option Q;
  contact_point : option Q
}.

(** [event.sound_category == "REST"]. *)
Definition is_rest (e : StrokeEvent) : bool := String.eqb (sound_category e) "REST".

Record OrchestrationPattern : Type := mkPattern {
  chenda_events : dict (list StrokeEvent);
  cymbal_events : dict (list StrokeEvent);
  wind_events : dict (list StrokeEvent)
}.

Definition empty_pattern : OrchestrationPattern := mkPattern [] [] [].

(** [OrchestrationPattern.get_all_player_events]. *)
Definition get_all_player_events (p : OrchestrationPattern) : dict (list StrokeEvent) :=
  dict_update (dict_update (dict_update [] (chenda_events p)) (cymbal_events p))
              (wind_events p).

(** [d[k].append(x)]. *)
Definition dict_append {E : Type} (d : dict (list E)) (k : string) (x : E)
  : result (dict (list E)) :=
  match dict_get d k with
  | Some l => Ok (dict_set d k (l ++ [x]))
  | None => Raise KeyError
  end.

(** [for x in l: body], threading the state and stopping at an exception. *)
Fixpoint for_each {A St : Type} (body : A -> St -> result St) (l : list A) (s : St)
  : result St :=
  match l with
  | [] => Ok s
  | x :: l' => s' <- body x s ;; for_each body l' s'
  end.

(** [for i, x in enumerate(l): body], counting from [i]. *)
Fixpoint for_enumerate {A St : Type} (body : nat -> A -> St -> result St)
    (i : nat) (l : list A) (s : St) : result St :=
  match l with
  | [] => Ok s
  | x :: l' => s' <- body i x s ;; for_enumerate body (S i) l' s'
  end.

(** The state of an orchestration run. *)
Definition OState : Type := (OrchestrationPattern * Rng)%type.

Definition set_chenda (p : OrchestrationPattern) (d : dict (list StrokeEvent)) :=
  mkPattern d (cymbal_events p) (wind_events p).
Definition set_cymbal (p : OrchestrationPattern) (d : dict (list StrokeEvent)) :=
  mkPattern (chenda_events p) d (wind_events p).

(** [get_players_by_role(role)[0]]. *)
Definition first_by_role (e : Ensemble) (rl : PlayerRole) : result Player :=
  match get_players_by_role e rl with
  | p :: _ => Ok p
  | [] => Raise IndexError
  end.

(** [_assign_event_to_player]. *)
Definition _assign_event_to_player (event : StrokeEvent) (player : Player) (r : Rng)
  : StrokeEvent * Rng :=
  let '(vel, r1) := get_velocity_for_intensity player (intensity event) r in
  let '(timing_offset, r2) := get_timing_offset (timing player) (time event) r1 in
  let adjusted_time := time event + timing_offset in
  let '(contact, r3) :=
    if Qltb (7#10) (intensity event)
    then np_uniform (6#10) (9#10) r2
    else np_uniform (3#10) (6#10) r2 in
  (mkEvent adjusted_time (stroke_type event) (sound_category event)
           (intensity event) (duration event)
           (Some (id player)) (Some vel) (Some contact), r3).

(** [_add_cymbal_events]. *)
Definition _add_cymbal_events (t : Q) (cymbals : list Player) (s : OState)
  : result OState :=
  for_each
    (fun cymbal '(pat, r) =>
       let '(off, r1) := get_timing_offset (timing cymbal) t r in
       let '(vel, r2) := get_velocity_for_intensity cymbal (6#10) r1 in
       let cymbal_event :=
         mkEvent (t + off) "1" "NAM" (6#10) (1#2)
                 (Some (id cymbal)) (Some vel) (Some (1#2)) in
       d <- dict_append (cymbal_events pat) (id cymbal) cymbal_event ;;
       Ok (set_cymbal pat d, r2))
    cymbals s.

Definition list_max (x : Q) (l : list Q) : Q :=
  fold_left (fun m y => if Qltb m y then y else m) l x.
Definition list_min (x : Q) (l : list Q) : Q :=
  fold_left (fun m y => if Qltb y m then y else m) l x.

(** [_analyze_pattern_complexity]. *)
Definition _analyze_pattern_complexity (events : list StrokeEvent) : Q :=
  match events with
  | [] => 0
  | _ =>
      let non_rest := filter (fun e => negb (is_rest e)) events in
      let density :=
        inject_Z (Z.of_nat (List.length non_rest)) / inject_Z (Z.of_nat (List.length events)) in
      let dynamic_range :=
        match map intensity non_rest with
        | x :: l => list_max x l - list_min x l
        | [] => 0
        end in
      np_clip (density * (1#2) + dynamic_range * (1#2)) 0 1
  end.

(** [_is_structural_beat]. *)
Definition _is_structural_beat (position total_length : nat) : bool :=
  (position mod 4 =? 0)%nat.

(** The stroke types the traditional rules route to the accent player. *)
Definition heavy_accents : list string := ["Dheem"; "Dha"]%string.

(** [_select_player_traditional]. *)
Definition _select_player_traditional (event : StrokeEvent) (position : nat)
    (complexity : Q) (lead rhythm accent : Player) : Player :=
  let is_downbeat := (position mod 4 =? 0)%nat in
  if Qltb (8#10) (intensity event) then
    if existsb (String.eqb (stroke_type event)) heavy_accents then accent else lead
  else if is_downbeat && Qltb (intensity event) (6#10) then rhythm
  else if Qltb (7#10) complexity then lead
  else nth (position mod 3) [lead; rhythm; accent] lead.

(** The three chenda lists and the cymbal lists every strategy starts from. *)
Definition init_lists (ids : list string) (d : dict (list StrokeEvent))
  : dict (list StrokeEvent) :=
  fold_left (fun acc k => dict_set acc k []) ids d.

(** [_orchestrate_traditional]. *)
Definition _orchestrate_traditional (ens : Ensemble) (events : list StrokeEvent)
    (r : Rng) : result OState :=
  lead_player <- first_by_role ens CHENDA_LEAD ;;
  rhythm_player <- first_by_role ens CHENDA_RHYTHM ;;
  accent_player <- first_by_role ens CHENDA_ACCENT ;;
  let cymbals := get_cymbal_players ens in
  let pattern :=
    mkPattern (init_lists [id lead_player; id rhythm_player; id accent_player] [])
              (init_lists (map id cymbals) []) [] in
  let complexity := _analyze_pattern_complexity events in
  for_enumerate
    (fun i event '(pat, r0) =>
       if is_rest event then Ok (pat, r0)
       else
         let player := _select_player_traditional event i complexity
                         lead_player rhythm_player accent_player in
         let '(assigned_event, r1) := _assign_event_to_player event player r0 in
         d <- dict_append (chenda_events pat) (id player) assigned_event ;;
         if _is_structural_beat i (List.length events)
         then _add_cymbal_events (time event) cymbals (set_chenda pat d, r1)
         else Ok (set_chenda pat d, r1))
    0%nat events (pattern, r).

(** The first key of least value: [min(loads, key=loads.get)]. *)
Fixpoint argmin_key (loads : dict nat) : option (string * nat) :=
  match loads with
  | [] => None
  | (k, v) :: rest =>
      match argmin_key rest with
      | Some (k', v') => if (v' <? v)%nat then Some (k', v') else Some (k, v)
      | None => Some (k, v)
      end
  end.

(** [_select_player_by_load]: [None] when the least-loaded id is no key of
    the ensemble. *)
Definition _select_player_by_load (ens : Ensemble) (chendas : list Player)
    (pat : OrchestrationPattern) : result (option Player) :=
  let loads :=
    fold_left
      (fun acc p =>
         dict_set acc (id p)
           (List.length (match dict_get (chenda_events pat) (id p) with
                         | Some l => l
                         | None => []
                         end)))
      chendas [] in
  match argmin_key loads with
  | Some (min_load_id, _) => Ok (get_player ens min_load_id)
  | None => Raise ValueError
  end.

(** [_orchestrate_dynamic].  The density it computes first is never read. *)
Definition _orchestrate_dynamic (ens : Ensemble) (events : list StrokeEvent)
    (r : Rng) : result OState :=
  let chenda_players := get_chenda_players ens in
  let cymbals := get_cymbal_players ens in
  let pattern :=
    mkPattern (init_lists (map id chenda_players) [])
              (init_lists (map id cymbals) []) [] in
  for_enumerate
    (fun i event '(pat, r0) =>
       if is_rest event then Ok (pat, r0)
       else
         chosen <- _select_player_by_load ens chenda_players pat ;;
         match chosen with
         | None => Raise AttributeError
         | Some player =>
             let '(assigned_event, r1) := _assign_event_to_player event player r0 in
             d <- dict_append (chenda_events pat) (id player) assigned_event ;;
             if (i mod 8 =? 0)%nat
             then _add_cymbal_events (time event) cymbals (set_chenda pat d, r1)
             else Ok (set_chenda pat d, r1)
         end)
    0%nat events (pattern, r).

(** [_orchestrate_antiphonal]. *)
Definition _orchestrate_antiphonal (ens : Ensemble) (events : list StrokeEvent)
    (r : Rng) : result OState :=
  lead <- first_by_role ens CHENDA_LEAD ;;
  rhythm <- first_by_role ens CHENDA_RHYTHM ;;
  accent <- first_by_role ens CHENDA_ACCENT ;;
  let cymbals := get_cymbal_players ens in
  let pattern :=
    mkPattern (init_lists [id lead; id rhythm; id accent] [])
              (init_lists (map id cymbals) []) [] in
  let phrase_length := 4%nat in
  for_enumerate
    (fun i event '(pat, r0) =>
       if is_rest event then Ok (pat, r0)
       else
         let phrase_num := (i / phrase_length)%nat in
         let player :=
           if (phrase_num mod 2 =? 0)%nat then lead
           else if (i mod 2 =? 0)%nat then rhythm else accent in
         let '(assigned_event, r1) := _assign_event_to_player event player r0 in
         d <- dict_append (chenda_events pat) (id player) assigned_event ;;
         Ok (set_chenda pat d, r1))
    0%nat events (pattern, r).

(** The inner loop shared by the unison and layered strategies:
    [for player in players: append(assign(event, player))]. *)
Definition assign_to_all (event : StrokeEvent) (ps : list Player) (s : OState)
  : result OState :=
  for_each
    (fun player '(pat, r0) =>
       let '(assigned_event, r1) := _assign_event_to_player event player r0 in
       d <- dict_append (chenda_events pat) (id player) assigned_event ;;
       Ok (set_chenda pat d, r1))
    ps s.

(** [_orchestrate_unison]. *)
Definition _orchestrate_unison (ens : Ensemble) (events : list StrokeEvent)
    (r : Rng) : result OState :=
  let chenda_players := get_chenda_players ens in
  let cymbals := get_cymbal_players ens in
  let pattern :=
    mkPattern (init_lists (map id chenda_players) [])
              (init_lists (map id cymbals) []) [] in
  for_enumerate
    (fun i event s =>
       if is_rest event then Ok s
       else
         s1 <- assign_to_all event chenda_players s ;;
         if _is_structural_beat i (List.length events)
         then _add_cymbal_events (time event) cymbals s1
         else Ok s1)
    0%nat events (pattern, r).

(** The players that have entered at position [i] of the layered strategy. *)
Fixpoint active_at (i : nat) (chendas : list Player) (idx : nat) (entries : list nat)
  : list Player :=
  match entries with
  | [] => []
  | entry :: rest =>
      if (entry <=? i)%nat && (idx <? List.length chendas)%nat
      then match nth_error chendas idx with
           | Some p => p :: active_at i chendas (S idx) rest
           | None => active_at i chendas (S idx) rest
           end
      else active_at i chendas (S idx) rest
  end.

(** [_orchestrate_layered]. *)
Definition _orchestrate_layered (ens : Ensemble) (events : list StrokeEvent)
    (r : Rng) : result OState :=
  let chenda_players := get_chenda_players ens in
  let cymbals := get_cymbal_players ens in
  let pattern :=
    mkPattern (init_lists (map id chenda_players) [])
              (init_lists (map id cymbals) []) [] in
  let n := List.length events in
  let entry_points := [0; n / 4; n / 2]%nat in
  for_enumerate
    (fun i event s =>
       if is_rest event then Ok s
       else assign_to_all event (active_at i chenda_players 0 entry_points) s)
    0%nat events (pattern, r).

(** [orchestrate_sequence]. *)
Definition orchestrate_sequence (ens : Ensemble) (events : list StrokeEvent)
    (strategy : OrchestrationStrategy) (r : Rng) : result OState :=
  match strategy with
  | TRADITIONAL => _orchestrate_traditional ens events r
  | DYNAMIC => _orchestrate_dynamic ens events r
  | ANTIPHONAL => _orchestrate_antiphonal ens events r
  | UNISON => _orchestrate_unison ens events r
  | LAYERED => _orchestrate_layered ens events r
  end.

(** What an assigned copy keeps of the event it was made from. *)
Definition score_of (e : StrokeEvent) : string * string * Q * Q :=
  (stroke_type e, sound_category e, intensity e, duration e).

(** An assigned event of player [pid]: player, velocity and contact point set. *)
Definition assigned_to (pid : string) (e : StrokeEvent) : Prop :=
  assigned_player e = Some pid /\ velocity e <> None /\ contact_point e <> None.

End Orchestration.
Export Orchestration.

(* ------------------------------------------------------------------ *)
(** * Library routines taken as parameters *)
(* ------------------------------------------------------------------ *)

Module Lib.

(** The transcendental functions of [math] and [numpy]. *)
Record PyMath : Type := mkMath {
  m_pi : Q;
  m_sin : Q -> Q;
  m_cos : Q -> Q;
  m_exp : Q -> Q;
  m_tanh : Q -> Q;
  m_sqrt : Q -> Q
}.

(** A coarse rational instance, used to run the definitions on concrete
    inputs.  The theorems below hold for every instance. *)
Definition coarse_math : PyMath :=
  mkMath (355#113)
         (fun x => Qred (x / (1 + x * x)))
         (fun x => Qred (1 / (1 + x * x)))
         (fun x => Qred (1 / (1 + Qabs x)))
         (fun x => Qred (x / (1 + Qabs x)))
         (fun x => Qred ((1 + x) / 2)).

(** Element-wise operations on sample buffers.  Wherever the code adds two
    buffers they have the same length; [vec_add] stops at the shorter one. *)
Definition vec_scale (a : list Q) (k : Q) : list Q := map (fun x => x * k) a.

Fixpoint vec_add (a b : list Q) : list Q :=
  match a, b with
  | x :: a', y :: b' => (x + y) :: vec_add a' b'
  | _, _ => []
  end.

(** The largest absolute value of a buffer, 0 for the empty one. *)
Definition max_abs (l : list Q) : Q :=
  fold_left (fun m y => if Qltb m (Qabs y) then Qabs y else m) l 0.

(** [np.max(np.abs(a))]: a zero-size array raises [ValueError]. *)
Definition np_max_abs (l : list Q) : result Q :=
  match l with
  | [] => Raise ValueError
  | _ => Ok (max_abs l)
  end.

(** [np.pad(a, (before, after))]. *)
Definition np_pad (a : list Q) (before after : nat) : list Q :=
  repeat 0 before ++ a ++ repeat 0 after.

End Lib.
Export Lib.

(* ------------------------------------------------------------------ *)
(** * spectral_engine.py *)
(* ------------------------------------------------------------------ *)

Module Spectral.

(** One acoustic signature of the database: its category and its partials
    (frequency, amplitude, decay scale). *)
Record Signature : Type := mkSignature {
  cat : string;
  partials : list (Q * Q * Q)
}.

(** The engine once [load_db] has run; a missing file leaves [db] empty. *)
Record SpectralEngine : Type := mkEngine {
  sample_rate : Z;
  db : dict Signature
}.

Section Kernel.
Variable M : PyMath.

(** The inner loop of the kernel over the samples of one partial:
    [contrib t_idx] is [None] where the loop breaks. *)
Fixpoint accumulate (contrib : nat -> option Q) (t_idx : nat) (output : list Q)
  : list Q :=
  match output with
  | [] => []
  | y :: rest =>
      match contrib t_idx with
      | None => y :: rest
      | Some c => (y + c) :: accumulate contrib (S t_idx) rest
      end
  end.

(** The wood-tone gain table. *)
Definition freq_factor (freq : Q) : Q :=
  if Qltb freq 80 then 4#10
  else if Qltb freq 180 then 12#10
  else if Qltb freq 450 then 16#10
  else if Qltb freq 800 then 11#10
  else if Qltb freq 2500 then 8#10
  else if Qltb freq 5000 then 6#10
  else 1#10.

(** The body of the loop over partials. *)
Definition add_partial (time_step : Q) (output : list Q) (p : Q * Q * Q) : list Q :=
  let '(freq, amp, decay_scale) := p in
  if Qltb amp (1#1000) then output
  else
    let inharmonic_stretch := 1 + freq * (5#100000) in
    let target_freq := freq * inharmonic_stretch in
    let amp_filtered := amp * freq_factor freq in
    let omega := 2 * m_pi M * target_freq in
    let decay_coef := -(5) * decay_scale in
    let distortion := 1 + (1#10) * Qabs (m_sin M (omega * (2#1000))) in
    let transient_mix := if Qltb 1000 freq then 4#10 else 0 in
    accumulate
      (fun t_idx =>
         let t := inject_Z (Z.of_nat t_idx) * time_step in
         let env := m_exp M (decay_coef * t) in
         let transient_env := m_exp M (-(500) * t) * transient_mix in
         let total_amp := (env + transient_env) * amp_filtered * distortion in
         if Qltb total_amp (1#100000) then None
         else Some (m_sin M (omega * t) * total_amp))
      0%nat output.

(** [synthesize_additive]. *)
Definition synthesize_additive (parts : list (Q * Q * Q)) (dur : Q)
    (rate : Z) (vel : Q) : result (list Q) :=
  let num_samples := py_int (dur * inject_Z rate) in
  zeros <- np_zeros num_samples ;;
  let time_step := 1 / inject_Z rate in
  let output := fold_left (add_partial time_step) parts zeros in
  let max_val := max_abs output in
  if Qltb 0 max_val
  then Ok (vec_scale output ((1 / max_val) * vel))
  else Ok output.

(** One virtual drummer of [get_sound]: the body of the loop over
    [range(num_drummers)].  An unset velocity raises [TypeError] where it is
    first multiplied. *)
Definition render_layer (eng : SpectralEngine) (candidates : list string)
    (vel : option Q) (dur : Q) (target_samples : Z) (r : Rng)
  : result (list Q * Rng) :=
  let '(chosen, r1) := random_choice candidates r in
  sound_id <- chosen ;;
  data <- dict_item (db eng) sound_id ;;
  let '(dt, r2) := np_normal 0 (15#1000) r1 in
  let detune := 1 + dt in
  let '(timing_offset, r3) := np_normal 0 (8#1000) r2 in
  v <- match vel with Some v => Ok v | None => Raise TypeError end ;;
  let '(jitter, r4) := np_uniform (9#10) (11#10) r3 in
  layer <- synthesize_additive
             (map (fun '(f, a, d) => (f * detune, a * detune, d * detune)) (partials data))
             dur (sample_rate eng) (v * jitter) ;;
  let target := Z.to_nat target_samples in
  let layer1 :=
    if (List.length layer <? target)%nat
    then np_pad layer 0 (target - List.length layer)
    else if (target <? List.length layer)%nat then firstn target layer
    else layer in
  let offset_samples := Z.to_nat (py_int (Qabs timing_offset * inject_Z (sample_rate eng))) in
  let layer2 :=
    if Qltb 0 timing_offset then
      if (0 <? offset_samples)%nat
      then firstn target (np_pad layer1 offset_samples 0)
      else layer1
    else if Qltb timing_offset 0 then
      if (0 <? offset_samples)%nat
      then firstn target (skipn offset_samples (np_pad layer1 0 offset_samples))
      else layer1
    else layer1 in
  Ok (layer2, r4).

(** [for i in range(n): layers.append(render_layer(...))]. *)
Fixpoint render_layers (n : nat) (eng : SpectralEngine) (candidates : list string)
    (vel : option Q) (dur : Q) (target_samples : Z) (r : Rng)
  : result (list (list Q) * Rng) :=
  match n with
  | O => Ok ([], r)
  | S n' =>
      '(layer, r1) <- render_layer eng candidates vel dur target_samples r ;;
      '(rest, r2) <- render_layers n' eng candidates vel dur target_samples r1 ;;
      Ok (layer :: rest, r2)
  end.

Definition num_drummers : nat := 4.

(** [SpectralEngine.get_sound]. *)
Definition get_sound (eng : SpectralEngine) (category : string)
    (vel : option Q) (dur : Q) (r : Rng) : result (list Q * Rng) :=
  let candidates :=
    dict_keys (filter (fun kv => String.eqb (cat (snd kv)) category) (db eng)) in
  match candidates with
  | [] =>
      z <- np_zeros (py_int (dur * inject_Z (sample_rate eng))) ;;
      Ok (z, r)
  | _ =>
      let target_samples := py_int (dur * inject_Z (sample_rate eng)) in
      '(layers, r1) <- render_layers num_drummers eng candidates vel dur target_samples r ;;
      zeros <- np_zeros target_samples ;;
      let ensemble :=
        fold_left
          (fun acc layer =>
             if (List.length layer =? Z.to_nat target_samples)%nat
             then vec_add acc layer else acc)
          layers zeros in
      max_val <- np_max_abs ensemble ;;
      if Qltb 0 max_val
      then
        v <- match vel with Some v => Ok v | None => Raise TypeError end ;;
        Ok (map (fun x => x / max_val * v) ensemble, r1)
      else Ok (ensemble, r1)
  end.

End Kernel.

End Spectral.
Export Spectral.

(* ------------------------------------------------------------------ *)
(** * ensemble_mixer.py: the post-processing chain *)
(* ------------------------------------------------------------------ *)

Module PostFx.

(** The arithmetic the chain performs on samples.  The chain is written once
    and read at two sample types: rationals (finite samples) and rationals
    extended with NaN. *)
Class Sample (S : Type) : Type := mkSample {
  s_add : S -> S -> S;
  s_mul : S -> Q -> S
}.

#[export] Instance Q_sample : Sample Q := mkSample Q Qplus Qmult.

(** A float64 that may be NaN.  NaN absorbs every arithmetic operation. *)
Inductive xfloat : Type :=
| Fin (q : Q)
| NaN.

Definition x_add (a b : xfloat) : xfloat :=
  match a, b with
  | Fin x, Fin y => Fin (x + y)
  | _, _ => NaN
  end.

Definition x_mul (a : xfloat) (k : Q) : xfloat :=
  match a with
  | Fin x => Fin (x * k)
  | NaN => NaN
  end.

#[export] Instance xfloat_sample : Sample xfloat := mkSample xfloat x_add x_mul.

Inductive btype : Type := highpass | lowpass.

(** The scipy routines of the chain.  [butter_sosfilt bt wn x] is
    [sosfilt(butter(1, wn, btype=bt, output='sos'), x)]; [interp1d y t] is
    [interp1d(arange(len(y)), y, kind='linear', fill_value=0,
    bounds_error=False)(t)]. *)
Record Scipy (S : Type) : Type := mkScipy {
  butter_sosfilt : btype -> Q -> list S -> list S;
  interp1d : list S -> list Q -> list S
}.
Arguments butter_sosfilt {S} _ _ _ _.
Arguments interp1d {S} _ _ _.

Section Chain.
Context {S : Type} `{Sample S}.
Variable sp : Scipy S.
Variable rate : Z.

(** [signal * (1 - blend) + filtered * blend], element by element. *)
Fixpoint blend_with (sig filtered : list S) (blend : Q) : list S :=
  match sig, filtered with
  | x :: sig', y :: filtered' =>
      s_add (s_mul x (1 - blend)) (s_mul y blend) :: blend_with sig' filtered' blend
  | _, _ => []
  end.

(** [_apply_wood_character]. *)
Definition _apply_wood_character (audio_signal : list S) (brightness : Q) : list S :=
  if Qltb (6#10) brightness then
    let cutoff := 1500 in
    let filtered := butter_sosfilt sp highpass (cutoff / (inject_Z rate / 2)) audio_signal in
    let blend := (brightness - (6#10)) * (1#2) in
    blend_with audio_signal filtered blend
  else if Qltb brightness (4#10) then
    let cutoff := 800 in
    let filtered := butter_sosfilt sp lowpass (cutoff / (inject_Z rate / 2)) audio_signal in
    let blend := ((4#10) - brightness) * (1#2) in
    blend_with audio_signal filtered blend
  else audio_signal.

(** [StickImpactModeler.apply_contact_point_filtering]. *)
Definition apply_contact_point_filtering (sig : list S) (contact : Q) : list S :=
  if Qltb (1#2) contact then
    let cutoff := 300 + (contact - (1#2)) * 1000 in
    let filtered := butter_sosfilt sp highpass (cutoff / (inject_Z rate / 2)) sig in
    let blend := (contact - (1#2)) * (4#10) in
    blend_with sig filtered blend
  else
    let cutoff := 1500 + contact * 2000 in
    let filtered := butter_sosfilt sp lowpass (cutoff / (inject_Z rate / 2)) sig in
    let blend := ((1#2) - contact) * (4#10) in
    blend_with sig filtered blend.

(** [_apply_pitch_bend].  The pitch envelope the source computes is never
    read.  Whatever fails inside the [try] leaves the signal as it was: a
    zero divisor, or an interpolated portion of the wrong length. *)
Definition _apply_pitch_bend (audio_signal : list S) (bend_amount bend_duration : Q)
  : list S :=
  let n := Z.of_nat (List.length audio_signal) in
  let bend0 := py_int (bend_duration * inject_Z rate) in
  let bend_samples := if (n <? bend0)%Z then n else bend0 in
  if (bend_samples <? 10)%Z then audio_signal
  else
    let k := Z.to_nat bend_samples in
    let bent_portion := firstn k audio_signal in
    let denom := 1 - bend_amount * (1#2) in
    if Qeq_bool denom 0 then audio_signal
    else
      let t_new := map (fun i => inject_Z (Z.of_nat i) * (1 / denom)) (seq 0 k) in
      if Qltb (last t_new 0) (inject_Z (Z.of_nat (List.length bent_portion))) then
        let bent := interp1d sp bent_portion (firstn k t_new) in
        if (List.length bent =? k)%nat
        then bent ++ skipn k audio_signal
        else audio_signal
      else audio_signal.

(** [_apply_material_effects], given what it reads of the strike profile
    (pitch-bend amount and duration, contact point) and the wood. *)
Definition _apply_material_effects (audio_signal : list S)
    (pitch_bend pitch_bend_duration : Q) (contact : Q) (wood : WoodProperties)
  : list S :=
  let output := audio_signal in
  let output1 :=
    if Qltb (1#100) pitch_bend
    then _apply_pitch_bend output pitch_bend pitch_bend_duration
    else output in
  let brightness := resonance_brightness wood in
  let output2 := _apply_wood_character output1 brightness in
  apply_contact_point_filtering output2 contact.

End Chain.

(** A buffer holds a NaN. *)
Definition has_nan (l : list xfloat) : Prop := In NaN l.

(** A buffer of silence: every sample is a finite zero. *)
Definition is_silence (l : list xfloat) : Prop :=
  Forall (fun x => match x with Fin q => q == 0 | NaN => False end) l.

(** A one-pole recursive filter over extended samples, standing for the
    scipy filters where a concrete one is needed: [y[n] = b*x[n] + a*y[n-1]]. *)
Fixpoint one_pole (b a : Q) (prev : xfloat) (x : list xfloat) : list xfloat :=
  match x with
  | [] => []
  | s :: x' =>
      let y := x_add (x_mul s b) (x_mul prev a) in
      y :: one_pole b a y x'
  end.

Definition sample_scipy : Scipy xfloat :=
  mkScipy xfloat
    (fun bt wn x => one_pole (1#2) (1#2) (Fin 0) x)
    (fun y t => y).

End PostFx.
Export PostFx.

(* ------------------------------------------------------------------ *)
(** * ensemble_mixer.py: rendering, spatialization, mastering *)
(* ------------------------------------------------------------------ *)

Module Mixer.

(** What the mixer reads of a strike profile. *)
Record StrikeProfile : Type := mkProfile {
  pitch_bend_amount : Q;
  pitch_bend_duration : Q;
  profile_contact_point : Q;
  transient_waveform : list Q;
  stick_resonance_waveform : list Q
}.

(** The master buffer: two channels when spatial, one otherwise. *)
Inductive Master : Type :=
| Stereo (left right : list Q)
| Mono (mix : list Q).

(** [a[:n] += w[:n]] with [n = min(len(a), len(w))]. *)
Fixpoint add_onto (a w : list Q) : list Q :=
  match a, w with
  | x :: a', y :: w' => (x + y) :: add_onto a' w'
  | _, _ => a
  end.

(** [track[start:end] += sound[:end - start]] with [end] clamped to the
    length of the track. *)
Fixpoint add_at (track : list Q) (start : nat) (sound : list Q) : list Q :=
  match start, track with
  | O, _ => add_onto track sound
  | S s, x :: t => x :: add_at t s sound
  | S _, [] => []
  end.

Section Render.
Variable M : PyMath.
Variable sp : Scipy Q.
(** [stick_physics.create_complete_strike_profile(stick, membrane, velocity,
    contact_point, 90.0, sample_rate)]; its noise burst draws from the
    random source. *)
Variable create_complete_strike_profile :
  StickProperties -> MembraneProperties -> Q -> Q -> Z -> Rng ->
  result (StrikeProfile * Rng).
(** The mixer's own sample rate, the spectral engine, the membrane heap. *)
Variable rate : Z.
Variable eng : SpectralEngine.
Variable heap : MembraneHeap.

Definition unset {A : Type} (o : option A) : result A :=
  match o with Some a => Ok a | None => Raise TypeError end.

(** [_synthesize_basic]. *)
Definition _synthesize_basic (event : StrokeEvent) (r : Rng) : result (list Q * Rng) :=
  get_sound M eng (sound_category event) (velocity event) (duration event) r.

(** [_synthesize_cymbal_strike]. *)
Definition _synthesize_cymbal_strike (player : Player) (event : StrokeEvent) (r : Rng)
  : result (list Q * Rng) :=
  get_sound M eng "NAM" (velocity event) (duration event) r.

(** [_synthesize_chenda_strike]. *)
Definition _synthesize_chenda_strike (player : Player) (event : StrokeEvent) (r : Rng)
  : result (list Q * Rng) :=
  match instrument player with
  | IChenda ins =>
      let on_valam :=
        existsb (String.eqb (sound_category event)) ["THAAM"; "CHAPU"]%string in
      let membrane :=
        deref heap (if on_valam then membrane_valam ins else membrane_edamthala ins) in
      let stick := if on_valam then stick_valam ins else stick_edamthala ins in
      let base_category := sound_category event in
      v <- unset (velocity event) ;;
      c <- unset (contact_point event) ;;
      '(strike_profile, r1) <- create_complete_strike_profile stick membrane v c rate r ;;
      '(base_sound, r2) <- get_sound M eng base_category (velocity event) (duration event) r1 ;;
      let modified_sound :=
        _apply_material_effects sp rate base_sound
          (pitch_bend_amount strike_profile) (pitch_bend_duration strike_profile)
          (profile_contact_point strike_profile) (body_wood ins) in
      let with_transient :=
        add_onto modified_sound (vec_scale (transient_waveform strike_profile) (3#10)) in
      let with_stick :=
        add_onto with_transient (vec_scale (stick_resonance_waveform strike_profile) (15#100)) in
      Ok (with_stick, r2)
  | _ => _synthesize_basic event r
  end.

(** The body of the loop of [_render_player_track] over the events. *)
Definition render_event (player : Player) (num_samples : Z) (event : StrokeEvent)
    (s : list Q * Rng) : result (list Q * Rng) :=
  let '(track, r) := s in
  if is_rest event then Ok (track, r)
  else
    '(sound, r1) <-
      match instrument_type player with
      | CHENDA => _synthesize_chenda_strike player event r
      | ELATHAALAM => _synthesize_cymbal_strike player event r
      | _ =>
          z <- np_zeros (py_int ((1#10) * inject_Z rate)) ;;
          Ok (z, r)
      end ;;
    match sound with
    | [] => Ok (track, r1)
    | _ =>
        let start_sample := Z.max 0 (py_int (time event * inject_Z rate)) in
        if (num_samples <=? start_sample)%Z then Ok (track, r1)
        else Ok (add_at track (Z.to_nat start_sample) sound, r1)
    end.

(** [_render_player_track]. *)
Definition _render_player_track (player : Player) (events : list StrokeEvent)
    (dur : Q) (r : Rng) : result (list Q * Rng) :=
  let num_samples := py_int (dur * inject_Z rate) in
  track <- np_zeros num_samples ;;
  for_each (render_event player num_samples) events (track, r).

(** [_apply_spatial_position]. *)
Definition _apply_spatial_position (mono_signal : list Q) (position : Q * Q * Q)
  : list Q * list Q :=
  let '(x, y, z) := position in
  let pan_ := np_clip x (-(1)) 1 in
  let reference_distance := 1 in
  let distance0 := m_sqrt M (x * x + y * y + z * z) in
  let distance := if Qltb distance0 (1#10) then 1#10 else distance0 in
  let attenuation := np_clip (reference_distance / distance) (1#2) 2 in
  let angle := (pan_ + 1) * m_pi M / 4 in
  let left_gain := m_cos M angle * attenuation in
  let right_gain := m_sin M angle * attenuation in
  let left_channel := vec_scale mono_signal left_gain in
  let right_channel := vec_scale mono_signal right_gain in
  let delay_samples :=
    if Qltb (1#2) z then py_int ((z - (1#2)) / 343 * inject_Z rate) else 0%Z in
  if (0 <? delay_samples)%Z && (delay_samples <? 100)%Z
  then
    let d := Z.to_nat delay_samples in
    (firstn (List.length left_channel) (np_pad left_channel d 0),
     firstn (List.length right_channel) (np_pad right_channel d 0))
  else (left_channel, right_channel).

(** The mixing buses and the stems while the players are rendered. *)
Record MixState : Type := mkMix {
  mix_left : list Q;
  mix_right : list Q;
  mix_mono : list Q;
  stems : dict (list Q);
  rng : Rng
}.

(** [any(p.solo for p in all_players if p)]. *)
Definition solo_active_of (ens : Ensemble) (all_events : dict (list StrokeEvent)) : bool :=
  existsb (fun pid => match get_player ens pid with
                      | Some p => solo p
                      | None => false
                      end)
          (dict_keys all_events).

(** The body of the loop of [render_ensemble] over the players. *)
Definition render_player (ens : Ensemble) (solo_active : bool) (dur : Q)
    (enable_spatial return_stems : bool)
    (item : string * list StrokeEvent) (s : MixState) : result MixState :=
  let '(player_id, events) := item in
  match events with
  | [] => Ok s
  | _ =>
      match get_player ens player_id with
      | None => Raise AttributeError
      | Some player =>
          if mute player && negb (solo player) then Ok s
          else if solo_active && negb (solo player) then Ok s
          else
            '(player_track, r1) <- _render_player_track player events dur (rng s) ;;
            let stems1 :=
              if return_stems then dict_set (stems s) player_id player_track
              else stems s in
            let gained := vec_scale player_track (gain player) in
            if enable_spatial then
              let '(_, pos_y, pos_z) := spatial_position player in
              let effective_position := (pan player, pos_y, pos_z) in
              let '(l, rt) := _apply_spatial_position gained effective_position in
              Ok (mkMix (vec_add (mix_left s) l) (vec_add (mix_right s) rt)
                        (mix_mono s) stems1 r1)
            else
              Ok (mkMix (mix_left s) (mix_right s)
                        (vec_add (mix_mono s) gained) stems1 r1)
      end
  end.

(** The final safety normalisation: [x / peak_post * 0.98] when the peak
    exceeds 0.98. *)
Definition safety_normalize (peak_post : Q) (x : list Q) : list Q :=
  if Qltb (98#100) peak_post
  then map (fun v => v / peak_post * (98#100)) x
  else x.

(** The mastering of the stereo bus. *)
Definition master_stereo (l rt : list Q) : result (list Q * list Q) :=
  peak_pre <- np_max_abs (l ++ rt) ;;
  if Qltb 0 peak_pre then
    let drive := if Qltb peak_pre (1#2) then 15#10 else 1 in
    let l1 := map (fun v => m_tanh M (v * drive)) l in
    let r1 := map (fun v => m_tanh M (v * drive)) rt in
    peak_post <- np_max_abs (l1 ++ r1) ;;
    Ok (safety_normalize peak_post l1, safety_normalize peak_post r1)
  else Ok (l, rt).

(** The mastering of the mono bus. *)
Definition master_mono (m : list Q) : result (list Q) :=
  peak_pre <- np_max_abs m ;;
  if Qltb 0 peak_pre then
    let m1 := map (fun v => m_tanh M (v * (12#10))) m in
    peak_post <- np_max_abs m1 ;;
    Ok (safety_normalize peak_post m1)
  else Ok m.

(** [EnsembleMixer.render_ensemble]: the master buffer, the stems (empty
    unless requested) and the random source after the render. *)
Definition render_ensemble (ens : Ensemble) (orchestrated_pattern : OrchestrationPattern)
    (dur : Q) (enable_spatial return_stems : bool) (r : Rng)
  : result (Master * dict (list Q) * Rng) :=
  let num_samples := py_int (dur * inject_Z rate) in
  zeros <- np_zeros num_samples ;;
  let all_events := get_all_player_events orchestrated_pattern in
  let solo_active := solo_active_of ens all_events in
  s <- for_each (render_player ens solo_active dur enable_spatial return_stems)
                all_events (mkMix zeros zeros zeros [] r) ;;
  if enable_spatial then
    '(l, rt) <- master_stereo (mix_left s) (mix_right s) ;;
    Ok (Stereo l rt, stems s, rng s)
  else
    m <- master_mono (mix_mono s) ;;
    Ok (Mono m, stems s, rng s).

End Render.




(** The pattern that holds the events of one player alone. *)
Definition only_player (pattern : OrchestrationPattern) (pid : string) : OrchestrationPattern :=
  match dict_get (get_all_player_events pattern) pid with
  | Some events => mkPattern [(pid, events)] [] []
  | None => empty_pattern
  end.

End Mixer.
Export Mixer.

(* ------------------------------------------------------------------ *)
(** * Concrete inputs *)
(* ------------------------------------------------------------------ *)

Module Examples.

(** The standard six-player ensemble, built on the presets as imported. *)
Definition standard_melam : Ensemble :=
  match build_standard_melam (initial_membranes, rng_mid) with
  | Ok (e, _) => e
  | Raise _ => mkEnsemble []
  end.

(** A source whose draws differ from one to the next. *)
Definition rng_ramp : Rng :=
  mkRng (fun n => inject_Z (Z.of_nat (n mod 10)) / 10)
        (fun n => inject_Z (Z.of_nat n) / 100)
        (fun n => n) 0.

(** An unassigned stroke, as [create_stroke_events_from_pattern] makes them. *)
Definition stroke (t : Q) (stroke_name category : string) (i : Q) : StrokeEvent :=
  mkEvent t stroke_name category i (4#10) None None None.

Definition dheem : StrokeEvent := stroke (1#2) "Dheem" "DHEEM" (95#100).

Definition demo_events : list StrokeEvent :=
  [ stroke 0 "Ta" "THAAM" (7#10); dheem;
    stroke 1 "." "REST" 0; stroke (3#2) "Na" "NAM" (7#10) ].

(** A spectral database of two signatures, at the usual sample rate. *)
Definition demo_engine : SpectralEngine :=
  mkEngine 44100
    [ ("thaam_01", mkSignature "THAAM" [(220, 1, 1); (440, 1#2, 2)]);
      ("nam_01", mkSignature "NAM" [(1200, 1, 3)]) ]%string.

(** An engine whose database file was not found. *)
Definition empty_engine : SpectralEngine := mkEngine 44100 [].

(** Library routines for concrete runs over rational samples: filters that
    pass the signal through, and a strike profile without stick waveforms. *)
Definition plain_scipy : Scipy Q := mkScipy Q (fun _ _ x => x) (fun y _ => y).

Definition plain_profile (stick : StickProperties) (membrane : MembraneProperties)
    (v c : Q) (rate : Z) (r : Rng) : result (StrikeProfile * Rng) :=
  Ok (mkProfile 0 0 c [] [], r).

(** A cymbal player and a soloed wind player; only the cymbal has events. *)
Definition cymbal_and_soloed_wind : Ensemble :=
  mkEnsemble
    [ ("P4", fst (create_elathaalam_primary "P4" (initial_membranes, rng_low)));
      ("P6", set_solo (create_kombu "P6") true) ]%string.

Definition cymbal_hit : StrokeEvent :=
  mkEvent 0 "1" "NAM" (6#10) (1#11025) (Some "P4"%string) (Some (8#10)) (Some (1#2)).

Definition cymbal_only_pattern : OrchestrationPattern :=
  mkPattern [] [("P4"%string, [cymbal_hit])] [].

(** The same two players with the solo on the cymbal, and both playing. *)
Definition soloed_cymbal_and_wind : Ensemble :=
  mkEnsemble
    [ ("P4", set_solo (fst (create_elathaalam_primary "P4" (initial_membranes, rng_low))) true);
      ("P6", create_kombu "P6") ]%string.

Definition wind_note : StrokeEvent :=
  mkEvent 0 "1" "NAM" (6#10) (1#11025) (Some "P6"%string) (Some (5#10)) (Some (1#2)).

Definition cymbal_and_wind_pattern : OrchestrationPattern :=
  mkPattern [] [("P4"%string, [cymbal_hit])] [("P6"%string, [wind_note])].




End Examples.
Export Examples.

(* ------------------------------------------------------------------ *)
(** * Vocabulary of the statements *)
(* ------------------------------------------------------------------ *)

Module Statements.

(** A property of every value of a dictionary. *)
Definition all_values {V : Type} (P : V -> Prop) (d : dict V) : Prop :=
  Forall (fun kv => P (snd kv)) d.

(** The variation a call works with. *)
Definition variation_of (variation : option Q) : Q :=
  match variation with Some v => v | None => default_variation end.

(** The tension factor of the [i]-th draw: [np.random.uniform(0.95, 1.05)]. *)
Definition tension_factor (r : Rng) (i : nat) : Q :=
  (95#100) + ((105#100) - (95#100)) * unit_draws r i.

(** No event of the list is a rest. *)
Definition no_rest (l : list StrokeEvent) : Prop :=
  Forall (fun e => is_rest e = false) l.

(** No list of the pattern holds a rest. *)
Definition rest_free (pat : OrchestrationPattern) : Prop :=
  all_values no_rest (chenda_events pat) /\
  all_values no_rest (cymbal_events pat) /\
  all_values no_rest (wind_events pat).

(** The list of player [k] holds the event [x]. *)
Definition holds (d : dict (list StrokeEvent)) (k : string) (x : StrokeEvent) : Prop :=
  exists l, dict_get d k = Some l /\ In x l.

(** The events that are not rests, in order. *)
Definition non_rests (events : list StrokeEvent) : list StrokeEvent :=
  filter (fun e => negb (is_rest e)) events.

(** Every key of [ks] has a list in [d]. *)
Definition present (ks : list string) (d : dict (list StrokeEvent)) : Prop :=
  forall k, In k ks -> dict_get d k <> None.

(** The body of the loop of [_orchestrate_unison]. *)
Definition unison_body (ens : Ensemble) (n : nat) (i : nat) (event : StrokeEvent)
    (s : OState) : result OState :=
  if is_rest event then Ok s
  else
    s1 <- assign_to_all event (get_chenda_players ens) s ;;
    if _is_structural_beat i n
    then _add_cymbal_events (time event) (get_cymbal_players ens) s1
    else Ok s1.

(** The random source [r] with [c] draws made. *)
Definition at_draw (r : Rng) (c : nat) : Rng :=
  mkRng (unit_draws r) (gauss_draws r) (index_draws r) c.

(** The copy of event [e] made for player [p] when [c] draws have been made:
    the velocity is the player's range at the intensity of the event plus
    the skill variation of draw [c], clipped to [0, 1]; the time is moved by
    the player's timing offset, of draw [c + 1]; the contact point is uniform
    in [0.6, 0.9) above intensity 0.7 and in [0.3, 0.6) otherwise, of draw
    [c + 2]; stroke, category, intensity and duration are those of [e]. *)
Definition resolved_copy (p : Player) (e : StrokeEvent) (r : Rng) (c : nat)
  : StrokeEvent :=
  mkEvent
    (time e
     + (0 + (1 - base_precision (timing p)) * (1#100) * gauss_draws r (S c)
        + rush_tendency (timing p) * (5#1000)
        + groove_offset (timing p) / 1000))
    (stroke_type e) (sound_category e) (intensity e) (duration e)
    (Some (id p))
    (Some (np_clip
             (fst (dynamic_range p)
              + intensity e * (snd (dynamic_range p) - fst (dynamic_range p))
              + (0 + (1 - skill_level p) * (5#100) * gauss_draws r c))
             0 1))
    (Some (if Qltb (7#10) (intensity e)
           then (6#10) + ((9#10) - (6#10)) * unit_draws r (S (S c))
           else (3#10) + ((6#10) - (3#10)) * unit_draws r (S (S c)))).

(** The chenda players and the cymbal players of an ensemble, in the order
    of registration. *)
Definition chenda_section (ens : Ensemble) : list Player :=
  filter (fun p => match instrument_type p with CHENDA => true | _ => false end)
         (map snd (players ens)).
Definition cymbal_section (ens : Ensemble) : list Player :=
  filter (fun p => match instrument_type p with ELATHAALAM => true | _ => false end)
         (map snd (players ens)).

(** The draws a unison run makes over [events], the first at position [i],
    with [m] chenda players and [n] cymbal players: three for each copy of a
    non-REST event, and two for each cymbal hit on every fourth position. *)
Fixpoint unison_draws (m n i : nat) (events : list StrokeEvent) : nat :=
  match events with
  | [] => 0
  | e :: rest =>
      ((if String.eqb (sound_category e) "REST" then 0
        else 3 * m + (if i mod 4 =? 0 then 2 * n else 0))
       + unison_draws m n (S i) rest)%nat
  end.

(** The copies the [j]-th chenda player [p] is given over [events] in a
    unison run that starts at position [i] with [c] draws made: one of each
    non-REST event, in order, each resolved on draws of its own. *)
Fixpoint unison_share (m n j : nat) (p : Player) (r : Rng) (c i : nat)
    (events : list StrokeEvent) : list StrokeEvent :=
  match events with
  | [] => []
  | e :: rest =>
      if String.eqb (sound_category e) "REST"
      then unison_share m n j p r c (S i) rest
      else resolved_copy p e r (c + 3 * j)
           :: unison_share m n j p r
                (c + (3 * m + (if i mod 4 =? 0 then 2 * n else 0))) (S i) rest
  end%nat.

(** The running maximum of the peak computation. *)
Definition peak_from (m : Q) (l : list Q) : Q :=
  fold_left (fun m y => if Qltb m (Qabs y) then Qabs y else m) l m.

(** The variants of a category, as [get_sound] lists them. *)
Definition candidates_of (eng : SpectralEngine) (category : string) : list string :=
  dict_keys (filter (fun kv => String.eqb (cat (snd kv)) category) (db eng)).

(** The category has no variant in the database. *)
Definition unknown_category (eng : SpectralEngine) (category : string) : Prop :=
  forall k sg, In (k, sg) (db eng) -> cat sg <> category.

End Statements.
Export Statements.

(* ------------------------------------------------------------------ *)
(** * More of the sources: pattern conversion, material effects, trace *)
(* ------------------------------------------------------------------ *)

Module Patterns.

(** [traditional_patterns.STROKE_LIBRARY]. *)
Definition STROKE_LIBRARY : dict string :=
  [ ("Ta", "THAAM"); ("Ka", "CHAPU"); ("Na", "NAM"); ("Dha", "DHEEM");
    ("Dheem", "DHEEM"); ("Chapu", "CHAPU"); ("ka", "CHAPU"); ("ta", "THAAM");
    ("TaTa", "THAAM"); ("KaKa", "CHAPU"); ("TaKiTa", "THAAM");
    ("1", "NAM"); (".", "REST") ]%string.

(** The exception of a float division by zero. *)
Inductive ArithmeticError : Type := ZeroDivisionError.

(** The loop of [create_stroke_events_from_pattern], from position [i]. *)
Fixpoint stroke_events_from (beat_duration : Q) (intensity_curve : option (list Q))
    (i : nat) (pattern : list string) : list StrokeEvent :=
  match pattern with
  | [] => []
  | stroke_name :: rest =>
      let t := inject_Z (Z.of_nat i) * beat_duration in
      let sound_cat :=
        match dict_get STROKE_LIBRARY stroke_name with
        | Some c => c
        | None => "REST"%string
        end in
      let default_intensity :=
        if negb (String.eqb sound_cat "REST") then 7#10 else 0 in
      let intens :=
        match intensity_curve with
        | Some (c :: curve) =>
            match nth_error (c :: curve) i with
            | Some x => x
            | None => default_intensity
            end
        | _ => default_intensity
        end in
      mkEvent t stroke_name sound_cat intens (beat_duration * (8#10)) None None None
      :: stroke_events_from beat_duration intensity_curve (S i) rest
  end.

(** [create_stroke_events_from_pattern(pattern, bpm, intensity_curve)]. *)
Definition create_stroke_events_from_pattern (pattern : list string) (bpm : Q)
    (intensity_curve : option (list Q)) : ArithmeticError + list StrokeEvent :=
  if Qeq_bool bpm 0 then inl ZeroDivisionError
  else inr (stroke_events_from (60 / bpm) intensity_curve 0 pattern).

(** One entry of the orchestration trace [ChendAI6Player.generate_melam]
    returns: time, type, category, velocity, duration. *)
Record TraceEntry : Type := mkTrace {
  trace_time : Q;
  trace_type : string;
  trace_category : string;
  trace_velocity : Q;
  trace_duration : Q
}.

(** The trace entry of an event: [event.velocity if event.velocity else 0.7]. *)
Definition serialize_event (e : StrokeEvent) : TraceEntry :=
  mkTrace (time e) (stroke_type e) (sound_category e)
    (match velocity e with
     | Some v => if Qeq_bool v 0 then 7#10 else v
     | None => 7#10
     end)
    (duration e).

(** The [tracks] of the metadata: every list of the pattern, serialized. *)
Definition serialize_tracks (pat : OrchestrationPattern) : dict (list TraceEntry) :=
  map (fun kv => (fst kv, map serialize_event (snd kv))) (get_all_player_events pat).

End Patterns.
Export Patterns.

Module MaterialEffects.

(** [MaterialEffectsCalculator.calculate_decay_time]. *)
Definition calculate_decay_time (base_decay : Q) (membrane : MembraneProperties)
    (wood : WoodProperties) : Q :=
  let membrane_damping := 3#10 in
  let combined_damping := (damping_coefficient wood + membrane_damping) / 2 in
  base_decay * (1 - combined_damping * (1#2)).

(** [MaterialEffectsCalculator.calculate_brightness]. *)
Definition calculate_brightness (stick : StickProperties) (impact_velocity : Q)
    (contact : Q) : Q :=
  let hardness_brightness := impact_brightness stick in
  let velocity_brightness :=
    if Qltb (impact_velocity * (15#10)) 1 then impact_velocity * (15#10) else 1 in
  let position_brightness := contact * (3#10) + (7#10) in
  hardness_brightness * velocity_brightness * position_brightness.

(** [MaterialEffectsCalculator.calculate_impact_force]. *)
Definition calculate_impact_force (stick : StickProperties) (v : Q) : Q :=
  momentum_factor stick * v.

End MaterialEffects.
Export MaterialEffects.

Module Cymbal.

(** [ElathaalamInstrument.get_base_frequency]: [2000 / self.diameter]. *)
Definition get_base_frequency (c : ElathaalamInstrument) : ArithmeticError + Q :=
  if Qeq_bool (diameter c) 0 then inl ZeroDivisionError
  else inr (2000 / diameter c).

End Cymbal.
Export Cymbal.

Module MoreStatements.

(** The players are registered under their own ids, each id once. *)
Definition well_keyed (ens : Ensemble) : Prop :=
  NoDup (dict_keys (players ens)) /\
  forall k p, In (k, p) (players ens) -> id p = k.

(** The length of the list of player [k], 0 without a list. *)
Definition load_of (d : dict (list StrokeEvent)) (k : string) : nat :=
  match dict_get d k with
  | Some l => List.length l
  | None => 0%nat
  end.

(** The number of events over all the lists of a dictionary. *)
Definition total_events (d : dict (list StrokeEvent)) : nat :=
  list_sum (map (fun kv => List.length (snd kv)) d).

(** No list of the dictionary holds an event. *)
Definition all_empty (d : dict (list StrokeEvent)) : Prop :=
  all_values (fun l => l = []) d.

(** The loads of any two of the players differ by one at most. *)
Definition balanced (d : dict (list StrokeEvent)) (ps : list Player) : Prop :=
  forall p q, In p ps -> In q ps -> (load_of d (id p) <= load_of d (id q) + 1)%nat.

(** The list of player [p] holds assigned copies of the events [evs], in order. *)
Definition plays (d : dict (list StrokeEvent)) (p : Player) (evs : list StrokeEvent)
  : Prop :=
  exists l, dict_get d (id p) = Some l /\
            map score_of l = map score_of evs /\
            Forall (assigned_to (id p)) l.

(** What the chenda player of index [idx] has been given of [events] once
    the first [j] of them are played, when the players enter at [entries]. *)
Definition heard (entries : list nat) (events : list StrokeEvent) (idx j : nat)
  : list StrokeEvent :=
  match nth_error entries idx with
  | Some entry => non_rests (skipn entry (firstn j events))
  | None => []
  end.

(** The events of a list, each with the key of the player it is meant for;
    [owner] reads the key off the position, counted from [i], and the event. *)
Fixpoint labelled (owner : nat -> StrokeEvent -> string) (i : nat)
    (events : list StrokeEvent) : list (string * StrokeEvent) :=
  match events with
  | [] => []
  | e :: rest => (owner i e, e) :: labelled owner (S i) rest
  end.

(** The non-REST events meant for the key [k], in order. *)
Definition share (k : string) (assigned : list (string * StrokeEvent))
  : list StrokeEvent :=
  map snd (filter (fun oe => negb (is_rest (snd oe)) && String.eqb (fst oe) k) assigned).

(** The list under the key [k] holds assigned copies of the events [evs],
    one each, in order. *)
Definition holds_copies (d : dict (list StrokeEvent)) (k : string)
    (evs : list StrokeEvent) : Prop :=
  exists l, dict_get d k = Some l /\
            map score_of l = map score_of evs /\
            Forall (assigned_to k) l.

(** Every key of [ids] holds copies of its share of the labelled events. *)
Definition spread (ids : list string) (assigned : list (string * StrokeEvent))
    (d : dict (list StrokeEvent)) : Prop :=
  forall k, In k ids -> holds_copies d k (share k assigned).

(** Every non-REST event is labelled with a key that, when its turn comes,
    has received no more events than any key of [ids]. *)
Definition least_loaded_first (ids : list string)
    (assigned : list (string * StrokeEvent)) : Prop :=
  forall pre o e post,
    assigned = pre ++ (o, e) :: post -> is_rest e = false ->
    forall k, In k ids ->
      (List.length (share o pre) <= List.length (share k pre))%nat.

(** Call and response in phrases of four: the even phrases go to the lead,
    in the odd phrases the even positions go to the rhythm player and the
    odd ones to the accent player. *)
Definition antiphonal_owner (lead rhythm accent : string) (i : nat) : string :=
  if ((i / 4) mod 2 =? 0)%nat then lead
  else if (i mod 2 =? 0)%nat then rhythm else accent.

(** The state of a strategy that gives each event to one player: the lists
    of the players and of the cymbals are there, and the chenda lists hold
    as many events as non-rests were played. *)
Definition one_each (chenda_ids cymbal_ids : list string) (events : list StrokeEvent)
    (j : nat) (s : OState) : Prop :=
  present chenda_ids (chenda_events (fst s)) /\
  present cymbal_ids (cymbal_events (fst s)) /\
  total_events (chenda_events (fst s)) = List.length (non_rests (firstn j events)).

(** Every role the traditional and antiphonal strategies look up. *)
Definition leading_roles : list PlayerRole :=
  [CHENDA_LEAD; CHENDA_RHYTHM; CHENDA_ACCENT].

(** The state of the layered strategy after [j] events. *)
Definition layered_state (chendas : list Player) (cids : list string)
    (entries : list nat) (events : list StrokeEvent) (j : nat) (s : OState) : Prop :=
  cymbal_events (fst s) = init_lists cids [] /\
  forall idx p, nth_error chendas idx = Some p ->
                plays (chenda_events (fst s)) p (heard entries events idx j).

(** Every sample of the buffer is zero. *)
Definition silent (l : list Q) : Prop := Forall (fun x => x == 0) l.

(** The peak of the master buffer, over both channels when stereo. *)
Definition master_peak (m : Master) : Q :=
  match m with
  | Stereo l rt => max_abs (l ++ rt)
  | Mono x => max_abs x
  end.

(** Every channel of the master buffer has [n] samples. *)
Definition master_length (m : Master) (n : nat) : Prop :=
  match m with
  | Stereo l rt => List.length l = n /\ List.length rt = n
  | Mono x => List.length x = n
  end.

(** The number of non-REST events at a position that is a multiple of [m],
    the positions counted from [i]. *)
Fixpoint count_beats (m i : nat) (events : list StrokeEvent) : nat :=
  match events with
  | [] => 0
  | e :: rest =>
      ((if (i mod m =? 0)%nat && negb (is_rest e) then 1 else 0)
       + count_beats m (S i) rest)%nat
  end.

(** The spacing of the cymbal hits of a strategy, 0 for none. *)
Definition cymbal_period (strategy : OrchestrationStrategy) : nat :=
  match strategy with
  | TRADITIONAL | UNISON => 4
  | DYNAMIC => 8
  | ANTIPHONAL | LAYERED => 0
  end.

(** The sample an event starts at: [max(0, int(event.time * sample_rate))]. *)
Definition start_sample_of (rate : Z) (e : StrokeEvent) : nat :=
  Z.to_nat (Z.max 0 (py_int (time e * inject_Z rate))).

(** The stroke name sounds: the library maps it to a category other than REST. *)
Definition playable (stroke_name : string) : bool :=
  match dict_get STROKE_LIBRARY stroke_name with
  | Some c => negb (String.eqb c "REST")
  | None => false
  end.

(** What [build_standard_melam] registers: key, id, role, instrument type. *)
Definition roster (ens : Ensemble)
  : list (string * string * PlayerRole * InstrumentType) :=
  map (fun kv => (fst kv, id (snd kv), role (snd kv), instrument_type (snd kv)))
      (players ens).

(** An event as the mixer needs it under the key [pid]: it names that
    player, its velocity is set and lies in [0, 1], its contact point is set. *)
Definition ready_for (pid : string) (e : StrokeEvent) : Prop :=
  assigned_player e = Some pid /\
  (exists v, velocity e = Some v /\ 0 <= v /\ v <= 1) /\
  contact_point e <> None.

(** Every event of every list is ready under the key of its list. *)
Definition filed (d : dict (list StrokeEvent)) : Prop :=
  forall k l, In (k, l) d -> Forall (ready_for k) l.

(** A pattern ready to be rendered: chenda and cymbal events filed under
    their players, and no wind list at all. *)
Definition ready (pat : OrchestrationPattern) : Prop :=
  filed (chenda_events pat) /\ filed (cymbal_events pat) /\ wind_events pat = [].

(** The buses and the stems all have [n] samples, and there is no stem
    unless stems are requested. *)
Definition mix_sized (n : nat) (return_stems : bool) (s : MixState) : Prop :=
  List.length (mix_left s) = n /\
  List.length (mix_right s) = n /\
  List.length (mix_mono s) = n /\
  all_values (fun t => List.length t = n) (stems s) /\
  (return_stems = false -> stems s = []).


(** The player is a wind player. *)
Definition is_wind (p : Player) : Prop :=
  instrument_type p = WIND_KOMBU \/ instrument_type p = WIND_KUZHAL.

(** The player has events and is skipped by the mute switch. *)
Definition muted_out (ens : Ensemble) (item : string * list StrokeEvent) : Prop :=
  snd item = [] \/
  exists p, get_player ens (fst item) = Some p /\ mute p = true /\ solo p = false.

End MoreStatements.
Export MoreStatements.

(* ================================================================== *)
(** * Part II: properties *)
(* ================================================================== *)

(* ------------------------------------------------------------------ *)
(** ** Facts about the runtime *)
(* ------------------------------------------------------------------ *)

Module PyFacts.

Lemma Qltb_lt (a b : Q) : Qltb a b = true <-> a < b.
Proof.
  unfold Qltb. rewrite negb_true_iff. split; intro Hab.
  - apply Qnot_le_lt. intro Hle. apply Qle_bool_iff in Hle. congruence.
  - destruct (Qle_bool b a) eqn:E; [|reflexivity].
    apply Qle_bool_iff in E. exfalso. apply (Qlt_not_le _ _ Hab E).
Qed.

Lemma Qltb_ge (a b : Q) : Qltb a b = false <-> b <= a.
Proof.
  unfold Qltb. rewrite negb_false_iff. apply Qle_bool_iff.
Qed.

Lemma uniform_factor_bounds (spread u : Q) :
  0 <= spread -> 0 <= u -> u < 1 ->
  1 - spread <= factor_at spread u /\ factor_at spread u <= 1 + spread.
Proof.
  intros Hs Hu0 Hu1. unfold factor_at.
  assert (Hp : 0 <= spread * u) by (apply Qmult_le_0_compat; assumption).
  assert (Hq : 0 <= spread * (1 - u)).
  { apply Qmult_le_0_compat; [assumption | lra]. }
  split; lra.
Qed.

Lemma uniform_draw_bounds (low high u : Q) :
  low <= high -> 0 <= u -> u < 1 ->
  low <= low + (high - low) * u /\ low + (high - low) * u <= high.
Proof.
  intros Hlh Hu0 Hu1.
  assert (Hp : 0 <= (high - low) * u) by (apply Qmult_le_0_compat; lra).
  assert (Hq : 0 <= (high - low) * (1 - u)) by (apply Qmult_le_0_compat; lra).
  split; lra.
Qed.

Lemma unit_range_advance (r : Rng) : unit_range r -> unit_range (advance r).
Proof. intros Hr n. exact (Hr n). Qed.

End PyFacts.
Import PyFacts.

(* ------------------------------------------------------------------ *)
(** ** material_properties.py: the wood variant generator *)
(* ------------------------------------------------------------------ *)

Module MaterialFacts.

(** C7 (as amended). [get_random_wood_variant] returns a new wood whose five
    numeric fields are the base preset's multiplied by five factors, each
    computed from a draw of its own: density, damping and hardness within
    [1 - variation, 1 + variation], the elasticity modulus within half that
    range, and the speed of sound within a quarter of it.  An omitted
    variation is 10%. *)
Theorem get_random_wood_variant_perturbs
    (base_wood : string) (variation : option Q) (r : Rng) (base : WoodProperties) :
  dict_get WOOD_DATABASE base_wood = Some base ->
  unit_range r ->
  0 <= variation_of variation ->
  let v := variation_of variation in
  let u := fun i => unit_draws r (cursor r + i) in
  variation_of None == 1#10 /\
  exists w r',
    get_random_wood_variant base_wood variation r = Ok (w, r') /\
    cursor r' = (cursor r + 5)%nat /\
    density w = density base * factor_at v (u 0%nat) /\
    youngs_modulus w = youngs_modulus base * factor_at (v / 2) (u 1%nat) /\
    damping_coefficient w = damping_coefficient base * factor_at v (u 2%nat) /\
    speed_of_sound w = speed_of_sound base * factor_at (v / 4) (u 3%nat) /\
    hardness w = hardness base * factor_at v (u 4%nat) /\
    (1 - v <= factor_at v (u 0%nat) <= 1 + v) /\
    (1 - v / 2 <= factor_at (v / 2) (u 1%nat) <= 1 + v / 2) /\
    (1 - v <= factor_at v (u 2%nat) <= 1 + v) /\
    (1 - v / 4 <= factor_at (v / 4) (u 3%nat) <= 1 + v / 4) /\
    (1 - v <= factor_at v (u 4%nat) <= 1 + v).
Proof.
  intros Hbase Hr Hv v u. split; [reflexivity|].
  unfold get_random_wood_variant, dict_item. rewrite Hbase. cbn [bind].
  fold (variation_of variation). fold v.
  unfold np_uniform. cbn [advance cursor unit_draws].
  eexists. eexists. split; [reflexivity|].
  cbn [density youngs_modulus damping_coefficient speed_of_sound hardness cursor advance].
  unfold u, factor_at.
  replace (cursor r + 0)%nat with (cursor r) by lia.
  replace (cursor r + 1)%nat with (S (cursor r)) by lia.
  replace (cursor r + 2)%nat with (S (S (cursor r))) by lia.
  replace (cursor r + 3)%nat with (S (S (S (cursor r)))) by lia.
  replace (cursor r + 4)%nat with (S (S (S (S (cursor r))))) by lia.
  repeat (split; [first [reflexivity | lia] |]).
  assert (Hv' : 0 <= v) by exact Hv.
  assert (Hq : 0 <= v / 4) by (apply Qle_shift_div_l; lra).
  assert (Hh : 0 <= v / 2) by (apply Qle_shift_div_l; lra).
  pose proof (fun s Hs i => uniform_factor_bounds s (unit_draws r i) Hs
                              (proj1 (Hr i)) (proj2 (Hr i))) as B.
  unfold factor_at in B.
  repeat split; apply B; assumption.
Qed.

Lemma get_random_wood_variant_perturbs_witness :
  exists w r',
    get_random_wood_variant "jackwood" None rng_mid = Ok (w, r') /\
    speed_of_sound w = speed_of_sound (mkWood "Jackwood (Varikka)" 720 (98#10) (15#100) 3800 65)
                       * factor_at (variation_of None / 4) (unit_draws rng_mid 3%nat).
Proof.
  destruct (get_random_wood_variant_perturbs "jackwood" None rng_mid
              (mkWood "Jackwood (Varikka)" 720 (98#10) (15#100) 3800 65))
    as [_ (w & r' & Hrun & _ & _ & _ & _ & Hspeed & _)].
  - reflexivity.
  - intro n. cbn. split; lra.
  - cbn. unfold default_variation. lra.
  - exists w, r'. split; [exact Hrun | exact Hspeed].
Defined.

(** C7 (as stated) fails on the speed of sound: with every draw at the low
    end and the default variation, the code scales jackwood's 3800 m/s by
    0.975, where the claim's range [0.9, 1.1] would give 0.9. *)
Lemma wood_variant_speed_of_sound_counterexample :
  (exists w r', get_random_wood_variant "jackwood" None rng_low = Ok (w, r')
                /\ speed_of_sound w == 3705) /\
  (exists w r', wood_variant_as_specified "jackwood" None rng_low = Ok (w, r')
                /\ speed_of_sound w == 3420).
Proof.
  split; eexists; eexists; (split; [reflexivity | reflexivity]).
Qed.

End MaterialFacts.

(* ------------------------------------------------------------------ *)
(** ** player_system.py: the instrument factory and the shared presets *)
(* ------------------------------------------------------------------ *)

Module PlayerFacts.

Lemma heap_update_length (h : MembraneHeap) (p : mref) f :
  List.length (heap_update h p f) = List.length h.
Proof.
  revert p. induction h as [|m h IH]; intros [|p]; cbn; try reflexivity.
  now rewrite IH.
Qed.

Lemma deref_heap_update_same (h : MembraneHeap) (p : mref) f :
  (p < List.length h)%nat -> deref (heap_update h p f) p = f (deref h p).
Proof.
  unfold deref. revert p. induction h as [|m h IH]; intros [|p] Hp; cbn in *;
    try lia; try reflexivity.
  apply IH. lia.
Qed.

Lemma deref_heap_update_other (h : MembraneHeap) (p q : mref) f :
  p <> q -> deref (heap_update h p f) q = deref h q.
Proof.
  unfold deref. revert p q. induction h as [|m h IH]; intros [|p] [|q] Hpq; cbn;
    try reflexivity; try congruence.
  apply IH. congruence.
Qed.

Lemma tension_factor_bounds (r : Rng) (i : nat) :
  unit_range r -> 95#100 <= tension_factor r i /\ tension_factor r i <= 105#100.
Proof.
  intro Hr. unfold tension_factor.
  apply uniform_draw_bounds; [lra | apply Hr | apply Hr].
Qed.

(** What a successful call of the factory did: the two presets it looked up
    are the instrument's membranes, and the heap was written through both. *)
Lemma create_chenda_inv cid bw vt et vs es var h r ins h' r' :
  create_chenda cid bw vt et vs es var (h, r) = Ok (ins, (h', r')) ->
  dict_get MEMBRANE_DATABASE ("cow_" ++ vt) = Some (membrane_valam ins) /\
  dict_get MEMBRANE_DATABASE ("cow_" ++ et) = Some (membrane_edamthala ins) /\
  h' = heap_update
         (heap_update h (membrane_valam ins)
            (scale_tension (tension_factor r (cursor r + 5))))
         (membrane_edamthala ins)
         (scale_tension (tension_factor r (cursor r + 6))) /\
  cursor r' = (cursor r + 10)%nat.
Proof.
  unfold create_chenda, get_random_wood_variant, dict_item.
  destruct (dict_get WOOD_DATABASE bw) as [base|]; cbn [bind]; [|discriminate].
  unfold np_uniform. cbn [bind advance cursor unit_draws].
  destruct (dict_get MEMBRANE_DATABASE ("cow_" ++ vt)) as [pv|]; cbn [bind]; [|discriminate].
  destruct (dict_get MEMBRANE_DATABASE ("cow_" ++ et)) as [pe|]; cbn [bind]; [|discriminate].
  destruct (dict_get STICK_DATABASE vs) as [sv|]; cbn [bind]; [|discriminate].
  destruct (dict_get STICK_DATABASE es) as [se|]; cbn [bind]; [|discriminate].
  intro Heq. injection Heq as Hins Hh Hr'. subst ins h' r'.
  cbn [membrane_valam membrane_edamthala cursor].
  unfold tension_factor.
  replace (cursor r + 5)%nat with (S (S (S (S (S (cursor r)))))) by lia.
  replace (cursor r + 6)%nat with (S (S (S (S (S (S (cursor r))))))) by lia.
  repeat split; first [reflexivity | cbn [cursor advance]; lia].
Qed.

Lemma membrane_refs_in_heap (k : string) (p : mref) (h : MembraneHeap) :
  dict_get MEMBRANE_DATABASE k = Some p ->
  List.length h = List.length initial_membranes ->
  (p < List.length h)%nat.
Proof.
  intros Hk Hlen. rewrite Hlen. cbn in *.
  repeat match type of Hk with
         | (if ?c then _ else _) = _ => destruct c
         end; inversion Hk; lia.
Qed.

(** C10. A successful [create_chenda] writes through the two presets it
    looked up in [MEMBRANE_DATABASE]: the tension of each is multiplied by a
    uniform factor of its own in [0.95, 1.05] (by both factors when the two
    keys name the same preset), nothing else in the heap moves, the heap is
    no longer the one before the call unless a factor is exactly 1, and the
    instrument's membranes are the database's own objects (the addresses the
    database holds), not copies. *)
Theorem create_chenda_mutates_shared_presets
    cid bw vt et vs es var (h : MembraneHeap) (r : Rng) ins h' r' :
  List.length h = List.length initial_membranes ->
  unit_range r ->
  create_chenda cid bw vt et vs es var (h, r) = Ok (ins, (h', r')) ->
  let pv := membrane_valam ins in
  let pe := membrane_edamthala ins in
  let fv := tension_factor r (cursor r + 5) in
  let fe := tension_factor r (cursor r + 6) in
  dict_get MEMBRANE_DATABASE ("cow_" ++ vt) = Some pv /\
  dict_get MEMBRANE_DATABASE ("cow_" ++ et) = Some pe /\
  (95#100 <= fv /\ fv <= 105#100) /\
  (95#100 <= fe /\ fe <= 105#100) /\
  (pv <> pe ->
     tension (deref h' pv) = tension (deref h pv) * fv /\
     tension (deref h' pe) = tension (deref h pe) * fe) /\
  (pv = pe -> tension (deref h' pv) = tension (deref h pv) * fv * fe) /\
  (forall p, p <> pv -> p <> pe -> deref h' p = deref h p) /\
  (pv <> pe -> ~ fv == 1 -> ~ tension (deref h pv) == 0 -> h' <> h).
Proof.
  intros Hlen Hr Hrun pv pe fv fe.
  destruct (create_chenda_inv _ _ _ _ _ _ _ _ _ _ _ _ Hrun) as (Hv & He & Hh & _).
  fold pv in Hv, Hh. fold pe in He, Hh. fold fv in Hh. fold fe in Hh.
  pose proof (membrane_refs_in_heap _ _ h Hv Hlen) as Hpv.
  pose proof (membrane_refs_in_heap _ _ h He Hlen) as Hpe.
  assert (Hne : pv <> pe ->
                tension (deref h' pv) = tension (deref h pv) * fv /\
                tension (deref h' pe) = tension (deref h pe) * fe).
  { intro Hd. subst h'. split.
    - rewrite deref_heap_update_other by congruence.
      rewrite deref_heap_update_same by assumption. reflexivity.
    - rewrite deref_heap_update_same by (rewrite heap_update_length; assumption).
      rewrite deref_heap_update_other by assumption. reflexivity. }
  repeat split; try assumption;
    try (apply tension_factor_bounds; assumption).
  - apply Hne; assumption.
  - apply Hne; assumption.
  - intro Hsame. subst h'. rewrite <- Hsame.
    rewrite deref_heap_update_same by (rewrite heap_update_length; assumption).
    rewrite deref_heap_update_same by assumption. reflexivity.
  - intros p Hp1 Hp2. subst h'.
    rewrite deref_heap_update_other by congruence.
    rewrite deref_heap_update_other by congruence. reflexivity.
  - intros Hd Hf Ht Hsame.
    destruct (Hne Hd) as [Htv _]. rewrite Hsame in Htv.
    apply Hf.
    assert (Hq : tension (deref h pv) == tension (deref h pv) * fv)
      by (rewrite <- Htv; reflexivity).
    apply (Qmult_inj_l _ _ (tension (deref h pv))); [exact Ht|].
    rewrite <- Hq. ring.
Qed.

Lemma create_chenda_mutates_shared_presets_witness :
  exists ins h' r',
    create_chenda "P1_chenda" "jackwood" "high" "medium"
      "bamboo_medium" "bamboo_heavy" (8#100) (initial_membranes, rng_low)
    = Ok (ins, (h', r')) /\
    membrane_valam ins = 0%nat /\ membrane_edamthala ins = 1%nat /\
    tension (deref h' 0%nat)
    = tension (deref initial_membranes 0%nat) * tension_factor rng_low 5 /\
    h' <> initial_membranes.
Proof.
  eexists. eexists. eexists. split; [reflexivity|].
  split; [reflexivity|]. split; [reflexivity|].
  match goal with
  | |- _ /\ ?h' <> _ =>
      pose proof (create_chenda_mutates_shared_presets
                    "P1_chenda" "jackwood" "high" "medium"
                    "bamboo_medium" "bamboo_heavy" (8#100)
                    initial_membranes rng_low _ h' _
                    eq_refl
                    (fun n => conj (Qle_refl 0) (eq_refl : (0 < 1)))
                    eq_refl) as T
  end.
  cbv zeta in T.
  destruct T as (_ & _ & _ & _ & Hne & _ & _ & Hchg).
  split.
  - apply Hne. cbn. discriminate.
  - apply Hchg.
    + cbn. discriminate.
    + cbn. intro Hq. discriminate Hq.
    + cbn. intro Hq. discriminate Hq.
Defined.

(** Two chendas built from the same tension key share one membrane object:
    the second build is seen through the first instrument. *)
Lemma shared_membrane_is_aliased :
  exists a b h1 r1 h2 r2,
    create_chenda "P1_chenda" "jackwood" "high" "medium"
      "bamboo_medium" "bamboo_heavy" (8#100) (initial_membranes, rng_low)
    = Ok (a, (h1, r1)) /\
    create_chenda "P3_chenda" "rosewood" "high" "medium"
      "teak_medium" "bamboo_heavy" (8#100) (h1, r1)
    = Ok (b, (h2, r2)) /\
    membrane_valam a = membrane_valam b /\
    tension (deref h1 (membrane_valam a)) == (85#100) * (95#100) /\
    tension (deref h2 (membrane_valam a)) == (85#100) * (95#100) * (95#100).
Proof.
  do 6 eexists.
  split; [reflexivity|]. split; [reflexivity|].
  split; [reflexivity|]. split; reflexivity.
Qed.

End PlayerFacts.

(* ------------------------------------------------------------------ *)
(** ** Dictionaries and loops *)
(* ------------------------------------------------------------------ *)

Module DictFacts.

Section Dict.
Context {V : Type}.
Implicit Types (d : dict V) (k : string) (v : V).

Lemma dict_get_set_same d k v : dict_get (dict_set d k v) k = Some v.
Proof.
  induction d as [|[k' v'] d IH]; cbn.
  - now rewrite String.eqb_refl.
  - destruct (String.eqb k k') eqn:E; cbn; rewrite E; [reflexivity | exact IH].
Qed.

Lemma dict_get_set_other d k k' v :
  k <> k' -> dict_get (dict_set d k v) k' = dict_get d k'.
Proof.
  intro Hne. induction d as [|[k0 v0] d IH]; cbn.
  - destruct (String.eqb k' k) eqn:E; [|reflexivity].
    apply String.eqb_eq in E. congruence.
  - destruct (String.eqb k k0) eqn:E; cbn.
    + apply String.eqb_eq in E. subst k0.
      destruct (String.eqb k' k) eqn:E'; [|reflexivity].
      apply String.eqb_eq in E'. congruence.
    + destruct (String.eqb k' k0); [reflexivity | exact IH].
Qed.

Lemma dict_get_in d k v : dict_get d k = Some v -> In (k, v) d.
Proof.
  induction d as [|[k' v'] d IH]; cbn; [discriminate|].
  destruct (String.eqb k k') eqn:E.
  - apply String.eqb_eq in E. intro Hs. injection Hs as ->. subst. now left.
  - intro Hs. right. now apply IH.
Qed.

Lemma dict_get_none_keys d k : dict_get d k = None <-> ~ In k (dict_keys d).
Proof.
  induction d as [|[k' v'] d IH]; cbn.
  - split; [intros _ [] | reflexivity].
  - destruct (String.eqb k k') eqn:E.
    + apply String.eqb_eq in E. subst. split; [discriminate | intro Hn; exfalso; apply Hn; now left].
    + apply String.eqb_neq in E. rewrite IH. split.
      * intros Hn [Hk | Hk]; [congruence | now apply Hn].
      * intros Hn Hk. apply Hn. now right.
Qed.

Lemma dict_in_get d k v :
  NoDup (dict_keys d) -> In (k, v) d -> dict_get d k = Some v.
Proof.
  induction d as [|[k' v'] d IH]; cbn; [intros _ []|].
  intros Hnd [Heq | Hin].
  - injection Heq as -> ->. now rewrite String.eqb_refl.
  - inversion Hnd as [|? ? Hnotin Hnd']; subst.
    destruct (String.eqb k k') eqn:E.
    + apply String.eqb_eq in E. subst. exfalso. apply Hnotin.
      change (In (fst (k', v)) (map fst d)). now apply in_map.
    + now apply IH.
Qed.

Lemma dict_keys_set d k v :
  dict_keys (dict_set d k v) =
  if existsb (String.eqb k) (dict_keys d) then dict_keys d else dict_keys d ++ [k].
Proof.
  unfold dict_keys.
  induction d as [|[k' v'] d IH]; cbn; [reflexivity|].
  destruct (String.eqb k k') eqn:E; cbn; [reflexivity|].
  rewrite IH. now destruct (existsb (String.eqb k) (map fst d)).
Qed.

Lemma dict_keys_set_nodup d k v :
  NoDup (dict_keys d) -> NoDup (dict_keys (dict_set d k v)).
Proof.
  intro Hnd. rewrite dict_keys_set.
  destruct (existsb (String.eqb k) (dict_keys d)) eqn:E; [exact Hnd|].
  apply NoDup_app; [exact Hnd | constructor; [intros [] | constructor] |].
  intros x Hx. intros [Hk | []]. subst x.
  assert (existsb (String.eqb k) (dict_keys d) = true); [|congruence].
  apply existsb_exists. exists k. split; [exact Hx | apply String.eqb_refl].
Qed.

Lemma dict_update_nodup d e :
  NoDup (dict_keys d) -> NoDup (dict_keys (dict_update d e)).
Proof.
  unfold dict_update. revert d.
  induction e as [|[k v] e IH]; intros d Hnd; cbn; [exact Hnd|].
  apply IH. now apply dict_keys_set_nodup.
Qed.

Lemma all_values_set (P : V -> Prop) d k v :
  all_values P d -> P v -> all_values P (dict_set d k v).
Proof.
  intros Hd Hv. induction Hd as [|[k' v'] d Hkv Hd IH]; cbn.
  - constructor; [exact Hv | constructor].
  - destruct (String.eqb k k'); constructor; try assumption.
Qed.

Lemma all_values_get (P : V -> Prop) d k v :
  all_values P d -> dict_get d k = Some v -> P v.
Proof.
  intros Hd Hg. apply dict_get_in in Hg.
  unfold all_values in Hd. rewrite Forall_forall in Hd. exact (Hd _ Hg).
Qed.

Lemma all_values_update (P : V -> Prop) d e :
  all_values P d -> all_values P e -> all_values P (dict_update d e).
Proof.
  unfold dict_update. revert d.
  induction e as [|[k v] e IH]; intros d Hd He; cbn; [exact Hd|].
  inversion He; subst. apply IH; [|assumption].
  now apply all_values_set.
Qed.

End Dict.

Section Loops.
Context {A St : Type}.

(** An invariant of the loop body is an invariant of the loop. *)
Lemma for_each_invariant (P : St -> Prop) (body : A -> St -> result St) l :
  (forall x s s', In x l -> P s -> body x s = Ok s' -> P s') ->
  forall s s', P s -> for_each body l s = Ok s' -> P s'.
Proof.
  induction l as [|x l IH]; intros Hbody s s' Hs Hrun; cbn in Hrun.
  - now injection Hrun as <-.
  - destruct (body x s) as [s1|] eqn:E; cbn in Hrun; [|discriminate].
    apply (IH (fun y a b Hy => Hbody y a b (or_intror Hy)) s1 s'); [|exact Hrun].
    apply (Hbody x s s1); [now left | exact Hs | exact E].
Qed.

Lemma for_enumerate_invariant (P : St -> Prop) (body : nat -> A -> St -> result St) l :
  (forall i x s s', In x l -> P s -> body i x s = Ok s' -> P s') ->
  forall i s s', P s -> for_enumerate body i l s = Ok s' -> P s'.
Proof.
  induction l as [|x l IH]; intros Hbody i s s' Hs Hrun; cbn in Hrun.
  - now injection Hrun as <-.
  - destruct (body i x s) as [s1|] eqn:E; cbn in Hrun; [|discriminate].
    apply (IH (fun j y a b Hy => Hbody j y a b (or_intror Hy)) (S i) s1 s'); [|exact Hrun].
    apply (Hbody i x s s1); [now left | exact Hs | exact E].
Qed.

Lemma for_enumerate_app (body : nat -> A -> St -> result St) l1 l2 i s :
  for_enumerate body i (l1 ++ l2) s =
  (s1 <- for_enumerate body i l1 s ;; for_enumerate body (i + List.length l1) l2 s1).
Proof.
  revert i s. induction l1 as [|x l1 IH]; intros i s; cbn.
  - now rewrite Nat.add_0_r.
  - destruct (body i x s) as [s1|]; cbn; [|reflexivity].
    rewrite IH. now replace (S i + List.length l1)%nat with (i + S (List.length l1))%nat by lia.
Qed.

End Loops.

End DictFacts.
Import DictFacts.

(* ------------------------------------------------------------------ *)
(** ** orchestration_engine.py: the five strategies *)
(* ------------------------------------------------------------------ *)

Module OrchestrationFacts.

(** The assigned copy keeps the score of the event and sets the rest. *)
Lemma assign_event_shape (e : StrokeEvent) (p : Player) (r : Rng) :
  exists t v c r',
    _assign_event_to_player e p r =
    (mkEvent t (stroke_type e) (sound_category e) (intensity e) (duration e)
             (Some (id p)) (Some v) (Some c), r').
Proof.
  unfold _assign_event_to_player, get_velocity_for_intensity, get_timing_offset,
    np_normal, np_uniform.
  destruct (dynamic_range p) as [lo hi].
  destruct (Qltb (7#10) (intensity e)); do 4 eexists; reflexivity.
Qed.

Lemma assign_event_is_rest e p r :
  is_rest (fst (_assign_event_to_player e p r)) = is_rest e.
Proof.
  destruct (assign_event_shape e p r) as (t & v & c & r' & ->). reflexivity.
Qed.

Lemma assign_event_score e p r :
  score_of (fst (_assign_event_to_player e p r)) = score_of e.
Proof.
  destruct (assign_event_shape e p r) as (t & v & c & r' & ->). reflexivity.
Qed.

Lemma assign_event_assigned e p r :
  assigned_to (id p) (fst (_assign_event_to_player e p r)).
Proof.
  destruct (assign_event_shape e p r) as (t & v & c & r' & ->).
  repeat split; cbn; discriminate.
Qed.

Lemma dict_append_no_rest d k x d' :
  all_values no_rest d -> is_rest x = false ->
  dict_append d k x = Ok d' -> all_values no_rest d'.
Proof.
  unfold dict_append. intros Hd Hx.
  destruct (dict_get d k) as [l|] eqn:E; [|discriminate].
  intro Heq. injection Heq as <-.
  apply all_values_set; [exact Hd|].
  apply Forall_app. split; [exact (all_values_get _ _ _ _ Hd E) | now repeat constructor].
Qed.

Lemma init_lists_no_rest ids d :
  all_values no_rest d -> all_values no_rest (init_lists ids d).
Proof.
  unfold init_lists. revert d.
  induction ids as [|k ids IH]; intros d Hd; cbn; [exact Hd|].
  apply IH. apply all_values_set; [exact Hd | constructor].
Qed.

Lemma add_cymbal_events_rest_free t cymbals s s' :
  rest_free (fst s) -> _add_cymbal_events t cymbals s = Ok s' -> rest_free (fst s').
Proof.
  unfold _add_cymbal_events.
  apply (for_each_invariant (fun s => rest_free (fst s))).
  intros c [pat r] s1 _ (Hch & Hcy & Hw).
  unfold get_timing_offset, get_velocity_for_intensity, np_normal.
  destruct (dynamic_range c) as [lo hi]. cbn [fst].
  match goal with
  | |- context [dict_append ?d ?k ?x] => destruct (dict_append d k x) as [d1|] eqn:E
  end; cbn [bind]; [|discriminate].
  intro Heq. injection Heq as <-. cbn [fst].
  repeat split; cbn; try assumption.
  eapply dict_append_no_rest; [exact Hcy | | exact E]. reflexivity.
Qed.

(** The step all strategies share: append the assigned copy of a non-rest. *)
Lemma append_assigned_rest_free pat e p r d :
  rest_free pat -> is_rest e = false ->
  dict_append (chenda_events pat) (id p) (fst (_assign_event_to_player e p r)) = Ok d ->
  rest_free (set_chenda pat d).
Proof.
  intros (Hch & Hcy & Hw) He Happ. repeat split; cbn; try assumption.
  eapply dict_append_no_rest; [exact Hch | | exact Happ].
  now rewrite assign_event_is_rest.
Qed.

Lemma assign_to_all_rest_free e ps s s' :
  is_rest e = false ->
  rest_free (fst s) -> assign_to_all e ps s = Ok s' -> rest_free (fst s').
Proof.
  intro He. unfold assign_to_all.
  apply (for_each_invariant (fun s => rest_free (fst s))).
  intros p [pat r] s1 _ Hinv. cbn [fst] in Hinv.
  destruct (_assign_event_to_player e p r) as [a r1] eqn:Ea.
  destruct (dict_append (chenda_events pat) (id p) a) as [d|] eqn:E; cbn [bind]; [|discriminate].
  intro Heq. injection Heq as <-. cbn [fst].
  apply (append_assigned_rest_free pat e p r); try assumption.
  now rewrite Ea.
Qed.

Lemma initial_pattern_rest_free ids1 ids2 :
  rest_free (mkPattern (init_lists ids1 []) (init_lists ids2 []) []).
Proof.
  repeat split; cbn; try apply init_lists_no_rest; constructor.
Qed.

Lemma traditional_rest_free ens events r s :
  _orchestrate_traditional ens events r = Ok s -> rest_free (fst s).
Proof.
  unfold _orchestrate_traditional.
  destruct (first_by_role ens CHENDA_LEAD) as [lead|]; cbn [bind]; [|discriminate].
  destruct (first_by_role ens CHENDA_RHYTHM) as [rhythm|]; cbn [bind]; [|discriminate].
  destruct (first_by_role ens CHENDA_ACCENT) as [accent|]; cbn [bind]; [|discriminate].
  apply (for_enumerate_invariant (fun s => rest_free (fst s)));
    [|apply initial_pattern_rest_free].
  intros i e [pat r0] s1 _ Hinv. cbn [fst] in Hinv.
  destruct (is_rest e) eqn:He; [intro Heq; injection Heq as <-; exact Hinv|].
  match goal with
  | |- context [_assign_event_to_player e ?p r0] =>
      destruct (_assign_event_to_player e p r0) as [a r1] eqn:Ea;
      destruct (dict_append (chenda_events pat) (id p) a) as [d|] eqn:E;
      cbn [bind]; [|discriminate];
      assert (Hd : rest_free (set_chenda pat d))
        by (apply (append_assigned_rest_free pat e p r0); try assumption; now rewrite Ea)
  end.
  destruct (_is_structural_beat i (List.length events)).
  - intro Hc. refine (add_cymbal_events_rest_free _ _ _ _ _ Hc). exact Hd.
  - intro Heq. injection Heq as <-. exact Hd.
Qed.

Lemma dynamic_rest_free ens events r s :
  _orchestrate_dynamic ens events r = Ok s -> rest_free (fst s).
Proof.
  unfold _orchestrate_dynamic.
  apply (for_enumerate_invariant (fun s => rest_free (fst s)));
    [|apply initial_pattern_rest_free].
  intros i e [pat r0] s1 _ Hinv. cbn [fst] in Hinv.
  destruct (is_rest e) eqn:He; [intro Heq; injection Heq as <-; exact Hinv|].
  destruct (_select_player_by_load ens (get_chenda_players ens) pat) as [[p|]|];
    cbn [bind]; try discriminate.
  destruct (_assign_event_to_player e p r0) as [a r1] eqn:Ea.
  destruct (dict_append (chenda_events pat) (id p) a) as [d|] eqn:E;
    cbn [bind]; [|discriminate].
  assert (Hd : rest_free (set_chenda pat d))
    by (apply (append_assigned_rest_free pat e p r0); try assumption; now rewrite Ea).
  destruct (i mod 8 =? 0)%nat.
  - intro Hc. refine (add_cymbal_events_rest_free _ _ _ _ _ Hc). exact Hd.
  - intro Heq. injection Heq as <-. exact Hd.
Qed.

Lemma antiphonal_rest_free ens events r s :
  _orchestrate_antiphonal ens events r = Ok s -> rest_free (fst s).
Proof.
  unfold _orchestrate_antiphonal.
  destruct (first_by_role ens CHENDA_LEAD) as [lead|]; cbn [bind]; [|discriminate].
  destruct (first_by_role ens CHENDA_RHYTHM) as [rhythm|]; cbn [bind]; [|discriminate].
  destruct (first_by_role ens CHENDA_ACCENT) as [accent|]; cbn [bind]; [|discriminate].
  apply (for_enumerate_invariant (fun s => rest_free (fst s)));
    [|apply initial_pattern_rest_free].
  intros i e [pat r0] s1 _ Hinv. cbn [fst] in Hinv.
  destruct (is_rest e) eqn:He; [intro Heq; injection Heq as <-; exact Hinv|].
  match goal with
  | |- context [_assign_event_to_player e ?p r0] =>
      destruct (_assign_event_to_player e p r0) as [a r1] eqn:Ea;
      destruct (dict_append (chenda_events pat) (id p) a) as [d|] eqn:E;
      cbn [bind]; [|discriminate];
      assert (Hd : rest_free (set_chenda pat d))
        by (apply (append_assigned_rest_free pat e p r0); try assumption; now rewrite Ea)
  end.
  intro Heq. injection Heq as <-. exact Hd.
Qed.

Lemma unison_rest_free ens events r s :
  _orchestrate_unison ens events r = Ok s -> rest_free (fst s).
Proof.
  unfold _orchestrate_unison.
  apply (for_enumerate_invariant (fun s => rest_free (fst s)));
    [|apply initial_pattern_rest_free].
  intros i e s0 s1 _ Hinv.
  destruct (is_rest e) eqn:He; [intro Heq; injection Heq as <-; exact Hinv|].
  destruct (assign_to_all e (get_chenda_players ens) s0) as [s2|] eqn:Ea;
    cbn [bind]; [|discriminate].
  pose proof (assign_to_all_rest_free _ _ _ _ He Hinv Ea) as Hd.
  destruct (_is_structural_beat i (List.length events)).
  - intro Hc. refine (add_cymbal_events_rest_free _ _ _ _ _ Hc). exact Hd.
  - intro Heq. injection Heq as <-. exact Hd.
Qed.

Lemma layered_rest_free ens events r s :
  _orchestrate_layered ens events r = Ok s -> rest_free (fst s).
Proof.
  unfold _orchestrate_layered.
  apply (for_enumerate_invariant (fun s => rest_free (fst s)));
    [|apply initial_pattern_rest_free].
  intros i e s0 s1 _ Hinv.
  destruct (is_rest e) eqn:He; [intro Heq; injection Heq as <-; exact Hinv|].
  intro Ha. exact (assign_to_all_rest_free _ _ _ _ He Hinv Ha).
Qed.

Lemma all_player_events_rest_free pat :
  rest_free pat -> all_values no_rest (get_all_player_events pat).
Proof.
  intros (Hch & Hcy & Hw). unfold get_all_player_events.
  repeat apply all_values_update; try assumption. constructor.
Qed.

(** Under each of the five strategies, no list of the resulting pattern
    holds a rest. *)
Lemma orchestrate_sequence_rest_free ens events strategy r pat r' :
  orchestrate_sequence ens events strategy r = Ok (pat, r') ->
  forall pid l e,
    In (pid, l) (get_all_player_events pat) -> In e l ->
    sound_category e <> "REST"%string.
Proof.
  intros Hrun pid l e Hin He.
  assert (Hfree : rest_free pat).
  { destruct strategy; cbn in Hrun.
    - exact (traditional_rest_free _ _ _ _ Hrun).
    - exact (dynamic_rest_free _ _ _ _ Hrun).
    - exact (antiphonal_rest_free _ _ _ _ Hrun).
    - exact (unison_rest_free _ _ _ _ Hrun).
    - exact (layered_rest_free _ _ _ _ Hrun). }
  apply all_player_events_rest_free in Hfree.
  unfold all_values in Hfree. rewrite Forall_forall in Hfree.
  specialize (Hfree _ Hin). cbn in Hfree.
  unfold no_rest in Hfree. rewrite Forall_forall in Hfree.
  specialize (Hfree _ He). unfold is_rest in Hfree.
  now apply String.eqb_neq.
Qed.

End OrchestrationFacts.

Module TraditionalFacts.
Import OrchestrationFacts.

Lemma dict_append_holds_new d k x d' :
  dict_append d k x = Ok d' -> holds d' k x.
Proof.
  unfold dict_append. destruct (dict_get d k) as [l|]; [|discriminate].
  intro Heq. injection Heq as <-. exists (l ++ [x]).
  split; [apply dict_get_set_same | apply in_or_app; right; now left].
Qed.

Lemma dict_append_holds_mono d k x d' k0 y :
  holds d k0 y -> dict_append d k x = Ok d' -> holds d' k0 y.
Proof.
  unfold dict_append. intros (l0 & Hget & Hin).
  destruct (dict_get d k) as [l|] eqn:E; [|discriminate].
  intro Heq. injection Heq as <-.
  destruct (string_dec k k0) as [-> | Hne].
  - exists (l ++ [x]). split; [apply dict_get_set_same|].
    apply in_or_app. left. congruence.
  - exists l0. split; [|exact Hin]. now rewrite dict_get_set_other.
Qed.

Lemma add_cymbal_events_chenda t cymbals s s' :
  _add_cymbal_events t cymbals s = Ok s' ->
  chenda_events (fst s') = chenda_events (fst s).
Proof.
  unfold _add_cymbal_events.
  apply (for_each_invariant (fun x => chenda_events (fst x) = chenda_events (fst s)));
    [|reflexivity].
  intros c [pat r] s1 _ Hinv.
  unfold get_timing_offset, get_velocity_for_intensity, np_normal.
  destruct (dynamic_range c) as [lo hi].
  match goal with
  | |- context [dict_append ?d ?k ?x] => destruct (dict_append d k x) as [d1|]
  end; cbn [bind]; [|discriminate].
  intro Heq. injection Heq as <-. exact Hinv.
Qed.

Lemma heavy_accent_selected event position complexity lead rhythm accent :
  intensity event == 95#100 ->
  In (stroke_type event) heavy_accents ->
  _select_player_traditional event position complexity lead rhythm accent = accent.
Proof.
  intros Hi Hs. unfold _select_player_traditional.
  assert (Hhigh : Qltb (8#10) (intensity event) = true).
  { apply Qltb_lt. rewrite Hi. reflexivity. }
  rewrite Hhigh.
  assert (Hset : existsb (String.eqb (stroke_type event)) heavy_accents = true).
  { apply existsb_exists. exists (stroke_type event).
    split; [exact Hs | apply String.eqb_refl]. }
  now rewrite Hset.
Qed.

(** C4. Under the traditional strategy an event of intensity 0.95 whose
    stroke type is a heavy accent is given to the accent player, whatever
    its position and the complexity of the pattern: the selection returns
    the accent player, and when such an event (not a rest) stands in the
    input, the accent player's list of the orchestrated pattern holds its
    assigned copy. *)
Theorem heavy_accent_goes_to_accent_player (event : StrokeEvent) :
  intensity event == 95#100 ->
  In (stroke_type event) heavy_accents ->
  (forall position complexity lead rhythm accent,
      _select_player_traditional event position complexity lead rhythm accent = accent) /\
  (forall ens events r pat r' i,
      orchestrate_sequence ens events TRADITIONAL r = Ok (pat, r') ->
      nth_error events i = Some event ->
      is_rest event = false ->
      exists accent x,
        first_by_role ens CHENDA_ACCENT = Ok accent /\
        holds (chenda_events pat) (id accent) x /\
        score_of x = score_of event /\
        assigned_to (id accent) x).
Proof.
  intros Hi Hs. split.
  { intros. now apply heavy_accent_selected. }
  intros ens events r pat r' i Hrun Hnth Hrest.
  cbn [orchestrate_sequence] in Hrun. unfold _orchestrate_traditional in Hrun.
  destruct (first_by_role ens CHENDA_LEAD) as [lead|]; cbn [bind] in Hrun; [|discriminate].
  destruct (first_by_role ens CHENDA_RHYTHM) as [rhythm|]; cbn [bind] in Hrun; [|discriminate].
  destruct (first_by_role ens CHENDA_ACCENT) as [accent|]; cbn [bind] in Hrun; [|discriminate].
  remember (_analyze_pattern_complexity events) as cx eqn:Hcx.
  remember (List.length events) as n eqn:Hn.
  clear Hcx Hn.
  destruct (nth_error_split _ _ Hnth) as (l1 & l2 & -> & Hlen).
  rewrite for_enumerate_app in Hrun.
  match type of Hrun with
  | bind ?m _ = _ => destruct m as [[pat1 r1]|]; cbn [bind] in Hrun; [|discriminate]
  end.
  cbn [for_enumerate] in Hrun. rewrite Hrest in Hrun.
  rewrite (heavy_accent_selected event _ cx lead rhythm accent Hi Hs) in Hrun.
  destruct (_assign_event_to_player event accent r1) as [a r2] eqn:Ea.
  destruct (dict_append (chenda_events pat1) (id accent) a) as [d|] eqn:Ed;
    cbn [bind] in Hrun; [|discriminate].
  exists accent, a.
  split; [reflexivity|].
  assert (Ha : a = fst (_assign_event_to_player event accent r1)) by now rewrite Ea.
  split; [|split; [rewrite Ha; apply assign_event_score
                  | rewrite Ha; apply assign_event_assigned]].
  assert (Hstep : exists s2,
             holds (chenda_events (fst s2)) (id accent) a /\
             for_enumerate
               (fun i0 event0 '(pat0, r0) =>
                  if is_rest event0 then Ok (pat0, r0)
                  else
                    let player := _select_player_traditional event0 i0 cx lead rhythm accent in
                    let '(assigned_event, r3) := _assign_event_to_player event0 player r0 in
                    d0 <- dict_append (chenda_events pat0) (id player) assigned_event ;;
                    if _is_structural_beat i0 n
                    then _add_cymbal_events (time event0) (get_cymbal_players ens)
                           (set_chenda pat0 d0, r3)
                    else Ok (set_chenda pat0 d0, r3))
               (S (0 + List.length l1)) l2 s2 = Ok (pat, r')).
  { destruct (_is_structural_beat (0 + List.length l1) n).
    - destruct (_add_cymbal_events (time event) (get_cymbal_players ens)
                  (set_chenda pat1 d, r2)) as [s2|] eqn:Ec;
        cbn [bind] in Hrun; [|discriminate].
      exists s2. split; [|exact Hrun].
      rewrite (add_cymbal_events_chenda _ _ _ _ Ec). cbn.
      exact (dict_append_holds_new _ _ _ _ Ed).
    - cbn [bind] in Hrun. exists (set_chenda pat1 d, r2). split; [|exact Hrun].
      cbn. exact (dict_append_holds_new _ _ _ _ Ed). }
  destruct Hstep as (s2 & Hholds & Hrest2).
  change (holds (chenda_events (fst (pat, r'))) (id accent) a).
  revert Hholds Hrest2.
  apply (for_enumerate_invariant
           (fun s => holds (chenda_events (fst s)) (id accent) a)).
  intros j e [pat0 r0] s1 _ Hinv. cbn [fst] in Hinv.
  destruct (is_rest e); [intro Heq; injection Heq as <-; exact Hinv|].
  cbv zeta.
  match goal with
  | |- context [_assign_event_to_player e ?p r0] =>
      destruct (_assign_event_to_player e p r0) as [a0 r3];
      destruct (dict_append (chenda_events pat0) (id p) a0) as [d0|] eqn:E0;
      cbn [bind]; [|discriminate]
  end.
  pose proof (dict_append_holds_mono _ _ _ _ _ _ Hinv E0) as Hd.
  destruct (_is_structural_beat j n).
  - intro Hc. rewrite (add_cymbal_events_chenda _ _ _ _ Hc). exact Hd.
  - intro Heq. injection Heq as <-. exact Hd.
Qed.

End TraditionalFacts.

Module UnisonFacts.
Import OrchestrationFacts TraditionalFacts.

Lemma init_lists_get ids d k :
  In k ids \/ dict_get d k = Some [] -> dict_get (init_lists ids d) k = Some [].
Proof.
  unfold init_lists. revert d.
  induction ids as [|k0 ids IH]; intros d Hk; cbn.
  - destruct Hk as [[] | Hk]. exact Hk.
  - apply IH. destruct (string_dec k0 k) as [-> | Hne].
    + right. apply dict_get_set_same.
    + destruct Hk as [[Hk | Hk] | Hk]; [congruence | now left |].
      right. now rewrite dict_get_set_other.
Qed.

Lemma dict_append_total (d : dict (list StrokeEvent)) k x :
  dict_get d k <> None ->
  exists l, dict_get d k = Some l /\ dict_append d k x = Ok (dict_set d k (l ++ [x])).
Proof.
  unfold dict_append. destruct (dict_get d k) as [l|]; [|congruence].
  intros _. exists l. split; reflexivity.
Qed.

Lemma dict_set_keeps_keys (d : dict (list StrokeEvent)) k v k' :
  dict_get d k' <> None -> dict_get (dict_set d k v) k' <> None.
Proof.
  intro Hk. destruct (string_dec k k') as [-> | Hne].
  - rewrite dict_get_set_same. discriminate.
  - now rewrite dict_get_set_other.
Qed.

(** The cymbal hits never fail on initialised lists and leave the chenda
    lists alone. *)
Lemma add_cymbal_events_total t cymbals ks pat r :
  present ks (cymbal_events pat) ->
  (forall c, In c cymbals -> In (id c) ks) ->
  exists pat' r',
    _add_cymbal_events t cymbals (pat, r) = Ok (pat', r') /\
    chenda_events pat' = chenda_events pat /\
    present ks (cymbal_events pat').
Proof.
  unfold _add_cymbal_events. revert pat r.
  induction cymbals as [|c cs IH]; intros pat r Hp Hks; cbn [for_each].
  - exists pat, r. repeat split; assumption.
  - unfold get_timing_offset, get_velocity_for_intensity, np_normal.
    destruct (dynamic_range c) as [lo hi].
    match goal with
    | |- context [dict_append ?d ?k ?x] =>
        destruct (dict_append_total d k x) as (l & Hl & ->)
    end.
    { apply Hp, Hks. now left. }
    cbn [bind].
    match goal with
    | |- context [for_each _ cs (?p1, ?r1)] =>
        destruct (IH p1 r1) as (pat' & r' & Hrun & Hch & Hpres)
    end.
    { intros k Hk. cbn. apply dict_set_keeps_keys. now apply Hp. }
    { intros c' Hc'. apply Hks. now right. }
    exists pat', r'. split; [exact Hrun|]. split; [|exact Hpres].
    rewrite Hch. reflexivity.
Qed.

(** One event given to every player of [ps]: each list grows by one
    assigned copy, the other lists and the cymbals are untouched. *)
Lemma assign_to_all_spec e ps pat r :
  NoDup (map id ps) ->
  present (map id ps) (chenda_events pat) ->
  exists pat' r',
    assign_to_all e ps (pat, r) = Ok (pat', r') /\
    cymbal_events pat' = cymbal_events pat /\
    (forall k, ~ In k (map id ps) ->
               dict_get (chenda_events pat') k = dict_get (chenda_events pat) k) /\
    (forall p l, In p ps -> dict_get (chenda_events pat) (id p) = Some l ->
       exists x, dict_get (chenda_events pat') (id p) = Some (l ++ [x]) /\
                 score_of x = score_of e /\ assigned_to (id p) x).
Proof.
  unfold assign_to_all. revert pat r.
  induction ps as [|p0 ps IH]; intros pat r Hnd Hp; cbn [for_each].
  - exists pat, r. repeat split; try reflexivity. intros p l [].
  - cbn [map] in Hnd, Hp. inversion Hnd as [|? ? Hnotin Hnd']; subst.
    destruct (_assign_event_to_player e p0 r) as [a r1] eqn:Ea.
    destruct (dict_append_total (chenda_events pat) (id p0) a) as (l0 & Hl0 & Happ).
    { apply Hp. now left. }
    rewrite Happ. cbn [bind].
    set (pat1 := set_chenda pat (dict_set (chenda_events pat) (id p0) (l0 ++ [a]))).
    destruct (IH pat1 r1 Hnd') as (pat' & r' & Hrun & Hcy & Hframe & Hgrow).
    { intros k Hk. cbn. apply dict_set_keeps_keys. apply Hp. now right. }
    exists pat', r'. split; [exact Hrun|]. split; [rewrite Hcy; reflexivity|]. split.
    + intros k Hk. rewrite Hframe by (intro; apply Hk; now right).
      cbn. apply dict_get_set_other. intro Heq. apply Hk. now left.
    + intros p l [-> | Hin] Hl.
      * exists a. rewrite Hframe by exact Hnotin. cbn.
        rewrite dict_get_set_same.
        assert (l = l0) by congruence. subst l.
        assert (Ha : a = fst (_assign_event_to_player e p r)) by now rewrite Ea.
        split; [reflexivity|]. rewrite Ha.
        split; [apply assign_event_score | apply assign_event_assigned].
      * apply Hgrow; [exact Hin|]. cbn.
        rewrite dict_get_set_other; [exact Hl|].
        intro Heq. apply Hnotin. rewrite Heq. now apply in_map.
Qed.

(** One copy costs three draws and is the resolved copy at the first. *)
Lemma assign_event_resolved e p r c :
  _assign_event_to_player e p (at_draw r c)
  = (resolved_copy p e r c, at_draw r (S (S (S c)))).
Proof.
  unfold _assign_event_to_player, get_velocity_for_intensity, get_timing_offset,
    np_normal, np_uniform, resolved_copy, at_draw, advance.
  destruct (dynamic_range p) as [lo hi].
  cbn [fst snd cursor unit_draws gauss_draws index_draws].
  destruct (Qltb (7 # 10) (intensity e)); reflexivity.
Qed.

(** One event given to every player of [ps], draw by draw: the [j]-th
    player's list grows by the copy resolved at draw [c + 3 j]. *)
Lemma assign_to_all_resolved e r ps :
  forall c pat,
    NoDup (map id ps) ->
    present (map id ps) (chenda_events pat) ->
    exists pat',
      assign_to_all e ps (pat, at_draw r c)
      = Ok (pat', at_draw r (c + 3 * List.length ps)) /\
      cymbal_events pat' = cymbal_events pat /\
      (forall k, dict_get (chenda_events pat) k <> None ->
                 dict_get (chenda_events pat') k <> None) /\
      (forall k, ~ In k (map id ps) ->
                 dict_get (chenda_events pat') k = dict_get (chenda_events pat) k) /\
      (forall j p l, nth_error ps j = Some p ->
         dict_get (chenda_events pat) (id p) = Some l ->
         dict_get (chenda_events pat') (id p)
         = Some (l ++ [resolved_copy p e r (c + 3 * j)])).
Proof.
  unfold assign_to_all.
  induction ps as [|p0 ps IH]; intros c pat Hnd Hp; cbn [for_each].
  - exists pat. rewrite Nat.add_0_r. repeat split; try reflexivity; try tauto.
    intros [|j] p l Hj; discriminate.
  - cbn [map] in Hnd, Hp. inversion Hnd as [|? ? Hnotin Hnd']; subst.
    rewrite assign_event_resolved.
    destruct (dict_append_total (chenda_events pat) (id p0) (resolved_copy p0 e r c))
      as (l0 & Hl0 & Happ).
    { apply Hp. now left. }
    rewrite Happ. cbn [bind].
    set (pat1 := set_chenda pat
                   (dict_set (chenda_events pat) (id p0) (l0 ++ [resolved_copy p0 e r c]))).
    destruct (IH (S (S (S c))) pat1 Hnd')
      as (pat' & Hrun & Hcy & Hkeys & Hframe & Hgrow).
    { intros k Hk. cbn. apply dict_set_keeps_keys. apply Hp. now right. }
    exists pat'. split.
    { rewrite Hrun. do 2 f_equal. cbn [List.length]. f_equal. lia. }
    split; [rewrite Hcy; reflexivity|]. split.
    { intros k Hk. apply Hkeys. cbn. now apply dict_set_keeps_keys. }
    split.
    + intros k Hk. rewrite Hframe by (intro; apply Hk; now right).
      cbn. apply dict_get_set_other. intro Heq. apply Hk. now left.
    + intros [|j] p l Hj Hl; cbn [nth_error] in Hj.
      * injection Hj as <-. rewrite Hframe by exact Hnotin. cbn.
        rewrite dict_get_set_same.
        assert (l = l0) by congruence. subst l.
        cbn [Nat.mul]. now rewrite Nat.add_0_r.
      * rewrite (Hgrow j p l Hj).
        -- do 4 f_equal. lia.
        -- cbn. rewrite dict_get_set_other; [exact Hl|].
           intro Heq. apply Hnotin. rewrite Heq.
           apply in_map. exact (nth_error_In _ _ Hj).
Qed.

(** The cymbal hits cost two draws each. *)
Lemma add_cymbal_events_draws t r cymbals ks :
  forall c pat,
    present ks (cymbal_events pat) ->
    (forall y, In y cymbals -> In (id y) ks) ->
    exists pat',
      _add_cymbal_events t cymbals (pat, at_draw r c)
      = Ok (pat', at_draw r (c + 2 * List.length cymbals)) /\
      chenda_events pat' = chenda_events pat /\
      present ks (cymbal_events pat').
Proof.
  unfold _add_cymbal_events.
  induction cymbals as [|y ys IH]; intros c pat Hp Hks; cbn [for_each].
  - exists pat. rewrite Nat.add_0_r. repeat split; assumption.
  - unfold get_timing_offset, get_velocity_for_intensity, np_normal.
    destruct (dynamic_range y) as [lo hi].
    match goal with
    | |- context [dict_append ?d ?k ?x] =>
        destruct (dict_append_total d k x) as (l & Hl & ->)
    end.
    { apply Hp, Hks. now left. }
    cbn [bind].
    match goal with
    | |- context [for_each _ ys (?p1, _)] =>
        destruct (IH (S (S c)) p1) as (pat' & Hrun & Hch & Hpres)
    end.
    { intros k Hk. cbn. apply dict_set_keeps_keys. now apply Hp. }
    { intros y' Hy'. apply Hks. now right. }
    exists pat'. split.
    { replace (c + 2 * List.length (y :: ys))%nat
        with (S (S c) + 2 * List.length ys)%nat by (cbn [List.length]; lia).
      exact Hrun. }
    split; [|exact Hpres]. rewrite Hch. reflexivity.
Qed.

(** The unison loop, draw by draw. *)
Lemma unison_loop ens n r events :
  NoDup (map id (chenda_section ens)) ->
  forall i c pat,
    present (map id (chenda_section ens)) (chenda_events pat) ->
    present (map id (cymbal_section ens)) (cymbal_events pat) ->
    exists pat',
      for_enumerate (unison_body ens n) i events (pat, at_draw r c)
      = Ok (pat',
            at_draw r (c + unison_draws (List.length (chenda_section ens))
                             (List.length (cymbal_section ens)) i events)) /\
      forall j p l, nth_error (chenda_section ens) j = Some p ->
        dict_get (chenda_events pat) (id p) = Some l ->
        dict_get (chenda_events pat') (id p)
        = Some (l ++ unison_share (List.length (chenda_section ens))
                       (List.length (cymbal_section ens)) j p r c i events).
Proof.
  intro Hnd.
  induction events as [|e events IH]; intros i c pat Hch Hcy;
    cbn [for_enumerate unison_draws unison_share].
  - exists pat. rewrite Nat.add_0_r. split; [reflexivity|].
    intros j p l _ Hl. now rewrite app_nil_r.
  - unfold unison_body at 1. unfold is_rest.
    destruct (String.eqb (sound_category e) "REST") eqn:He; cbn [bind].
    + destruct (IH (S i) c pat Hch Hcy) as (pat' & Hrun & Hgrow).
      exists pat'. split; [rewrite Hrun; reflexivity | exact Hgrow].
    + change (get_chenda_players ens) with (chenda_section ens).
      change (get_cymbal_players ens) with (cymbal_section ens).
      destruct (assign_to_all_resolved e r (chenda_section ens) c pat Hnd Hch)
        as (pat1 & Hrun1 & Hcy1 & Hkeys1 & _ & Hgrow1).
      rewrite Hrun1. cbn [bind]. unfold _is_structural_beat.
      assert (Hch1 : present (map id (chenda_section ens)) (chenda_events pat1)).
      { intros k Hk. apply Hkeys1, Hch, Hk. }
      destruct (i mod 4 =? 0)%nat.
      * destruct (add_cymbal_events_draws (time e) r (cymbal_section ens)
                    (map id (cymbal_section ens))
                    (c + 3 * List.length (chenda_section ens)) pat1)
          as (pat2 & Hrun2 & Hsame & Hcy2).
        { rewrite Hcy1. exact Hcy. }
        { intros y Hy. now apply in_map. }
        rewrite Hrun2. cbn [bind].
        destruct (IH (S i) (c + 3 * List.length (chenda_section ens)
                            + 2 * List.length (cymbal_section ens))%nat pat2)
          as (pat' & Hrun & Hgrow).
        { rewrite Hsame. exact Hch1. }
        { exact Hcy2. }
        exists pat'. split.
        { rewrite Hrun. do 2 f_equal. f_equal. lia. }
        intros j p l Hj Hl.
        assert (Hl2 : dict_get (chenda_events pat2) (id p)
                      = Some (l ++ [resolved_copy p e r (c + 3 * j)]))
          by (rewrite Hsame; exact (Hgrow1 j p l Hj Hl)).
        rewrite (Hgrow j p _ Hj Hl2).
        rewrite <- app_assoc. cbn [app]. do 4 f_equal. lia.
      * cbn [bind].
        destruct (IH (S i) (c + 3 * List.length (chenda_section ens))%nat pat1)
          as (pat' & Hrun & Hgrow).
        { exact Hch1. }
        { rewrite Hcy1. exact Hcy. }
        exists pat'. split.
        { rewrite Hrun. do 2 f_equal. f_equal. lia. }
        intros j p l Hj Hl.
        rewrite (Hgrow j p _ Hj (Hgrow1 j p l Hj Hl)).
        rewrite <- app_assoc. cbn [app]. do 4 f_equal. lia.
Qed.

(** The copies of a share are those of the non-REST events, in order. *)
Lemma unison_share_scores m n j p r events :
  forall c i,
    map score_of (unison_share m n j p r c i events)
    = map score_of (non_rests events).
Proof.
  unfold non_rests.
  induction events as [|e events IH]; intros c i; cbn [unison_share filter map].
  - reflexivity.
  - unfold is_rest at 1.
    destruct (String.eqb (sound_category e) "REST"); cbn [negb map].
    + apply IH.
    + rewrite IH. reflexivity.
Qed.

Lemma unison_share_assigned m n j p r events :
  forall c i, Forall (assigned_to (id p)) (unison_share m n j p r c i events).
Proof.
  induction events as [|e events IH]; intros c i; cbn [unison_share].
  - constructor.
  - destruct (String.eqb (sound_category e) "REST"); [apply IH|].
    constructor; [|apply IH].
    unfold assigned_to, resolved_copy. cbn. repeat split; discriminate.
Qed.

(** C3. Under the unison strategy, when the chenda players of the ensemble
    have distinct ids, the orchestration succeeds and the list of every
    chenda player, the [j]-th of them, holds exactly one copy of each non-REST
    input event, in input order, and nothing else; so all the lists have the
    length of the non-REST input.  Each copy is resolved for its player on
    draws of its own, three for each copy, in the order of the players: the
    velocity is the player's dynamic range at the intensity of the event plus
    the variation of the player's skill, clipped to [0, 1]; the time is that
    of the event moved by the player's timing offset; the contact point is
    drawn in [0.6, 0.9) above intensity 0.7 and in [0.3, 0.6) otherwise; the
    copy keeps stroke type, category, intensity and duration and carries the
    player's id.  The chenda players are the players of the ensemble whose
    instrument type is CHENDA. *)
Theorem unison_duplicates_to_every_chenda (ens : Ensemble)
    (events : list StrokeEvent) (r : Rng) :
  NoDup (map id (chenda_section ens)) ->
  exists pat r',
    orchestrate_sequence ens events UNISON r = Ok (pat, r') /\
    r' = at_draw r (cursor r + unison_draws (List.length (chenda_section ens))
                                 (List.length (cymbal_section ens)) 0 events) /\
    forall j p, nth_error (chenda_section ens) j = Some p ->
      exists l,
        dict_get (chenda_events pat) (id p) = Some l /\
        l = unison_share (List.length (chenda_section ens))
              (List.length (cymbal_section ens)) j p r (cursor r) 0 events /\
        map score_of l = map score_of (non_rests events) /\
        Forall (assigned_to (id p)) l /\
        List.length l = List.length (non_rests events).
Proof.
  intro Hnd. cbn [orchestrate_sequence]. unfold _orchestrate_unison.
  change (fun (i : nat) (event : StrokeEvent) (s : OState) =>
            if is_rest event then Ok s
            else
              s1 <- assign_to_all event (get_chenda_players ens) s ;;
              (if _is_structural_beat i (List.length events)
               then _add_cymbal_events (time event) (get_cymbal_players ens) s1
               else Ok s1))
    with (unison_body ens (List.length events)).
  change (get_chenda_players ens) with (chenda_section ens).
  change (get_cymbal_players ens) with (cymbal_section ens).
  set (pattern := mkPattern _ _ _).
  destruct r as [u g ix c0].
  destruct (unison_loop ens (List.length events) (mkRng u g ix c0) events Hnd
              0%nat c0 pattern)
    as (pat & Hrun & Hgrow).
  { intros k Hk. cbn. rewrite init_lists_get by now left. discriminate. }
  { intros k Hk. cbn. rewrite init_lists_get by now left. discriminate. }
  eexists. eexists. split; [exact Hrun|]. split; [reflexivity|].
  intros j p Hj.
  eexists. split.
  { rewrite (Hgrow j p [] Hj).
    - cbn [app]. reflexivity.
    - cbn. apply init_lists_get. left. apply in_map. exact (nth_error_In _ _ Hj). }
  split; [reflexivity|].
  split; [apply unison_share_scores|].
  split; [apply unison_share_assigned|].
  rewrite <- (length_map score_of), unison_share_scores. apply length_map.
Qed.

End UnisonFacts.

Module OrchestrationRuns.
Import OrchestrationFacts TraditionalFacts UnisonFacts.

(** Every ensemble [build_standard_melam] returns has chenda players of
    pairwise distinct ids: each player carries the id it is registered under. *)
Lemma build_standard_melam_chenda_ids w ens w' :
  build_standard_melam w = Ok (ens, w') ->
  map id (get_chenda_players ens) = ["P1"; "P2"; "P3"]%string.
Proof.
  unfold build_standard_melam, create_chenda_lead, create_chenda_rhythm,
    create_chenda_accent, create_elathaalam_primary, create_elathaalam_secondary.
  intro Hrun.
  repeat match type of Hrun with
         | context [create_chenda ?a ?b ?c ?d ?e ?f ?g ?x] =>
             destruct (create_chenda a b c d e f g x) as [[? [? ?]]|];
             cbn [bind] in Hrun; [|discriminate]
         end.
  repeat match type of Hrun with
         | context [create_elathaalam ?a ?b ?x] =>
             destruct (create_elathaalam a b x) as [? ?]
         end.
  injection Hrun as <- _. reflexivity.
Qed.

Lemma standard_melam_chenda_ids :
  NoDup (map id (get_chenda_players standard_melam)).
Proof.
  vm_compute. repeat constructor; cbn; intuition discriminate.
Qed.

Lemma unison_duplicates_to_every_chenda_witness :
  NoDup (map id (chenda_section standard_melam)) /\
  exists pat r',
    orchestrate_sequence standard_melam demo_events UNISON rng_ramp = Ok (pat, r') /\
    cursor r' = 31%nat /\
    (exists p1,
        nth_error (chenda_section standard_melam) 0 = Some p1 /\ id p1 = "P1"%string /\
        dict_get (chenda_events pat) "P1"
        = Some (unison_share 3 2 0 p1 rng_ramp 0 0 demo_events)) /\
    (exists p2,
        nth_error (chenda_section standard_melam) 1 = Some p2 /\ id p2 = "P2"%string /\
        dict_get (chenda_events pat) "P2"
        = Some (unison_share 3 2 1 p2 rng_ramp 0 0 demo_events)) /\
    (exists p3,
        nth_error (chenda_section standard_melam) 2 = Some p3 /\ id p3 = "P3"%string /\
        dict_get (chenda_events pat) "P3"
        = Some (unison_share 3 2 2 p3 rng_ramp 0 0 demo_events)) /\
    forall k, In k ["P1"; "P2"; "P3"]%string ->
      exists l, dict_get (chenda_events pat) k = Some l /\ List.length l = 3%nat.
Proof.
  split; [exact standard_melam_chenda_ids|].
  destruct (unison_duplicates_to_every_chenda standard_melam demo_events rng_ramp
              standard_melam_chenda_ids) as (pat & r' & Hrun & Hr & Hall).
  assert (E1 : exists p, nth_error (chenda_section standard_melam) 0 = Some p /\
                         id p = "P1"%string)
    by (vm_compute; eexists; split; reflexivity).
  assert (E2 : exists p, nth_error (chenda_section standard_melam) 1 = Some p /\
                         id p = "P2"%string)
    by (vm_compute; eexists; split; reflexivity).
  assert (E3 : exists p, nth_error (chenda_section standard_melam) 2 = Some p /\
                         id p = "P3"%string)
    by (vm_compute; eexists; split; reflexivity).
  destruct E1 as (p1 & E1 & I1), E2 as (p2 & E2 & I2), E3 as (p3 & E3 & I3).
  destruct (Hall _ _ E1) as (l1 & H1 & Q1 & _ & _ & L1).
  destruct (Hall _ _ E2) as (l2 & H2 & Q2 & _ & _ & L2).
  destruct (Hall _ _ E3) as (l3 & H3 & Q3 & _ & _ & L3).
  rewrite I1 in H1. rewrite I2 in H2. rewrite I3 in H3.
  exists pat, r'. split; [exact Hrun|].
  split; [rewrite Hr; vm_compute; reflexivity|].
  split; [exists p1; repeat split; try assumption; rewrite H1, Q1; reflexivity|].
  split; [exists p2; repeat split; try assumption; rewrite H2, Q2; reflexivity|].
  split; [exists p3; repeat split; try assumption; rewrite H3, Q3; reflexivity|].
  intros k [<- | [<- | [<- | []]]]; eexists; (split; [eassumption|assumption]).
Defined.

Lemma heavy_accent_goes_to_accent_player_witness :
  exists pat r',
    orchestrate_sequence standard_melam demo_events TRADITIONAL rng_mid = Ok (pat, r') /\
    exists accent x,
      first_by_role standard_melam CHENDA_ACCENT = Ok accent /\
      holds (chenda_events pat) (id accent) x /\
      score_of x = score_of dheem /\
      assigned_to (id accent) x.
Proof.
  eexists. eexists. split.
  - vm_compute. reflexivity.
  - eapply (proj2 (heavy_accent_goes_to_accent_player dheem
                     (Qeq_refl _) (or_introl eq_refl))
              standard_melam demo_events rng_mid _ _ 1%nat).
    + vm_compute. reflexivity.
    + reflexivity.
    + reflexivity.
Defined.

End OrchestrationRuns.

(* ------------------------------------------------------------------ *)
(** ** Buffers: lengths and peaks *)
(* ------------------------------------------------------------------ *)

Module BufferFacts.

Lemma py_int_nonneg (x : Q) : 0 <= x -> py_int x = Qfloor x.
Proof.
  destruct x as [n d]. unfold Qle, py_int, Qfloor. cbn. intro Hx.
  apply Z.quot_div_nonneg; lia.
Qed.

Lemma quot_neg_iff (n d : Z) : (0 < d)%Z -> (Z.quot n d < 0 <-> n <= - d)%Z.
Proof.
  intro Hd. pose proof (Z.quot_rem' n d) as E.
  destruct (Z_lt_le_dec n 0) as [Hn | Hn].
  - pose proof (Z.rem_bound_pos_neg n d Hd (Z.lt_le_incl _ _ Hn)) as B.
    split; intro Hq; nia.
  - pose proof (Z.rem_bound_pos_pos n d Hd Hn) as B.
    split; intro Hq; nia.
Qed.

Lemma quot_zero_iff (n d : Z) : (0 < d)%Z -> (Z.quot n d = 0 <-> - d < n < d)%Z.
Proof.
  intro Hd. pose proof (Z.quot_rem' n d) as E.
  destruct (Z_lt_le_dec n 0) as [Hn | Hn].
  - pose proof (Z.rem_bound_pos_neg n d Hd (Z.lt_le_incl _ _ Hn)) as B.
    split; intro Hq; nia.
  - pose proof (Z.rem_bound_pos_pos n d Hd Hn) as B.
    split; intro Hq; nia.
Qed.

(** [int(x)] is negative exactly from -1 downwards. *)
Lemma py_int_neg_iff (x : Q) : (py_int x < 0)%Z <-> x <= -(1).
Proof.
  destruct x as [n d]. unfold py_int, Qle. cbn.
  rewrite quot_neg_iff by lia. lia.
Qed.

(** [int(x)] is zero exactly strictly between -1 and 1. *)
Lemma py_int_zero_iff (x : Q) : py_int x = 0%Z <-> -(1) < x /\ x < 1.
Proof.
  destruct x as [n d]. unfold py_int, Qlt. cbn.
  rewrite quot_zero_iff by lia. lia.
Qed.

Lemma np_zeros_ok (n : Z) :
  (0 <= n)%Z -> np_zeros n = Ok (repeat 0 (Z.to_nat n)).
Proof.
  intro Hn. unfold np_zeros.
  destruct (n <? 0)%Z eqn:E; [apply Z.ltb_lt in E; lia | reflexivity].
Qed.

Lemma np_zeros_negative (n : Z) : (n < 0)%Z -> np_zeros n = Raise ValueError.
Proof.
  intro Hn. unfold np_zeros. apply Z.ltb_lt in Hn. now rewrite Hn.
Qed.

Lemma vec_scale_length (a : list Q) (k : Q) :
  List.length (vec_scale a k) = List.length a.
Proof. apply length_map. Qed.

Lemma vec_add_length (a b : list Q) :
  List.length a = List.length b -> List.length (vec_add a b) = List.length a.
Proof.
  revert b. induction a as [|x a IH]; intros [|y b] Hl; cbn in *;
    try reflexivity; try discriminate.
  f_equal. apply IH. lia.
Qed.

Lemma peak_from_ge_start (l : list Q) (m : Q) : m <= peak_from m l.
Proof.
  unfold peak_from. revert m. induction l as [|x l IH]; intro m; cbn.
  - apply Qle_refl.
  - destruct (Qltb m (Qabs x)) eqn:E.
    + apply Qltb_lt in E. eapply Qle_trans; [apply Qlt_le_weak, E | apply IH].
    + apply IH.
Qed.

Lemma peak_from_ge_sample (l : list Q) (m x : Q) :
  In x l -> Qabs x <= peak_from m l.
Proof.
  unfold peak_from. revert m. induction l as [|y l IH]; intros m Hin; cbn.
  - destruct Hin.
  - destruct Hin as [-> | Hin]; [|now apply IH].
    destruct (Qltb m (Qabs x)) eqn:E.
    + apply (peak_from_ge_start l).
    + apply Qltb_ge in E. eapply Qle_trans; [exact E | apply (peak_from_ge_start l)].
Qed.

Lemma peak_from_le_bound (l : list Q) (m b : Q) :
  m <= b -> (forall x, In x l -> Qabs x <= b) -> peak_from m l <= b.
Proof.
  unfold peak_from. revert m. induction l as [|y l IH]; intros m Hm Hall; cbn.
  - exact Hm.
  - apply IH; [|intros x Hx; apply Hall; now right].
    destruct (Qltb m (Qabs y)); [apply Hall; now left | exact Hm].
Qed.

Lemma max_abs_nonneg (l : list Q) : 0 <= max_abs l.
Proof. apply (peak_from_ge_start l 0). Qed.

Lemma max_abs_ge (l : list Q) (x : Q) : In x l -> Qabs x <= max_abs l.
Proof. apply peak_from_ge_sample. Qed.

Lemma max_abs_le (l : list Q) (b : Q) :
  0 <= b -> (forall x, In x l -> Qabs x <= b) -> max_abs l <= b.
Proof. apply peak_from_le_bound. Qed.

(** Peak-normalising to [v]: no sample of [x / peak * v] exceeds [v]. *)
Lemma normalized_peak (l : list Q) (v : Q) :
  0 <= v -> 0 < max_abs l ->
  max_abs (map (fun x => x / max_abs l * v) l) <= v.
Proof.
  intros Hv Hm. apply max_abs_le; [exact Hv|].
  intros y Hy. apply in_map_iff in Hy. destruct Hy as (x & <- & Hx).
  pose proof (max_abs_ge l x Hx) as Hle.
  rewrite Qabs_Qmult. rewrite (Qabs_pos v Hv).
  unfold Qdiv. rewrite Qabs_Qmult.
  rewrite (Qabs_pos (/ max_abs l)) by (apply Qlt_le_weak, Qinv_lt_0_compat, Hm).
  assert (Hr : Qabs x * / max_abs l <= 1).
  { apply Qle_shift_div_r; [exact Hm|]. now rewrite Qmult_1_l. }
  assert (Hp : 0 <= (1 - Qabs x * / max_abs l) * v).
  { apply Qmult_le_0_compat; [lra | exact Hv]. }
  lra.
Qed.

(** [round] and [int] of a non-negative float differ by at most one. *)
Lemma py_round_near_py_int (x : Q) :
  0 <= x -> (py_int x <= py_round x <= py_int x + 1)%Z.
Proof.
  intro Hx. rewrite (py_int_nonneg x Hx). unfold py_round.
  destruct (Qltb (x - inject_Z (Qfloor x)) (1 # 2)); [lia|].
  destruct (Qltb (1 # 2) (x - inject_Z (Qfloor x))); [lia|].
  destruct (Z.even (Qfloor x)); lia.
Qed.

End BufferFacts.
Import BufferFacts.

(* ------------------------------------------------------------------ *)
(** ** spectral_engine.py: get_sound *)
(* ------------------------------------------------------------------ *)

Module SpectralFacts.

Lemma unknown_category_no_candidates eng category :
  unknown_category eng category -> candidates_of eng category = [].
Proof.
  unfold unknown_category, candidates_of. generalize (db eng) as d.
  induction d as [|[k sg] d IH]; intro Hu; cbn; [reflexivity|].
  destruct (String.eqb (cat sg) category) eqn:E.
  - apply String.eqb_eq in E. exfalso. apply (Hu k sg); [now left | exact E].
  - apply IH. intros k' sg' Hin. apply (Hu k' sg'). now right.
Qed.

Lemma candidate_in_db eng category k :
  In k (candidates_of eng category) -> exists sg, dict_get (db eng) k = Some sg.
Proof.
  unfold candidates_of. intro Hk.
  destruct (dict_get (db eng) k) as [sg|] eqn:E; [now exists sg|].
  exfalso. apply (proj1 (dict_get_none_keys _ _)) in E. apply E.
  unfold dict_keys in *. apply in_map_iff in Hk.
  destruct Hk as ([k' sg] & <- & Hin). apply filter_In in Hin.
  apply in_map_iff. exists (k', sg). split; [reflexivity | apply Hin].
Qed.

Section Kernel.
Variable M : PyMath.

Lemma accumulate_length contrib i output :
  List.length (accumulate contrib i output) = List.length output.
Proof.
  revert i. induction output as [|y output IH]; intro i; cbn; [reflexivity|].
  destruct (contrib i); cbn; [now rewrite IH | reflexivity].
Qed.

Lemma add_partial_length ts output p :
  List.length (add_partial M ts output p) = List.length output.
Proof.
  unfold add_partial. destruct p as [[f a] d].
  destruct (Qltb a (1 # 1000)); [reflexivity | apply accumulate_length].
Qed.

Lemma add_partials_length ts parts output :
  List.length (fold_left (add_partial M ts) parts output) = List.length output.
Proof.
  revert output. induction parts as [|p parts IH]; intro output; cbn; [reflexivity|].
  rewrite IH. apply add_partial_length.
Qed.

(** The kernel returns a buffer of [int(duration * sample_rate)] samples. *)
Lemma synthesize_additive_length parts dur rate vel :
  (0 <= py_int (dur * inject_Z rate))%Z ->
  exists out,
    synthesize_additive M parts dur rate vel = Ok out /\
    List.length out = Z.to_nat (py_int (dur * inject_Z rate)).
Proof.
  intro Hn. unfold synthesize_additive. rewrite (np_zeros_ok _ Hn). cbn [bind].
  match goal with
  | |- context [max_abs ?o] => destruct (Qltb 0 (max_abs o)); eexists; (split; [reflexivity|])
  end.
  - rewrite vec_scale_length, add_partials_length. apply repeat_length.
  - rewrite add_partials_length. apply repeat_length.
Qed.

Lemma random_choice_in {A : Type} (l : list A) (r : Rng) :
  l <> [] -> exists x, random_choice l r = (Ok x, advance r) /\ In x l.
Proof.
  destruct l as [|x l]; [congruence|]. intros _. cbn [random_choice].
  eexists. split; [reflexivity|].
  apply nth_In. apply Nat.mod_upper_bound. cbn. discriminate.
Qed.

(** One layer: a buffer of the target length. *)
Lemma render_layer_length eng category v dur r :
  candidates_of eng category <> [] ->
  (0 <= py_int (dur * inject_Z (sample_rate eng)))%Z ->
  exists layer r',
    render_layer M eng (candidates_of eng category) (Some v) dur
      (py_int (dur * inject_Z (sample_rate eng))) r = Ok (layer, r') /\
    List.length layer = Z.to_nat (py_int (dur * inject_Z (sample_rate eng))).
Proof.
  intros Hc Hn. unfold render_layer.
  destruct (random_choice_in _ r Hc) as (k & -> & Hk). cbn [bind].
  destruct (candidate_in_db _ _ _ Hk) as (sg & Hsg).
  unfold dict_item. rewrite Hsg. cbn [bind].
  unfold np_normal, np_uniform. cbn [bind].
  match goal with
  | |- context [synthesize_additive M ?p ?d ?rt ?vl] =>
      destruct (synthesize_additive_length p d rt vl Hn) as (out & -> & Hout)
  end.
  cbn [bind]. set (target := Z.to_nat (py_int (dur * inject_Z (sample_rate eng)))) in *.
  rewrite Hout, Nat.ltb_irrefl.
  eexists. eexists. split; [reflexivity|].
  repeat match goal with
         | |- context [if ?c then _ else _] => destruct c
         end; try exact Hout.
  - rewrite length_firstn. unfold np_pad.
    rewrite !length_app, !repeat_length, Hout. cbn. lia.
  - rewrite length_firstn, length_skipn. unfold np_pad.
    rewrite !length_app, !repeat_length, Hout. cbn. lia.
Qed.

Lemma render_layers_length n eng category v dur r :
  candidates_of eng category <> [] ->
  (0 <= py_int (dur * inject_Z (sample_rate eng)))%Z ->
  exists layers r',
    render_layers M n eng (candidates_of eng category) (Some v) dur
      (py_int (dur * inject_Z (sample_rate eng))) r = Ok (layers, r') /\
    Forall (fun layer =>
              List.length layer = Z.to_nat (py_int (dur * inject_Z (sample_rate eng))))
           layers.
Proof.
  intros Hc Hn. revert r. induction n as [|n IH]; intro r; cbn [render_layers].
  - exists [], r. split; [reflexivity | constructor].
  - destruct (render_layer_length eng category v dur r Hc Hn) as (layer & r1 & -> & Hl).
    cbn [bind].
    destruct (IH r1) as (layers & r2 & -> & Hls). cbn [bind].
    exists (layer :: layers), r2. split; [reflexivity | now constructor].
Qed.

Lemma mix_layers_length (target : nat) layers acc :
  List.length acc = target ->
  List.length
    (fold_left
       (fun acc layer =>
          if (List.length layer =? target)%nat then vec_add acc layer else acc)
       layers acc) = target.
Proof.
  revert acc. induction layers as [|layer layers IH]; intros acc Hacc; cbn; [exact Hacc|].
  apply IH. destruct (List.length layer =? target)%nat eqn:E; [|exact Hacc].
  apply Nat.eqb_eq in E. rewrite vec_add_length; congruence.
Qed.

(** With a known category and a non-negative sample count, [get_sound]
    reaches its normalisation with a mix of the target length. *)
Lemma get_sound_reaches_normalize eng category v dur r :
  candidates_of eng category <> [] ->
  (0 <= py_int (dur * inject_Z (sample_rate eng)))%Z ->
  exists ensemble r',
    List.length ensemble = Z.to_nat (py_int (dur * inject_Z (sample_rate eng))) /\
    get_sound M eng category (Some v) dur r =
    (max_val <- np_max_abs ensemble ;;
     if Qltb 0 max_val
     then Ok (map (fun x => x / max_val * v) ensemble, r')
     else Ok (ensemble, r')).
Proof.
  intros Hc Hn. unfold get_sound. fold (candidates_of eng category).
  destruct (render_layers_length num_drummers eng category v dur r Hc Hn)
    as (layers & r' & Hrun & _).
  destruct (candidates_of eng category) as [|k ks] eqn:Ec; [congruence|].
  rewrite Hrun. cbn [bind]. rewrite (np_zeros_ok _ Hn). cbn [bind].
  eexists. exists r'. split; [|reflexivity].
  apply mix_layers_length. apply repeat_length.
Qed.

(** The failing case of C1 in general: a known category and a duration
    shorter than one sample. *)
Lemma get_sound_sub_sample_raises eng category v dur r :
  candidates_of eng category <> [] ->
  py_int (dur * inject_Z (sample_rate eng)) = 0%Z ->
  get_sound M eng category (Some v) dur r = Raise ValueError.
Proof.
  intros Hc Hz.
  destruct (get_sound_reaches_normalize eng category v dur r Hc) as (ens & r' & Hlen & ->);
    [lia|].
  rewrite Hz in Hlen. destruct ens; [reflexivity | discriminate].
Qed.

(** For a known category and at least one sample, [get_sound] returns
    [int(duration * sample_rate)] samples whose peak is at most the velocity. *)
Lemma get_sound_known_category eng category v dur r :
  candidates_of eng category <> [] ->
  (1 <= py_int (dur * inject_Z (sample_rate eng)))%Z ->
  0 <= v ->
  exists buf r',
    get_sound M eng category (Some v) dur r = Ok (buf, r') /\
    List.length buf = Z.to_nat (py_int (dur * inject_Z (sample_rate eng))) /\
    max_abs buf <= v.
Proof.
  intros Hc Hn Hv.
  destruct (get_sound_reaches_normalize eng category v dur r Hc) as (ens & r' & Hlen & ->);
    [lia|].
  destruct ens as [|x ens]; [cbn in Hlen; lia|].
  cbn [np_max_abs bind].
  destruct (Qltb 0 (max_abs (x :: ens))) eqn:E.
  - eexists. exists r'. split; [reflexivity|]. split.
    + rewrite length_map. exact Hlen.
    + apply normalized_peak; [exact Hv | now apply Qltb_lt].
  - exists (x :: ens), r'. split; [reflexivity|]. split; [exact Hlen|].
    apply Qltb_ge in E. eapply Qle_trans; [exact E | exact Hv].
Qed.

(** A known category and a negative sample count: the kernel's [np.zeros]
    raises in the first layer. *)
Lemma get_sound_negative_count_raises eng category v dur r :
  candidates_of eng category <> [] ->
  (py_int (dur * inject_Z (sample_rate eng)) < 0)%Z ->
  get_sound M eng category (Some v) dur r = Raise ValueError.
Proof.
  intros Hc Hn. unfold get_sound. fold (candidates_of eng category).
  destruct (candidates_of eng category) as [|k0 ks] eqn:Ec; [congruence|].
  rewrite <- Ec. unfold num_drummers. cbn [render_layers]. unfold render_layer.
  assert (Hc' : candidates_of eng category <> []) by (rewrite Ec; discriminate).
  destruct (random_choice_in _ r Hc') as (k & -> & Hk). cbn [bind].
  destruct (candidate_in_db _ _ _ Hk) as (sg & Hsg).
  unfold dict_item. rewrite Hsg. cbn [bind].
  unfold np_normal, np_uniform, synthesize_additive. cbn [bind].
  rewrite (np_zeros_negative _ Hn). reflexivity.
Qed.

(** Without variants [get_sound] is [np.zeros] of the sample count. *)
Lemma get_sound_no_variants eng category vel dur r :
  unknown_category eng category ->
  get_sound M eng category vel dur r =
  (z <- np_zeros (py_int (dur * inject_Z (sample_rate eng))) ;; Ok (z, r)).
Proof.
  intro Hu. unfold get_sound. fold (candidates_of eng category).
  now rewrite (unknown_category_no_candidates _ _ Hu).
Qed.

(** X2. The path of [get_sound] for a category with no variant in the
    database: an all-zero buffer of [int(duration * sample_rate)] samples whenever
    [duration * sample_rate > -1] (zero-length strictly between -1 and 1),
    for every velocity; from -1 downwards [ValueError]. *)
Theorem get_sound_unknown_category eng category vel dur r :
  unknown_category eng category ->
  let x := dur * inject_Z (sample_rate eng) in
  (-(1) < x ->
     get_sound M eng category vel dur r = Ok (repeat 0 (Z.to_nat (py_int x)), r)) /\
  (-(1) < x /\ x < 1 -> get_sound M eng category vel dur r = Ok ([], r)) /\
  (x <= -(1) -> get_sound M eng category vel dur r = Raise ValueError).
Proof.
  intros Hu x. rewrite (get_sound_no_variants _ _ _ _ _ Hu). fold x.
  assert (Hpos : -(1) < x -> (0 <= py_int x)%Z).
  { intro Hx. destruct (Z_lt_le_dec (py_int x) 0) as [Hneg | Hok]; [|exact Hok].
    apply py_int_neg_iff in Hneg. exfalso. apply (Qlt_not_le _ _ Hx Hneg). }
  repeat split.
  - intro Hx. now rewrite (np_zeros_ok _ (Hpos Hx)).
  - intros [Hlo Hhi]. rewrite (np_zeros_ok _ (Hpos Hlo)).
    now rewrite (proj2 (py_int_zero_iff x) (conj Hlo Hhi)).
  - intro Hx. apply py_int_neg_iff in Hx. now rewrite (np_zeros_negative _ Hx).
Qed.

End Kernel.

Lemma get_sound_unknown_category_witness :
  get_sound coarse_math empty_engine "THAAM" (Some (8#10)) (1#4410) rng_low
  = Ok (repeat 0 10%nat, rng_low).
Proof.
  refine (proj1 (get_sound_unknown_category coarse_math empty_engine "THAAM"
                   (Some (8#10)) (1#4410) rng_low _) _).
  - intros k sg [].
  - reflexivity.
Defined.

(** C8, the failing inputs.  [get_sound] is not total on durations below one
    sample: on an engine with a positive sample rate, a known category with
    any duration <= 0 raises [ValueError] (from [np.max] of the empty mix at
    sample count 0, from [np.zeros] at a negative count), and an unknown
    category raises it from one sample below zero downwards, instead of
    yielding zero-length output. *)
Theorem get_sound_non_positive_duration_raises (M : PyMath) eng category v dur r :
  (0 < sample_rate eng)%Z ->
  dur <= 0 ->
  (candidates_of eng category <> [] ->
     get_sound M eng category (Some v) dur r = Raise ValueError) /\
  (unknown_category eng category ->
     dur * inject_Z (sample_rate eng) <= -(1) ->
     forall vel, get_sound M eng category vel dur r = Raise ValueError).
Proof.
  intros Hrate Hd. split.
  - intro Hc.
    assert (Hx : dur * inject_Z (sample_rate eng) <= 0).
    { assert (Hr : 0 <= inject_Z (sample_rate eng)).
      { change 0 with (inject_Z 0). rewrite <- Zle_Qle. lia. }
      assert (Hp : 0 <= (- dur) * inject_Z (sample_rate eng))
        by (apply Qmult_le_0_compat; [lra | exact Hr]).
      lra. }
    destruct (Z_lt_le_dec (py_int (dur * inject_Z (sample_rate eng))) 0) as [Hneg | Hge].
    + now apply get_sound_negative_count_raises.
    + apply get_sound_sub_sample_raises; [exact Hc|].
      apply py_int_zero_iff. split.
      * apply Qnot_le_lt. intro Hle. apply py_int_neg_iff in Hle. lia.
      * lra.
  - intros Hu Hx vel. rewrite (get_sound_no_variants M _ _ _ _ _ Hu).
    apply py_int_neg_iff in Hx. now rewrite (np_zeros_negative _ Hx).
Qed.

Lemma get_sound_non_positive_duration_raises_witness :
  get_sound coarse_math demo_engine "THAAM" (Some 1) 0 rng_low = Raise ValueError /\
  get_sound coarse_math empty_engine "THAAM" (Some 1) (-(1)) rng_low = Raise ValueError.
Proof.
  split.
  - refine (proj1 (get_sound_non_positive_duration_raises coarse_math demo_engine
                     "THAAM" 1 0 rng_low _ _) _);
      [reflexivity | discriminate | discriminate].
  - refine (proj2 (get_sound_non_positive_duration_raises coarse_math empty_engine
                     "THAAM" 1 (-(1)) rng_low _ _) _ _ (Some 1));
      [reflexivity | discriminate | intros k sg [] | discriminate].
Defined.

(** C1, the failing input: a known category and a duration of 10
    microseconds.  The four layers are empty, and the peak of the empty mix
    raises [ValueError], whatever the library functions and the draws. *)
Theorem get_sound_ten_microseconds_raises (M : PyMath) (r : Rng) :
  get_sound M demo_engine "THAAM" (Some 1) (1#100000) r = Raise ValueError.
Proof.
  apply get_sound_sub_sample_raises; [discriminate | reflexivity].
Qed.

(** X1. For a duration of at least one sample, on any engine with a
    positive sample rate, known category or not, [get_sound] returns a buffer
    of [int(d * rate)] samples, within one of [round(d * rate)], whose peak
    is at most the velocity; all zeros when the category has no variant. *)
Theorem get_sound_size_and_peak (M : PyMath) eng category v dur r :
  (0 < sample_rate eng)%Z ->
  0 <= v ->
  1 <= dur * inject_Z (sample_rate eng) ->
  exists buf r',
    get_sound M eng category (Some v) dur r = Ok (buf, r') /\
    Z.of_nat (List.length buf) = py_int (dur * inject_Z (sample_rate eng)) /\
    (py_round (dur * inject_Z (sample_rate eng)) - 1
       <= Z.of_nat (List.length buf)
       <= py_round (dur * inject_Z (sample_rate eng)))%Z /\
    max_abs buf <= v /\
    (unknown_category eng category -> Forall (fun s => s = 0) buf).
Proof.
  intros Hrate Hv Hd.
  set (x := dur * inject_Z (sample_rate eng)) in *.
  assert (Hx0 : 0 <= x) by lra.
  pose proof (py_round_near_py_int x Hx0) as Hround.
  assert (Hn : (1 <= py_int x)%Z).
  { rewrite (py_int_nonneg x Hx0).
    change 1%Z with (Qfloor 1). now apply Qfloor_resp_le. }
  destruct (candidates_of eng category) as [|k ks] eqn:Ec.
  - unfold get_sound. fold (candidates_of eng category). rewrite Ec. fold x.
    rewrite np_zeros_ok by lia. cbn [bind].
    eexists. exists r. split; [reflexivity|].
    rewrite repeat_length, Z2Nat.id by lia.
    split; [reflexivity|]. split; [lia|]. split.
    + apply max_abs_le; [exact Hv|].
      intros y Hy. apply repeat_spec in Hy. subst y. exact Hv.
    + intros _. apply Forall_forall. intros y Hy. now apply repeat_spec in Hy.
  - destruct (get_sound_known_category M eng category v dur r) as (buf & r' & Hrun & Hlen & Hpeak);
      [rewrite Ec; discriminate | exact Hn | exact Hv |].
    exists buf, r'. split; [exact Hrun|]. fold x in Hlen.
    rewrite Hlen, Z2Nat.id by lia.
    split; [reflexivity|]. split; [lia|]. split; [exact Hpeak|].
    intro Hu. apply unknown_category_no_candidates in Hu. congruence.
Qed.

Lemma get_sound_size_and_peak_witness :
  exists buf r',
    get_sound coarse_math demo_engine "NAM" (Some (8#10)) (1#11025) rng_low
    = Ok (buf, r') /\
    Z.of_nat (List.length buf) = 4%Z /\ max_abs buf <= 8#10.
Proof.
  destruct (get_sound_size_and_peak coarse_math demo_engine "NAM" (8#10) (1#11025) rng_low)
    as (buf & r' & Hrun & Hlen & _ & Hpeak & _).
  - reflexivity.
  - discriminate.
  - discriminate.
  - exists buf, r'. split; [exact Hrun|]. split; [exact Hlen | exact Hpeak].
Defined.

End SpectralFacts.

(* ------------------------------------------------------------------ *)
(** ** ensemble_mixer.py: NaN in the post-processing chain *)
(* ------------------------------------------------------------------ *)

Module PostFxFacts.

Lemma one_pole_length b a prev x :
  List.length (one_pole b a prev x) = List.length x.
Proof.
  revert prev. induction x as [|s x IH]; intro prev; cbn; [reflexivity|].
  now rewrite IH.
Qed.

Section NaN.
Variable sp : Scipy xfloat.
Variable rate : Z.
(** The filters return as many samples as they are given, as scipy's do. *)
Hypothesis filter_length :
  forall bt wn x, List.length (butter_sosfilt sp bt wn x) = List.length x.

Lemma blend_with_nan (sig filtered : list xfloat) (blend : Q) (i : nat) :
  List.length filtered = List.length sig ->
  nth_error sig i = Some NaN ->
  nth_error (blend_with sig filtered blend) i = Some NaN.
Proof.
  revert filtered i. induction sig as [|x sig IH]; intros [|y filtered] [|i] Hl Hn;
    cbn in *; try discriminate.
  - injection Hn as ->. reflexivity.
  - apply IH; [lia | exact Hn].
Qed.

Lemma wood_character_keeps_nan sig brightness i :
  nth_error sig i = Some NaN ->
  nth_error (_apply_wood_character sp rate sig brightness) i = Some NaN.
Proof.
  intro Hn. unfold _apply_wood_character.
  destruct (Qltb (6 # 10) brightness); [|destruct (Qltb brightness (4 # 10))];
    try exact Hn; apply blend_with_nan; try exact Hn; apply filter_length.
Qed.

Lemma contact_point_keeps_nan sig contact i :
  nth_error sig i = Some NaN ->
  nth_error (apply_contact_point_filtering sp rate sig contact) i = Some NaN.
Proof.
  intro Hn. unfold apply_contact_point_filtering.
  destruct (Qltb (1 # 2) contact); apply blend_with_nan; try exact Hn;
    apply filter_length.
Qed.

(** The pitch bend rewrites the first [int(bend_duration * rate)] samples at
    most; the samples behind them are returned as they came. *)
Lemma pitch_bend_keeps_tail sig bend_amount bend_duration i :
  (py_int (bend_duration * inject_Z rate) <= Z.of_nat i)%Z ->
  nth_error (_apply_pitch_bend sp rate sig bend_amount bend_duration) i
  = nth_error sig i.
Proof.
  intro Hi. unfold _apply_pitch_bend.
  set (n := Z.of_nat (List.length sig)).
  set (bend0 := py_int (bend_duration * inject_Z rate)) in *.
  set (bend_samples := if (n <? bend0)%Z then n else bend0).
  destruct (bend_samples <? 10)%Z eqn:E10; [reflexivity|].
  destruct (Qeq_bool (1 - bend_amount * (1 # 2)) 0); [reflexivity|].
  match goal with
  | |- context [if Qltb ?a ?b then _ else _] => destruct (Qltb a b)
  end; [|reflexivity].
  match goal with
  | |- context [(List.length ?bent =? ?k)%nat] =>
      destruct (List.length bent =? k)%nat eqn:Ek; [|reflexivity];
      apply Nat.eqb_eq in Ek
  end.
  assert (Hk : (Z.to_nat bend_samples <= i)%nat).
  { unfold bend_samples. destruct (n <? bend0)%Z eqn:En.
    - apply Z.ltb_lt in En. lia.
    - lia. }
  rewrite nth_error_app2 by lia. rewrite Ek.
  rewrite nth_error_skipn. f_equal. lia.
Qed.

(** C9, where the code fails it.  No stage of the post-processing chain
    replaces a buffer that holds a NaN with silence: a NaN sample entering
    wood-character filtering or contact-point filtering is a NaN at the same
    index of the stage's output, the pitch bend returns a NaN behind the bent
    portion as it came, and the whole chain [_apply_material_effects] returns
    a buffer that still holds the NaN (so is not silence) whenever the pitch
    bend is skipped or the NaN lies behind the bent portion. *)
Theorem nan_survives_post_processing (sig : list xfloat) (i : nat) :
  nth_error sig i = Some NaN ->
  (forall brightness,
      nth_error (_apply_wood_character sp rate sig brightness) i = Some NaN) /\
  (forall contact,
      nth_error (apply_contact_point_filtering sp rate sig contact) i = Some NaN) /\
  (forall bend dur,
      (py_int (dur * inject_Z rate) <= Z.of_nat i)%Z ->
      nth_error (_apply_pitch_bend sp rate sig bend dur) i = Some NaN) /\
  (forall bend dur contact wood,
      bend <= 1#100 \/ (py_int (dur * inject_Z rate) <= Z.of_nat i)%Z ->
      let out := _apply_material_effects sp rate sig bend dur contact wood in
      nth_error out i = Some NaN /\ has_nan out /\ ~ is_silence out).
Proof.
  intro Hn. split; [|split; [|split]].
  - intro b. now apply wood_character_keeps_nan.
  - intro c. now apply contact_point_keeps_nan.
  - intros bend dur Hi. now rewrite pitch_bend_keeps_tail.
  - intros bend dur contact wood Hcase out.
    assert (Hout : nth_error out i = Some NaN).
    { unfold out, _apply_material_effects.
      apply contact_point_keeps_nan, wood_character_keeps_nan.
      destruct (Qltb (1 # 100) bend) eqn:Eb; [|exact Hn].
      destruct Hcase as [Hsmall | Htail].
      - apply Qltb_lt in Eb. exfalso. apply (Qlt_not_le _ _ Eb Hsmall).
      - now rewrite pitch_bend_keeps_tail. }
    split; [exact Hout|].
    assert (Hin : In NaN out) by (eapply nth_error_In; exact Hout).
    split; [exact Hin|].
    intro Hs. unfold is_silence in Hs. rewrite Forall_forall in Hs.
    exact (Hs NaN Hin).
Qed.

End NaN.

Lemma nan_survives_post_processing_witness :
  nth_error
    (_apply_material_effects sample_scipy 44100 [Fin 1; NaN; Fin (1#2)]
       (5#100) (1#44100) (7#10) (mkWood "Jackwood (Varikka)" 720 (98#10) (15#100) 3800 65))
    1 = Some NaN.
Proof.
  refine (proj1 (proj2 (proj2 (proj2
            (nan_survives_post_processing sample_scipy 44100 _
               [Fin 1; NaN; Fin (1#2)] 1%nat _))) (5#100) (1#44100) (7#10) _ _)).
  - intros bt wn x. apply one_pole_length.
  - reflexivity.
  - right. vm_compute. discriminate.
Defined.

(** A buffer with a NaN goes through the chain (bright wood, centre hit, no
    pitch bend) and comes out with the NaN, not as silence; through the
    neutral branch of the wood filter it comes out unchanged. *)
Lemma nan_passes_material_effects :
  nth_error
    (_apply_material_effects sample_scipy 44100 [Fin 1; NaN; Fin (1#2)]
       0 0 (7#10) (mkWood "Jackwood (Varikka)" 720 (98#10) (15#100) 3800 65))
    1 = Some NaN /\
  _apply_wood_character sample_scipy 44100 [Fin 1; NaN; Fin (1#2)] (1#2)
  = [Fin 1; NaN; Fin (1#2)].
Proof. split; reflexivity. Qed.

End PostFxFacts.

(* ------------------------------------------------------------------ *)
(** ** ensemble_mixer.py: rests, solo and mastering *)
(* ------------------------------------------------------------------ *)

Module MixerFacts.
Import OrchestrationFacts UnisonFacts.

Lemma bind_ok {A : Type} (m : result A) : (x <- m ;; Ok x) = m.
Proof. now destruct m. Qed.

Section Render.
Variable M : PyMath.
Variable sp : Scipy Q.
Variable prof :
  StickProperties -> MembraneProperties -> Q -> Q -> Z -> Rng ->
  result (StrikeProfile * Rng).
Variable rate : Z.
Variable eng : SpectralEngine.
Variable heap : MembraneHeap.

(** A rest leaves the track and the random source as they are. *)
Lemma render_event_rest player n e s :
  is_rest e = true -> render_event M sp prof rate eng heap player n e s = Ok s.
Proof.
  intro He. unfold render_event. destruct s as [track r]. now rewrite He.
Qed.

Lemma render_track_skips_rests player events dur r :
  _render_player_track M sp prof rate eng heap player events dur r =
  _render_player_track M sp prof rate eng heap player (non_rests events) dur r.
Proof.
  unfold _render_player_track.
  destruct (np_zeros (py_int (dur * inject_Z rate))) as [track|]; cbn [bind]; [|reflexivity].
  generalize (track, r) as s.
  induction events as [|e events IH]; intro s; cbn [non_rests filter for_each];
    [reflexivity|].
  destruct (is_rest e) eqn:He; cbn [negb].
  - rewrite (render_event_rest _ _ _ _ He). cbn [bind]. apply IH.
  - cbn [for_each].
    destruct (render_event M sp prof rate eng heap player
                (py_int (dur * inject_Z rate)) e s); cbn [bind]; [apply IH | reflexivity].
Qed.

(** A loop whose body does nothing on every item but one. *)
Lemma for_each_all_skipped {A St : Type} (body : A -> St -> result St) l s :
  (forall y t, In y l -> body y t = Ok t) -> for_each body l s = Ok s.
Proof.
  induction l as [|y l IH]; intro Hskip; cbn; [reflexivity|].
  rewrite Hskip by now left. cbn. apply IH. intros z t Hz. apply Hskip. now right.
Qed.

Lemma for_each_single {V St : Type} (body : string * V -> St -> result St)
    (items : dict V) (x : string * V) (s : St) :
  NoDup (dict_keys items) -> In x items ->
  (forall y t, In y items -> fst y <> fst x -> body y t = Ok t) ->
  for_each body items s = body x s.
Proof.
  unfold dict_keys. induction items as [|y items IH]; intros Hnd Hin Hskip; [destruct Hin|].
  cbn [map] in Hnd. inversion Hnd as [|? ? Hnotin Hnd']; subst.
  cbn [for_each]. destruct Hin as [-> | Hin].
  - destruct (body x s) as [s1|]; cbn [bind]; [|reflexivity].
    apply for_each_all_skipped. intros z t Hz. apply Hskip; [now right|].
    intro Heq. apply Hnotin. rewrite <- Heq. now apply in_map.
  - assert (Hy : fst y <> fst x).
    { intro Heq. apply Hnotin. rewrite Heq. now apply in_map. }
    rewrite (Hskip y s (or_introl eq_refl) Hy). cbn [bind].
    apply IH; [exact Hnd' | exact Hin |].
    intros z t Hz. apply Hskip. now right.
Qed.

Lemma all_player_events_nodup pat : NoDup (dict_keys (get_all_player_events pat)).
Proof.
  unfold get_all_player_events. repeat apply dict_update_nodup. constructor.
Qed.

Lemma solo_active_of_key ens all_events sid s :
  In sid (dict_keys all_events) -> get_player ens sid = Some s -> solo s = true ->
  solo_active_of ens all_events = true.
Proof.
  intros Hin Hs Hsolo. unfold solo_active_of. apply existsb_exists.
  exists sid. split; [exact Hin|]. now rewrite Hs.
Qed.

(** X29 (ensemble_mixer.py, render_ensemble).  When exactly one player of the
    ensemble has solo set, that player has an entry in the orchestrated
    pattern and every player of the pattern is in the ensemble,
    [render_ensemble] gives the same result (master buffer, stems and random
    source, or exception) as on the pattern that holds this player's events
    alone. *)
Theorem solo_renders_that_player_alone ens pattern sid s dur
    (enable_spatial return_stems : bool) r :
  get_player ens sid = Some s ->
  solo s = true ->
  (forall pid p, get_player ens pid = Some p -> solo p = true -> pid = sid) ->
  In sid (dict_keys (get_all_player_events pattern)) ->
  (forall pid evs, In (pid, evs) (get_all_player_events pattern) ->
                   evs <> [] -> get_player ens pid <> None) ->
  render_ensemble M sp prof rate eng heap ens pattern dur enable_spatial return_stems r =
  render_ensemble M sp prof rate eng heap ens (only_player pattern sid) dur
    enable_spatial return_stems r.
Proof.
  intros Hs Hsolo Hone Hkey Hknown.
  pose proof (all_player_events_nodup pattern) as Hnd.
  destruct (dict_get (get_all_player_events pattern) sid) as [evs|] eqn:Hevs;
    [|exfalso; exact (proj1 (dict_get_none_keys _ _) Hevs Hkey)].
  unfold render_ensemble, only_player. rewrite Hevs.
  destruct (np_zeros (py_int (dur * inject_Z rate))) as [zeros|]; cbn [bind]; [|reflexivity].
  rewrite (solo_active_of_key ens _ sid s Hkey Hs Hsolo).
  change (get_all_player_events (mkPattern [(sid, evs)] [] [])) with [(sid, evs)].
  assert (Hsolo1 : solo_active_of ens [(sid, evs)] = true).
  { unfold solo_active_of. cbn. now rewrite Hs, Hsolo. }
  rewrite Hsolo1.
  rewrite (for_each_single _ (get_all_player_events pattern) (sid, evs));
    [ cbn [for_each]; now rewrite bind_ok
    | exact Hnd
    | now apply dict_get_in
    | ].
  intros [pid evs'] t Hin Hne. cbn [fst] in Hne.
  unfold render_player.
  destruct evs' as [|e evs']; [reflexivity|].
  destruct (get_player ens pid) as [p|] eqn:Hp;
    [|exfalso; apply (Hknown pid (e :: evs') Hin); [discriminate | exact Hp]].
  destruct (solo p) eqn:Hps; [exfalso; apply Hne; exact (Hone pid p Hp Hps)|].
  cbn [negb]. now destruct (mute p).
Qed.


End Render.

End MixerFacts.

Module RenderFacts.
Import OrchestrationFacts MixerFacts.

(** C2. A rest is never assigned and never rendered: under each of the five
    strategies no list of the orchestrated pattern holds an event of
    category REST, and the mixer renders a player's track as if the rests
    were not in the list, neither writing to the track nor drawing from the
    random source for them. *)
Theorem rest_never_assigned_nor_rendered :
  (forall ens events strategy r pat r',
      orchestrate_sequence ens events strategy r = Ok (pat, r') ->
      forall pid l e,
        In (pid, l) (get_all_player_events pat) -> In e l ->
        sound_category e <> "REST"%string) /\
  (forall M sp prof rate eng heap player events dur r,
      _render_player_track M sp prof rate eng heap player events dur r =
      _render_player_track M sp prof rate eng heap player
        (filter (fun e => negb (is_rest e)) events) dur r).
Proof.
  split.
  - exact orchestrate_sequence_rest_free.
  - intros. apply render_track_skips_rests.
Qed.

Lemma rest_never_assigned_nor_rendered_witness :
  exists pat r',
    orchestrate_sequence standard_melam demo_events LAYERED rng_mid = Ok (pat, r') /\
    forall pid l e,
      In (pid, l) (get_all_player_events pat) -> In e l ->
      sound_category e <> "REST"%string.
Proof.
  eexists. eexists. split.
  - vm_compute. reflexivity.
  - eapply (proj1 rest_never_assigned_nor_rendered standard_melam demo_events LAYERED rng_mid).
    vm_compute. reflexivity.
Defined.

Lemma solo_renders_that_player_alone_witness :
  render_ensemble coarse_math plain_scipy plain_profile 44100 demo_engine
    initial_membranes soloed_cymbal_and_wind cymbal_and_wind_pattern
    (1#11025) false true rng_low =
  render_ensemble coarse_math plain_scipy plain_profile 44100 demo_engine
    initial_membranes soloed_cymbal_and_wind
    (only_player cymbal_and_wind_pattern "P4") (1#11025) false true rng_low.
Proof.
  refine (solo_renders_that_player_alone coarse_math plain_scipy plain_profile 44100
            demo_engine initial_membranes soloed_cymbal_and_wind cymbal_and_wind_pattern
            "P4" _ (1#11025) false true rng_low eq_refl eq_refl _ _ _).
  - intros pid p. unfold get_player. cbn.
    destruct (String.eqb pid "P4") eqn:E4; [intros; now apply String.eqb_eq|].
    destruct (String.eqb pid "P6"); [|discriminate].
    intro Hp. injection Hp as <-. discriminate.
  - cbn. now left.
  - intros pid evs Hin _. cbn in Hin.
    destruct Hin as [Hin | [Hin | []]]; injection Hin as <- <-; discriminate.
Defined.

(** C5.  The solo of a player without an entry in the pattern is ignored:
    [render_ensemble] looks for soloed players among the keys of the pattern
    only, not among the players of the ensemble.  With the solo on the wind
    player alone (to whom no strategy gives a list) the cymbal player, not
    soloed, is still rendered: the master has a non-zero sample, while the
    pattern of the soloed player's own events renders to silence. *)
Theorem solo_of_absent_player_is_ignored :
  map (fun kv => (fst kv, solo (snd kv))) (players cymbal_and_soloed_wind)
  = [("P4"%string, false); ("P6"%string, true)] /\
  (exists m st r',
      render_ensemble coarse_math plain_scipy plain_profile 44100 demo_engine
        initial_membranes cymbal_and_soloed_wind cymbal_only_pattern
        (1#11025) false false rng_low = Ok (Mono m, st, r') /\
      0 < max_abs m) /\
  render_ensemble coarse_math plain_scipy plain_profile 44100 demo_engine
    initial_membranes cymbal_and_soloed_wind
    (only_player cymbal_only_pattern "P6") (1#11025) false false rng_low
  = Ok (Mono [0; 0; 0; 0], [], rng_low).
Proof.
  split; [reflexivity|]. split.
  - do 3 eexists. split; vm_compute; reflexivity.
  - vm_compute. reflexivity.
Qed.


End RenderFacts.

(* ================================================================== *)
(** * Part III: further properties of the sources *)
(* ================================================================== *)

(* ------------------------------------------------------------------ *)
(** ** player_system.py and orchestration_engine.py: one assigned event *)
(* ------------------------------------------------------------------ *)

Module AssignFacts.
Import OrchestrationFacts.

Lemma np_clip_bounds (x lo hi : Q) :
  lo <= hi -> lo <= np_clip x lo hi /\ np_clip x lo hi <= hi.
Proof.
  intro Hlh. unfold np_clip.
  destruct (Qltb x lo) eqn:E1.
  - destruct (Qltb hi lo) eqn:E2.
    + apply Qltb_lt in E2. exfalso. apply (Qlt_not_le _ _ E2 Hlh).
    + split; [apply Qle_refl | exact Hlh].
  - apply Qltb_ge in E1. destruct (Qltb hi x) eqn:E2.
    + split; [exact Hlh | apply Qle_refl].
    + apply Qltb_ge in E2. split; assumption.
Qed.

Lemma np_clip_inside (x lo hi : Q) :
  lo <= x -> x <= hi -> np_clip x lo hi = x.
Proof.
  intros Hlo Hhi. unfold np_clip.
  rewrite (proj2 (Qltb_ge x lo) Hlo). now rewrite (proj2 (Qltb_ge hi x) Hhi).
Qed.

Lemma velocity_is_clipped (p : Player) (intensity : Q) (r : Rng) :
  0 <= fst (get_velocity_for_intensity p intensity r) /\
  fst (get_velocity_for_intensity p intensity r) <= 1.
Proof.
  unfold get_velocity_for_intensity, np_normal.
  destruct (dynamic_range p) as [lo hi]. cbn [fst].
  apply np_clip_bounds. discriminate.
Qed.

(** X3. [get_velocity_for_intensity] never leaves [0, 1], whatever the
    dynamic range, the intensity and the noise; and when the noise term is
    zero and the intensity lies in [0, 1], the velocity lies in the player's
    dynamic range (taken inside [0, 1]). *)
Theorem velocity_for_intensity_range (p : Player) (intensity : Q) (r : Rng) :
  let v := fst (get_velocity_for_intensity p intensity r) in
  (0 <= v /\ v <= 1) /\
  (0 <= fst (dynamic_range p) -> fst (dynamic_range p) <= snd (dynamic_range p) ->
   snd (dynamic_range p) <= 1 ->
   0 <= intensity -> intensity <= 1 ->
   (1 - skill_level p) * (5#100) * gauss_draws r (cursor r) == 0 ->
   fst (dynamic_range p) <= v /\ v <= snd (dynamic_range p)).
Proof.
  unfold get_velocity_for_intensity, np_normal.
  destruct (dynamic_range p) as [lo hi]. cbn [fst snd]. split.
  - apply np_clip_bounds. discriminate.
  - intros Hlo Hlh Hhi Hi0 Hi1 Hz.
    assert (Hp : 0 <= intensity * (hi - lo)) by (apply Qmult_le_0_compat; lra).
    assert (Hq : 0 <= (1 - intensity) * (hi - lo)) by (apply Qmult_le_0_compat; lra).
    rewrite np_clip_inside; lra.
Qed.

Lemma velocity_for_intensity_range_witness :
  6#10 <= fst (get_velocity_for_intensity
                 (new_player "P1" "Lead Player" CHENDA_LEAD CHENDA INone
                    (mkTiming (95#100) (2#100) 0) (95#100) (6#10, 1) (-(3#10), 0, 1))
                 1 rng_low).
Proof.
  set (p := new_player _ _ _ _ _ _ _ _ _).
  change (fst (dynamic_range p) <= fst (get_velocity_for_intensity p 1 rng_low)).
  refine (proj1 (proj2 (velocity_for_intensity_range p 1 rng_low) _ _ _ _ _ _));
    cbn; first [discriminate | reflexivity].
Defined.

(** X4. The assigned copy of an event: the velocity lies in [0, 1], the
    contact point in [0.6, 0.9) for an intensity above 0.7 and in [0.3, 0.6)
    otherwise, the score (stroke type, category, intensity, duration) is the
    event's, the player is recorded, and exactly three draws are consumed. *)
Theorem assigned_event_parameters (e : StrokeEvent) (p : Player) (r : Rng) :
  unit_range r ->
  let a := fst (_assign_event_to_player e p r) in
  let r' := snd (_assign_event_to_player e p r) in
  (exists v, velocity a = Some v /\ 0 <= v /\ v <= 1) /\
  (exists c, contact_point a = Some c /\
             if Qltb (7#10) (intensity e)
             then 6#10 <= c /\ c < 9#10
             else 3#10 <= c /\ c < 6#10) /\
  score_of a = score_of e /\
  assigned_player a = Some (id p) /\
  cursor r' = (cursor r + 3)%nat.
Proof.
  intros Hr a r'. subst a r'.
  pose proof (velocity_is_clipped p (intensity e) r) as Hv.
  unfold _assign_event_to_player.
  destruct (get_velocity_for_intensity p (intensity e) r) as [v r1] eqn:Ev.
  assert (Hc1 : cursor r1 = S (cursor r)).
  { unfold get_velocity_for_intensity, np_normal in Ev.
    destruct (dynamic_range p). injection Ev as _ <-. reflexivity. }
  assert (Hu1 : forall n, 0 <= unit_draws r1 n /\ unit_draws r1 n < 1).
  { unfold get_velocity_for_intensity, np_normal in Ev.
    destruct (dynamic_range p). injection Ev as _ <-. exact Hr. }
  cbn [fst] in Hv.
  unfold get_timing_offset, np_normal, np_uniform. cbn [advance cursor unit_draws].
  destruct (Qltb (7 # 10) (intensity e)); cbn [fst snd velocity contact_point
    assigned_player cursor].
  all: split; [exists v; split; [reflexivity | exact Hv]|].
  all: split; [eexists; split; [reflexivity|]|].
  all: try (split; [reflexivity | split; [reflexivity | cbn [cursor advance]; lia]]).
  - destruct (Hu1 (S (cursor r1))) as [H0 H1].
    assert (Hp : 0 <= (3#10) * unit_draws r1 (S (cursor r1)))
      by (apply Qmult_le_0_compat; [discriminate | exact H0]).
    split; lra.
  - destruct (Hu1 (S (cursor r1))) as [H0 H1].
    assert (Hp : 0 <= (3#10) * unit_draws r1 (S (cursor r1)))
      by (apply Qmult_le_0_compat; [discriminate | exact H0]).
    split; lra.
Qed.

Lemma assigned_event_parameters_witness :
  exists c, contact_point (fst (_assign_event_to_player dheem (create_kombu "P6") rng_mid))
            = Some c /\ 6#10 <= c /\ c < 9#10.
Proof.
  destruct (assigned_event_parameters dheem (create_kombu "P6") rng_mid) as (_ & Hc & _).
  - intro n. cbn. split; [discriminate | reflexivity].
  - exact Hc.
Defined.

(** X5. The complexity of a pattern is a number of [0, 1], and it is zero
    for the empty pattern and for a pattern of rests. *)
Theorem pattern_complexity_range (events : list StrokeEvent) :
  (0 <= _analyze_pattern_complexity events /\ _analyze_pattern_complexity events <= 1) /\
  (non_rests events = [] -> _analyze_pattern_complexity events == 0).
Proof.
  unfold _analyze_pattern_complexity, non_rests. split.
  - destruct events; [split; discriminate | apply np_clip_bounds; discriminate].
  - intro Hnr. destruct events as [|e events]; [reflexivity|].
    rewrite Hnr. cbn [map List.length].
    rewrite np_clip_inside.
    + unfold Qdiv. change (inject_Z (Z.of_nat 0)) with 0. ring.
    + unfold Qdiv. change (inject_Z (Z.of_nat 0)) with 0. ring_simplify. discriminate.
    + unfold Qdiv. change (inject_Z (Z.of_nat 0)) with 0. ring_simplify. discriminate.
Qed.

Lemma pattern_complexity_range_witness :
  _analyze_pattern_complexity [stroke 0 "." "REST" 0; stroke 1 "." "REST" 0] == 0.
Proof.
  exact (proj2 (pattern_complexity_range
                  [stroke 0 "." "REST" 0; stroke 1 "." "REST" 0]) eq_refl).
Defined.

(** X6. The traditional selection returns one of the three players it is
    given, and a down-beat event (position a multiple of 4) of intensity
    below 0.6 goes to the rhythm player. *)
Theorem traditional_selection_cases (event : StrokeEvent) (position : nat)
    (complexity : Q) (lead rhythm accent : Player) :
  let chosen := _select_player_traditional event position complexity lead rhythm accent in
  (chosen = lead \/ chosen = rhythm \/ chosen = accent) /\
  ((position mod 4 = 0)%nat -> intensity event < 6#10 -> chosen = rhythm).
Proof.
  unfold _select_player_traditional. split.
  - destruct (Qltb (8 # 10) (intensity event)).
    + destruct (existsb _ _); auto.
    + destruct ((position mod 4 =? 0)%nat && Qltb (intensity event) (6 # 10)); auto.
      destruct (Qltb (7 # 10) complexity); auto.
      pose proof (Nat.mod_upper_bound position 3) as Hb.
      destruct (position mod 3)%nat as [|[|[|n]]]; cbn; auto. lia.
  - intros Hpos Hlow.
    assert (Hhigh : Qltb (8 # 10) (intensity event) = false) by (apply Qltb_ge; lra).
    rewrite Hhigh, Hpos. cbn [Nat.eqb andb].
    now rewrite (proj2 (Qltb_lt _ _) Hlow).
Qed.

Lemma traditional_selection_cases_witness :
  _select_player_traditional (stroke 0 "Ta" "THAAM" (5#10)) 4 (1#2)
    (create_kombu "L") (create_kombu "R") (create_kombu "A") = create_kombu "R".
Proof.
  refine (proj2 (traditional_selection_cases _ 4 (1#2) _ _ _) _ _); reflexivity.
Defined.

End AssignFacts.

(* ------------------------------------------------------------------ *)
(** ** orchestration_engine.py: the strategies as a whole *)
(* ------------------------------------------------------------------ *)

Module StrategyFacts.
Import DictFacts OrchestrationFacts TraditionalFacts UnisonFacts AssignFacts.

(** A loop whose body succeeds under an invariant succeeds, and keeps it. *)
Lemma for_enumerate_total {A St : Type} (body : nat -> A -> St -> result St)
    (Inv : nat -> St -> Prop) (events : list A) :
  forall i0,
    (forall j e s, nth_error events j = Some e -> Inv (i0 + j)%nat s ->
                   exists s', body (i0 + j)%nat e s = Ok s' /\ Inv (i0 + S j)%nat s') ->
    forall s, Inv i0 s ->
              exists s', for_enumerate body i0 events s = Ok s' /\
                         Inv (i0 + List.length events)%nat s'.
Proof.
  induction events as [|e events IH]; intros i0 Hstep s Hs; cbn [for_enumerate List.length].
  - exists s. rewrite Nat.add_0_r. split; [reflexivity | exact Hs].
  - destruct (Hstep 0%nat e s eq_refl) as (s1 & Hb & Hs1);
      [now rewrite Nat.add_0_r|].
    rewrite Nat.add_0_r in Hb. rewrite Hb. cbn [bind].
    replace (i0 + 1)%nat with (S i0) in Hs1 by lia.
    destruct (IH (S i0)) with (s := s1) as (s' & Hrun & Hs'); [|exact Hs1|].
    + intros j e' s2 Hn Hi.
      replace (S i0 + j)%nat with (i0 + S j)%nat in * by lia.
      destruct (Hstep (S j) e' s2 Hn Hi) as (s3 & Hb3 & Hs3).
      exists s3. split; [exact Hb3|].
      now replace (S i0 + S j)%nat with (i0 + S (S j))%nat by lia.
    + exists s'. split; [exact Hrun|].
      now replace (i0 + S (List.length events))%nat
        with (S i0 + List.length events)%nat by lia.
Qed.

Lemma firstn_succ_nth {A : Type} (l : list A) (j : nat) (e : A) :
  nth_error l j = Some e -> firstn (S j) l = firstn j l ++ [e].
Proof.
  revert j. induction l as [|x l IH]; intros [|j] Hn; cbn in *; try discriminate.
  - now injection Hn as ->.
  - f_equal. now apply IH.
Qed.

Lemma non_rests_snoc (done : list StrokeEvent) (e : StrokeEvent) :
  non_rests (done ++ [e]) =
  if is_rest e then non_rests done else non_rests done ++ [e].
Proof.
  unfold non_rests. rewrite filter_app. cbn.
  destruct (is_rest e); cbn; [apply app_nil_r | reflexivity].
Qed.

Lemma total_events_cons (d : dict (list StrokeEvent)) k l :
  total_events ((k, l) :: d) = (List.length l + total_events d)%nat.
Proof. reflexivity. Qed.

Lemma total_events_set (d : dict (list StrokeEvent)) k l v :
  dict_get d k = Some l ->
  (total_events (dict_set d k v) + List.length l = total_events d + List.length v)%nat.
Proof.
  induction d as [|[k' l'] d IH]; cbn [dict_get dict_set]; [discriminate|].
  destruct (String.eqb k k') eqn:E.
  - intro Hl. injection Hl as ->. rewrite !total_events_cons. lia.
  - intro Hl. specialize (IH Hl). rewrite !total_events_cons. lia.
Qed.

Lemma total_events_set_new (d : dict (list StrokeEvent)) k :
  dict_get d k = None -> total_events (dict_set d k []) = total_events d.
Proof.
  induction d as [|[k' l'] d IH]; cbn [dict_get dict_set]; [reflexivity|].
  destruct (String.eqb k k'); [discriminate|].
  intro Hl. rewrite !total_events_cons, (IH Hl). reflexivity.
Qed.

Lemma total_events_init ids :
  total_events (init_lists ids []) = 0%nat.
Proof.
  assert (H : forall d, total_events d = 0%nat ->
                        total_events (init_lists ids d) = 0%nat).
  { unfold init_lists. induction ids as [|k ids IH]; intros d Hd; cbn [fold_left];
      [exact Hd|].
    apply IH. destruct (dict_get d k) as [l|] eqn:E.
    - pose proof (total_events_set d k l [] E) as Ht. cbn [List.length] in Ht. lia.
    - now rewrite total_events_set_new. }
  now apply H.
Qed.

(** Appending to a list that is there: one more event in all, no key lost. *)
Lemma dict_append_grows (d : dict (list StrokeEvent)) k x :
  dict_get d k <> None ->
  exists d', dict_append d k x = Ok d' /\
             total_events d' = S (total_events d) /\
             load_of d' k = S (load_of d k) /\
             (forall k', k' <> k -> dict_get d' k' = dict_get d k') /\
             (forall k', dict_get d k' <> None -> dict_get d' k' <> None).
Proof.
  intro Hk. destruct (dict_append_total d k x Hk) as (l & Hl & ->).
  eexists. split; [reflexivity|]. split; [|split; [|split]].
  - pose proof (total_events_set d k l (l ++ [x]) Hl) as Ht.
    rewrite length_app in Ht. cbn in Ht. lia.
  - unfold load_of. rewrite dict_get_set_same, Hl, length_app. cbn. lia.
  - intros k' Hne. apply dict_get_set_other. congruence.
  - intros k' Hk'. now apply dict_set_keeps_keys.
Qed.

Lemma first_by_role_none ens rl :
  get_players_by_role ens rl = [] -> first_by_role ens rl = Raise IndexError.
Proof. unfold first_by_role. now intros ->. Qed.

Lemma select_one_of_three event position complexity lead rhythm accent :
  In (_select_player_traditional event position complexity lead rhythm accent)
     [lead; rhythm; accent].
Proof.
  unfold _select_player_traditional.
  destruct (Qltb (8 # 10) (intensity event)).
  - destruct (existsb _ _); cbn [In]; auto.
  - destruct ((position mod 4 =? 0)%nat && Qltb (intensity event) (6 # 10));
      cbn [In]; auto.
    destruct (Qltb (7 # 10) complexity); cbn [In]; auto.
    pose proof (Nat.mod_upper_bound position 3) as Hb.
    destruct (position mod 3)%nat as [|[|[|n]]]; cbn [In nth]; auto. lia.
Qed.

Lemma one_each_start chenda_ids cymbal_ids events r :
  one_each chenda_ids cymbal_ids events 0
    (mkPattern (init_lists chenda_ids []) (init_lists cymbal_ids []) [], r).
Proof.
  repeat split; cbn.
  - intros k Hk. rewrite init_lists_get by now left. discriminate.
  - intros k Hk. rewrite init_lists_get by now left. discriminate.
  - apply total_events_init.
Qed.

(** The step shared by the strategies that give an event to one player. *)
Lemma one_each_step chenda_ids cymbal_ids events j e pat r p (hits : bool) cymbals :
  nth_error events j = Some e -> is_rest e = false ->
  one_each chenda_ids cymbal_ids events j (pat, r) ->
  In (id p) chenda_ids ->
  (forall c, In c cymbals -> In (id c) cymbal_ids) ->
  exists s',
    (let '(a, r1) := _assign_event_to_player e p r in
     d <- dict_append (chenda_events pat) (id p) a ;;
     if hits then _add_cymbal_events (time e) cymbals (set_chenda pat d, r1)
     else Ok (set_chenda pat d, r1)) = Ok s' /\
    one_each chenda_ids cymbal_ids events (S j) s' /\
    (hits = false -> cymbal_events (fst s') = cymbal_events pat) /\
    dict_append (chenda_events pat) (id p) (fst (_assign_event_to_player e p r))
    = Ok (chenda_events (fst s')).
Proof.
  intros Hn He (Hch & Hcy & Ht) Hp Hcs. cbn [fst] in *.
  destruct (_assign_event_to_player e p r) as [a r1]. cbn [fst].
  destruct (dict_append_grows (chenda_events pat) (id p) a (Hch _ Hp))
    as (d & Happ & Htot & _ & _ & Hkeep).
  rewrite Happ. cbn [bind].
  assert (Hlen : S (total_events (chenda_events pat)) =
                 List.length (non_rests (firstn (S j) events))).
  { rewrite (firstn_succ_nth _ _ _ Hn), non_rests_snoc, He, length_app, Ht. cbn. lia. }
  destruct hits.
  - destruct (add_cymbal_events_total (time e) cymbals cymbal_ids (set_chenda pat d) r1)
      as (pat' & r' & -> & Hsame & Hpres); [exact Hcy | exact Hcs |].
    eexists. split; [reflexivity|].
    split; [|split; [discriminate | cbn [fst]; now rewrite Hsame]].
    repeat split; cbn [fst].
    + rewrite Hsame. intros k Hk. apply Hkeep. now apply Hch.
    + exact Hpres.
    + rewrite Hsame. cbn [set_chenda chenda_events]. rewrite Htot. exact Hlen.
  - eexists. split; [reflexivity|].
    split; [|split; reflexivity].
    repeat split; cbn [fst set_chenda chenda_events cymbal_events].
    + intros k Hk. apply Hkeep. now apply Hch.
    + exact Hcy.
    + rewrite Htot. exact Hlen.
Qed.

Lemma one_each_rest chenda_ids cymbal_ids events j e s :
  nth_error events j = Some e -> is_rest e = true ->
  one_each chenda_ids cymbal_ids events j s ->
  one_each chenda_ids cymbal_ids events (S j) s.
Proof.
  intros Hn He (Hch & Hcy & Ht). repeat split; try assumption.
  now rewrite (firstn_succ_nth _ _ _ Hn), non_rests_snoc, He.
Qed.

Lemma init_lists_all_empty ids : all_empty (init_lists ids []).
Proof.
  assert (H : forall d, all_empty d -> all_empty (init_lists ids d)).
  { unfold init_lists, all_empty. induction ids as [|k ids IH]; intros d Hd;
      cbn [fold_left]; [exact Hd|].
    apply IH. now apply all_values_set. }
  apply H. constructor.
Qed.

Lemma labelled_snoc owner i (l : list StrokeEvent) e :
  labelled owner i (l ++ [e]) = labelled owner i l ++ [(owner (i + List.length l)%nat e, e)].
Proof.
  revert i. induction l as [|x l IH]; intro i; cbn [app labelled List.length].
  - now rewrite Nat.add_0_r.
  - rewrite IH. now replace (S i + List.length l)%nat with (i + S (List.length l))%nat by lia.
Qed.

Lemma labelled_step owner (events : list StrokeEvent) j e :
  nth_error events j = Some e ->
  labelled owner 0 (firstn (S j) events)
  = labelled owner 0 (firstn j events) ++ [(owner j e, e)].
Proof.
  intro Hn. rewrite (firstn_succ_nth _ _ _ Hn), labelled_snoc.
  assert (Hj : (j < List.length events)%nat) by (apply nth_error_Some; congruence).
  rewrite length_firstn. now replace (0 + Nat.min j (List.length events))%nat with j by lia.
Qed.

Lemma labelled_events owner i (events : list StrokeEvent) :
  map snd (labelled owner i events) = events.
Proof.
  revert i. induction events as [|e events IH]; intro i; cbn; [reflexivity|].
  now rewrite IH.
Qed.

Lemma labelled_owners owner (ids : list string) (events : list StrokeEvent) i :
  (forall j e, In (owner j e) ids) ->
  Forall (fun oe => In (fst oe) ids) (labelled owner i events).
Proof.
  intro Hown. revert i. induction events as [|e events IH]; intro i; cbn;
    constructor; [apply Hown | apply IH].
Qed.

Lemma share_snoc k assigned o e :
  share k (assigned ++ [(o, e)]) =
  share k assigned ++ (if negb (is_rest e) && String.eqb o k then [e] else []).
Proof.
  unfold share. rewrite filter_app, map_app. cbn [filter fst snd].
  now destruct (negb (is_rest e) && String.eqb o k).
Qed.

Lemma spread_start ids : spread ids [] (init_lists ids []).
Proof.
  intros k Hk. exists []. split; [|split; [reflexivity | constructor]].
  apply init_lists_get. now left.
Qed.

Lemma spread_rest ids assigned d o e :
  is_rest e = true -> spread ids assigned d -> spread ids (assigned ++ [(o, e)]) d.
Proof.
  intros He Hs k Hk. rewrite share_snoc, He. cbn [negb andb]. rewrite app_nil_r.
  now apply Hs.
Qed.

(** The list of the chosen player grows by the assigned copy of the event,
    the others stay. *)
Lemma spread_step ids assigned d d' e p r :
  is_rest e = false -> spread ids assigned d ->
  dict_append d (id p) (fst (_assign_event_to_player e p r)) = Ok d' ->
  spread ids (assigned ++ [(id p, e)]) d'.
Proof.
  intros He Hs Happ k Hk. rewrite share_snoc, He. cbn [negb andb].
  destruct (Hs k Hk) as (l & Hl & Hsc & Has).
  unfold dict_append in Happ.
  destruct (dict_get d (id p)) as [l0|] eqn:El0; [|discriminate].
  injection Happ as <-.
  destruct (String.eqb (id p) k) eqn:E.
  - apply String.eqb_eq in E. subst k.
    assert (l0 = l) by congruence. subst l0.
    exists (l ++ [fst (_assign_event_to_player e p r)]).
    split; [apply dict_get_set_same|]. split.
    + rewrite !map_app, Hsc. cbn [map]. now rewrite assign_event_score.
    + apply Forall_app. split; [exact Has|]. constructor; [|constructor].
      apply assign_event_assigned.
  - apply String.eqb_neq in E. rewrite app_nil_r.
    exists l. split; [|split; assumption].
    rewrite dict_get_set_other; [exact Hl | congruence].
Qed.

(** X7 (orchestration_engine.py, _orchestrate_traditional): with a lead, a
    rhythm and an accent player in the ensemble the traditional strategy
    always returns a pattern, and each non-REST event is given to exactly one
    player, the one [_select_player_traditional] names for its position: the
    list of each of the three holds one assigned copy of every non-REST event
    selected for that player, in input order, and of no other event; so the
    chenda lists hold in all as many events as the input has non-RESTs. *)
Theorem traditional_gives_each_event_once (ens : Ensemble)
    (events : list StrokeEvent) (r : Rng) (lead rhythm accent : Player) :
  first_by_role ens CHENDA_LEAD = Ok lead ->
  first_by_role ens CHENDA_RHYTHM = Ok rhythm ->
  first_by_role ens CHENDA_ACCENT = Ok accent ->
  exists pat r',
    orchestrate_sequence ens events TRADITIONAL r = Ok (pat, r') /\
    present [id lead; id rhythm; id accent] (chenda_events pat) /\
    total_events (chenda_events pat) = List.length (non_rests events) /\
    Forall (fun oe => In (fst oe) [id lead; id rhythm; id accent])
      (labelled
         (fun i e => id (_select_player_traditional e i
                           (_analyze_pattern_complexity events) lead rhythm accent))
         0 events) /\
    forall k, In k [id lead; id rhythm; id accent] ->
      holds_copies (chenda_events pat) k
        (share k
           (labelled
              (fun i e => id (_select_player_traditional e i
                                (_analyze_pattern_complexity events) lead rhythm accent))
              0 events)).
Proof.
  intros Hl Hr Ha. cbn [orchestrate_sequence]. unfold _orchestrate_traditional.
  rewrite Hl, Hr, Ha. cbn [bind]. cbv zeta.
  set (ids := [id lead; id rhythm; id accent]).
  set (cids := map id (get_cymbal_players ens)).
  set (owner := fun (i : nat) (e : StrokeEvent) =>
                  id (_select_player_traditional e i
                        (_analyze_pattern_complexity events) lead rhythm accent)).
  assert (Hown : forall j e, In (owner j e) ids).
  { intros j e. subst owner ids. cbv beta.
    pose proof (select_one_of_three e j (_analyze_pattern_complexity events)
                  lead rhythm accent) as Hsel.
    cbn [In] in *. destruct Hsel as [<- | [<- | [<- | []]]]; auto. }
  match goal with
  | |- exists pat r', for_enumerate ?body _ _ ?s0 = _ /\ _ =>
      destruct (for_enumerate_total body
                  (fun j s => one_each ids cids events j s /\
                              spread ids (labelled owner 0 (firstn j events))
                                (chenda_events (fst s)))
                  events 0%nat)
        with (s := s0) as ([pat r'] & Hrun & Hinv & Hspread)
  end.
  - intros j e [pat r0] Hn [Hi Hsp]. cbn [Nat.add fst] in *.
    rewrite (labelled_step owner _ _ _ Hn).
    destruct (is_rest e) eqn:He.
    + eexists. split; [reflexivity|].
      split; [exact (one_each_rest _ _ _ _ _ _ Hn He Hi)|].
      now apply spread_rest.
    + set (p := _select_player_traditional e j (_analyze_pattern_complexity events)
                  lead rhythm accent) in *.
      destruct (one_each_step ids cids events j e pat r0 p
                  (_is_structural_beat j (List.length events))
                  (get_cymbal_players ens) Hn He Hi) as (s' & Hs' & Hinv' & _ & Happ).
      * exact (Hown j e).
      * intros c Hc. now apply in_map.
      * exists s'. split; [exact Hs'|]. split; [exact Hinv'|].
        exact (spread_step ids _ _ _ e p r0 He Hsp Happ).
  - split; [apply one_each_start | apply spread_start].
  - exists pat, r'. split; [exact Hrun|].
    destruct Hinv as (Hch & _ & Ht). cbn [fst Nat.add] in *.
    rewrite firstn_all in Ht, Hspread.
    split; [exact Hch|]. split; [exact Ht|].
    split; [now apply labelled_owners | exact Hspread].
Qed.

Lemma traditional_gives_each_event_once_witness :
  exists pat r',
    orchestrate_sequence standard_melam demo_events TRADITIONAL rng_mid = Ok (pat, r') /\
    holds_copies (chenda_events pat) "P1"
      [stroke 0 "Ta" "THAAM" (7#10); stroke (3#2) "Na" "NAM" (7#10)] /\
    holds_copies (chenda_events pat) "P2" [] /\
    holds_copies (chenda_events pat) "P3" [dheem].
Proof.
  destruct (traditional_gives_each_event_once standard_melam demo_events rng_mid
              _ _ _ eq_refl eq_refl eq_refl) as (pat & r' & Hrun & _ & _ & _ & Hsp).
  exists pat, r'. split; [exact Hrun|].
  split; [exact (Hsp "P1"%string (or_introl eq_refl))|].
  split; [exact (Hsp "P2"%string (or_intror (or_introl eq_refl)))|].
  exact (Hsp "P3"%string (or_intror (or_intror (or_introl eq_refl)))).
Defined.

(** X8 (orchestration_engine.py, _orchestrate_antiphonal): with the three
    roles filled the antiphonal strategy always returns a pattern in which
    each non-REST event is given to exactly one player: in the phrases of four
    positions numbered 0, 2, 4, ... to the lead, in the others to the rhythm
    player at an even position and to the accent player at an odd one.  The
    list of each of the three holds one assigned copy of every non-REST event
    meant for that player, in input order, and of no other; and no cymbal hit
    is ever added: every cymbal list is empty. *)
Theorem antiphonal_gives_each_event_once (ens : Ensemble)
    (events : list StrokeEvent) (r : Rng) (lead rhythm accent : Player) :
  first_by_role ens CHENDA_LEAD = Ok lead ->
  first_by_role ens CHENDA_RHYTHM = Ok rhythm ->
  first_by_role ens CHENDA_ACCENT = Ok accent ->
  exists pat r',
    orchestrate_sequence ens events ANTIPHONAL r = Ok (pat, r') /\
    total_events (chenda_events pat) = List.length (non_rests events) /\
    all_empty (cymbal_events pat) /\
    forall k, In k [id lead; id rhythm; id accent] ->
      holds_copies (chenda_events pat) k
        (share k
           (labelled (fun i _ => antiphonal_owner (id lead) (id rhythm) (id accent) i)
              0 events)).
Proof.
  intros Hl Hr Ha. cbn [orchestrate_sequence]. unfold _orchestrate_antiphonal.
  rewrite Hl, Hr, Ha. cbn [bind]. cbv zeta.
  set (ids := [id lead; id rhythm; id accent]).
  set (cids := map id (get_cymbal_players ens)).
  set (owner := fun (i : nat) (_ : StrokeEvent) =>
                  antiphonal_owner (id lead) (id rhythm) (id accent) i).
  match goal with
  | |- exists pat r', for_enumerate ?body _ _ ?s0 = _ /\ _ =>
      destruct (for_enumerate_total body
                  (fun j s => one_each ids cids events j s /\
                              cymbal_events (fst s) = init_lists cids [] /\
                              spread ids (labelled owner 0 (firstn j events))
                                (chenda_events (fst s)))
                  events 0%nat)
        with (s := s0) as ([pat r'] & Hrun & Hinv & Hcym & Hspread)
  end.
  - intros j e [pat r0] Hn (Hi & Hc & Hsp). cbn [Nat.add fst] in *.
    rewrite (labelled_step owner _ _ _ Hn).
    destruct (is_rest e) eqn:He.
    + eexists. split; [reflexivity|].
      split; [exact (one_each_rest _ _ _ _ _ _ Hn He Hi)|].
      split; [exact Hc | now apply spread_rest].
    + match goal with
      | |- context [_assign_event_to_player e ?q r0] => set (p := q) in *
      end.
      assert (Hp : id p = owner j e).
      { subst p owner. unfold antiphonal_owner. cbv beta.
        destruct (_ =? _)%nat; [reflexivity|]. now destruct (_ =? _)%nat. }
      destruct (one_each_step ids cids events j e pat r0 p false
                  (get_cymbal_players ens) Hn He Hi)
        as (s' & Hs' & Hinv' & Hsame & Happ).
      * subst ids p. cbn [In].
        destruct (_ =? _)%nat; [auto|]. destruct (_ =? _)%nat; auto.
      * intros c Hc'. now apply in_map.
      * exists s'. split; [exact Hs'|]. split; [exact Hinv'|].
        split; [now rewrite (Hsame eq_refl)|].
        rewrite <- Hp. exact (spread_step ids _ _ _ e p r0 He Hsp Happ).
  - split; [apply one_each_start|]. split; [reflexivity | apply spread_start].
  - exists pat, r'. split; [exact Hrun|].
    destruct Hinv as (_ & _ & Ht). cbn [fst Nat.add] in *.
    rewrite firstn_all in Ht, Hspread.
    split; [exact Ht|]. split; [|exact Hspread].
    rewrite Hcym. apply init_lists_all_empty.
Qed.

Lemma antiphonal_gives_each_event_once_witness :
  exists pat r',
    orchestrate_sequence standard_melam demo_events ANTIPHONAL rng_mid = Ok (pat, r') /\
    all_empty (cymbal_events pat) /\
    holds_copies (chenda_events pat) "P1"
      [stroke 0 "Ta" "THAAM" (7#10); dheem; stroke (3#2) "Na" "NAM" (7#10)] /\
    holds_copies (chenda_events pat) "P2" [] /\
    holds_copies (chenda_events pat) "P3" [].
Proof.
  destruct (antiphonal_gives_each_event_once standard_melam demo_events rng_mid
              _ _ _ eq_refl eq_refl eq_refl) as (pat & r' & Hrun & _ & Hcy & Hsp).
  exists pat, r'. split; [exact Hrun|]. split; [exact Hcy|].
  split; [exact (Hsp "P1"%string (or_introl eq_refl))|].
  split; [exact (Hsp "P2"%string (or_intror (or_introl eq_refl)))|].
  exact (Hsp "P3"%string (or_intror (or_intror (or_introl eq_refl)))).
Defined.

(** X9 (orchestration_engine.py, _orchestrate_traditional and
    _orchestrate_antiphonal): when the ensemble has no player of one of the
    roles lead, rhythm, accent, both strategies raise IndexError, whatever the
    events are, the empty list included. *)
Theorem missing_role_raises_index_error (ens : Ensemble)
    (events : list StrokeEvent) (r : Rng) (rl : PlayerRole) :
  In rl leading_roles ->
  get_players_by_role ens rl = [] ->
  orchestrate_sequence ens events TRADITIONAL r = Raise IndexError /\
  orchestrate_sequence ens events ANTIPHONAL r = Raise IndexError.
Proof.
  intros Hrl Hnone. apply first_by_role_none in Hnone.
  cbn [orchestrate_sequence]. unfold _orchestrate_traditional, _orchestrate_antiphonal.
  assert (Hany : forall rl', first_by_role ens rl' = Raise IndexError \/
                             exists p, first_by_role ens rl' = Ok p).
  { intro rl'. unfold first_by_role. destruct (get_players_by_role ens rl'); eauto. }
  destruct (Hany CHENDA_LEAD) as [-> | [pl Hpl]]; [now split|].
  rewrite Hpl. cbn [bind].
  destruct (Hany CHENDA_RHYTHM) as [-> | [pr Hpr]]; [now split|].
  rewrite Hpr. cbn [bind].
  destruct (Hany CHENDA_ACCENT) as [-> | [pa Hpa]]; [now split|].
  exfalso. cbn [leading_roles In] in Hrl.
  destruct Hrl as [<- | [<- | [<- | []]]]; congruence.
Qed.

Lemma missing_role_raises_index_error_witness :
  orchestrate_sequence (mkEnsemble []) demo_events TRADITIONAL rng_mid = Raise IndexError /\
  orchestrate_sequence (mkEnsemble []) demo_events ANTIPHONAL rng_mid = Raise IndexError.
Proof.
  apply (missing_role_raises_index_error (mkEnsemble []) demo_events rng_mid CHENDA_LEAD).
  - cbn. auto.
  - reflexivity.
Defined.

(** *** Load balancing *)

Lemma argmin_key_in (d : dict nat) k v : argmin_key d = Some (k, v) -> In (k, v) d.
Proof.
  revert k v. induction d as [|[k0 v0] d IH]; intros k v; cbn [argmin_key];
    [discriminate|].
  destruct (argmin_key d) as [[k' v']|].
  - destruct (v' <? v0)%nat; intro H; injection H as <- <-.
    + right. now apply IH.
    + now left.
  - intro H. injection H as <- <-. now left.
Qed.

Lemma argmin_key_least (d : dict nat) k v :
  argmin_key d = Some (k, v) -> forall k' v', In (k', v') d -> (v <= v')%nat.
Proof.
  revert k v. induction d as [|[k0 v0] d IH]; intros k v; cbn [argmin_key];
    [discriminate|].
  destruct (argmin_key d) as [[k1 v1]|] eqn:E.
  - destruct (v1 <? v0)%nat eqn:Elt; intro H; injection H as <- <-;
      intros k' v' [Heq | Hin].
    + injection Heq as <- <-. apply Nat.ltb_lt in Elt. lia.
    + exact (IH _ _ eq_refl _ _ Hin).
    + injection Heq as <- <-. lia.
    + apply Nat.ltb_ge in Elt. pose proof (IH _ _ eq_refl _ _ Hin). lia.
  - intro H. injection H as <- <-. intros k' v' [Heq | Hin].
    + injection Heq as <- <-. lia.
    + destruct d as [|[k2 v2] d]; [destruct Hin|].
      cbn [argmin_key] in E. destruct (argmin_key d) as [[k3 v3]|];
        [destruct (v3 <? v2)%nat|]; discriminate.
Qed.

Lemma argmin_key_some (d : dict nat) :
  d <> [] -> exists kv, argmin_key d = Some kv.
Proof.
  destruct d as [|[k v] d]; [congruence|]. intros _. cbn [argmin_key].
  destruct (argmin_key d) as [[k' v']|]; [destruct (v' <? v)%nat|]; eauto.
Qed.

Lemma dict_set_fresh {V : Type} (d : dict V) k v :
  ~ In k (dict_keys d) -> dict_set d k v = d ++ [(k, v)].
Proof.
  unfold dict_keys. induction d as [|[k' v'] d IH]; cbn; [reflexivity|].
  intro Hn. destruct (String.eqb k k') eqn:E.
  - apply String.eqb_eq in E. subst. exfalso. apply Hn. now left.
  - f_equal. apply IH. intro Hin. apply Hn. now right.
Qed.

(** The table of loads [_select_player_by_load] builds, for players of
    distinct ids: one entry per player, in their order. *)
Lemma loads_table (d : dict (list StrokeEvent)) (ps : list Player) :
  NoDup (map id ps) ->
  forall acc, (forall p, In p ps -> ~ In (id p) (dict_keys acc)) ->
    fold_left
      (fun acc p =>
         dict_set acc (id p)
           (List.length (match dict_get d (id p) with
                         | Some l => l
                         | None => []
                         end)))
      ps acc
    = acc ++ map (fun p => (id p, load_of d (id p))) ps.
Proof.
  induction ps as [|p ps IH]; intros Hnd acc Hfresh; cbn [fold_left map].
  - now rewrite app_nil_r.
  - inversion Hnd as [|? ? Hp Hnd']; subst.
    rewrite dict_set_fresh by (apply Hfresh; now left).
    rewrite IH; [|exact Hnd'|].
    + rewrite <- app_assoc. cbn [app]. do 3 f_equal.
      unfold load_of. now destruct (dict_get d (id p)).
    + intros q Hq. unfold dict_keys. rewrite map_app, in_app_iff. cbn [map fst In].
      intros [Hin | [Heq | []]].
      * exact (Hfresh q (or_intror Hq) Hin).
      * apply Hp. rewrite Heq. now apply in_map.
Qed.

Lemma nodup_map_filter {A B : Type} (f : A -> B) (g : A -> bool) (l : list A) :
  NoDup (map f l) -> NoDup (map f (filter g l)).
Proof.
  induction l as [|x l IH]; cbn; [auto|].
  intro Hnd. inversion Hnd as [|? ? Hx Hnd']; subst.
  destruct (g x); cbn; [|now apply IH].
  constructor; [|now apply IH].
  intro Hin. apply Hx. apply in_map_iff in Hin. destruct Hin as (y & Hy & Hin).
  apply filter_In in Hin. rewrite <- Hy. apply in_map. tauto.
Qed.

(** In an ensemble keyed by the ids of its players the chenda players have
    distinct ids, and [get_player] finds each of them by its id. *)
Lemma chenda_players_keyed (ens : Ensemble) :
  well_keyed ens ->
  NoDup (map id (get_chenda_players ens)) /\
  forall p, In p (get_chenda_players ens) -> get_player ens (id p) = Some p.
Proof.
  intros [Hnd Hid].
  assert (Hids : map id (dict_values (players ens)) = dict_keys (players ens)).
  { unfold dict_values, dict_keys. rewrite map_map. apply map_ext_in.
    intros [k p] Hin. cbn. exact (Hid _ _ Hin). }
  split.
  - unfold get_chenda_players. apply nodup_map_filter. now rewrite Hids.
  - intros p Hp. unfold get_chenda_players in Hp. apply filter_In in Hp.
    destruct Hp as [Hp _]. unfold dict_values in Hp. apply in_map_iff in Hp.
    destruct Hp as ([k q] & Hq & Hin). cbn in Hq. subst q.
    unfold get_player. apply dict_in_get; [exact Hnd|].
    now rewrite (Hid _ _ Hin).
Qed.

(** [_select_player_by_load] on a keyed ensemble with a chenda player: it
    returns a chenda player whose list is a shortest one. *)
Lemma select_by_load_least (ens : Ensemble) (pat : OrchestrationPattern) :
  well_keyed ens -> get_chenda_players ens <> [] ->
  exists p,
    _select_player_by_load ens (get_chenda_players ens) pat = Ok (Some p) /\
    In p (get_chenda_players ens) /\
    forall q, In q (get_chenda_players ens) ->
      (load_of (chenda_events pat) (id p) <= load_of (chenda_events pat) (id q))%nat.
Proof.
  intros Hk Hne. destruct (chenda_players_keyed ens Hk) as [Hnd Hget].
  unfold _select_player_by_load.
  rewrite (loads_table (chenda_events pat) _ Hnd []) by (intros p _ []).
  cbn [app].
  set (tbl := map _ (get_chenda_players ens)).
  destruct (argmin_key_some tbl) as ([k v] & Hmin).
  { subst tbl. destruct (get_chenda_players ens); [congruence | discriminate]. }
  rewrite Hmin.
  pose proof (argmin_key_in _ _ _ Hmin) as Hin. subst tbl.
  apply in_map_iff in Hin. destruct Hin as (p & Hp & Hpin).
  injection Hp as <- <-.
  exists p. split; [now rewrite (Hget p Hpin)|]. split; [exact Hpin|].
  intros q Hq. apply (argmin_key_least _ _ _ Hmin (id q)).
  apply in_map_iff. now exists q.
Qed.

Lemma snoc_split {A : Type} (pre post a : list A) (y x : A) :
  pre ++ y :: post = a ++ [x] ->
  (post = [] /\ pre = a /\ y = x) \/
  exists post', post = post' ++ [x] /\ a = pre ++ y :: post'.
Proof.
  intro Heq. destruct post as [|w post].
  - left. apply app_inj_tail in Heq. destruct Heq as [-> ->]. auto.
  - right. destruct (exists_last (l := w :: post)) as (post' & z' & Hp);
      [discriminate|].
    rewrite Hp in *. exists post'.
    change (pre ++ y :: post' ++ [z']) with (pre ++ (y :: post') ++ [z']) in Heq.
    rewrite app_assoc in Heq. apply app_inj_tail in Heq.
    destruct Heq as [<- ->]. split; reflexivity.
Qed.

Lemma holds_copies_load d k evs :
  holds_copies d k evs -> load_of d k = List.length evs.
Proof.
  intros (l & Hl & Hsc & _). unfold load_of. rewrite Hl.
  now rewrite <- (length_map score_of l), Hsc, length_map.
Qed.

(** X10 (orchestration_engine.py, _orchestrate_dynamic and
    _select_player_by_load): on an ensemble keyed by player id that has a
    chenda player, the dynamic strategy always returns a pattern in which
    each non-REST event is given to exactly one chenda player, one that had
    received no more events than any other chenda player when the event came
    up: the events can be labelled with chenda ids so that the list of each
    chenda player holds one assigned copy of every non-REST event labelled
    for it, in input order, and of no other.  So the loads are balanced: the
    lists of any two chenda players differ by one event at most. *)
Theorem dynamic_balances_the_load (ens : Ensemble) (events : list StrokeEvent)
    (r : Rng) :
  well_keyed ens ->
  get_chenda_players ens <> [] ->
  exists pat r',
    orchestrate_sequence ens events DYNAMIC r = Ok (pat, r') /\
    total_events (chenda_events pat) = List.length (non_rests events) /\
    balanced (chenda_events pat) (get_chenda_players ens) /\
    exists assigned,
      map snd assigned = events /\
      Forall (fun oe => In (fst oe) (map id (get_chenda_players ens))) assigned /\
      least_loaded_first (map id (get_chenda_players ens)) assigned /\
      forall p, In p (get_chenda_players ens) ->
        holds_copies (chenda_events pat) (id p) (share (id p) assigned).
Proof.
  intros Hk Hne. cbn [orchestrate_sequence]. unfold _orchestrate_dynamic. cbv zeta.
  set (chendas := get_chenda_players ens) in *.
  set (ids := map id chendas).
  set (cids := map id (get_cymbal_players ens)).
  assert (Hsome : exists p0, In p0 chendas).
  { destruct chendas as [|p0 ps]; [congruence|]. exists p0. now left. }
  destruct Hsome as [p0 Hp0].
  match goal with
  | |- exists pat r', for_enumerate ?body _ _ ?s0 = _ /\ _ =>
      destruct (for_enumerate_total body
                  (fun j s => one_each ids cids events j s /\
                              balanced (chenda_events (fst s)) chendas /\
                              exists assigned,
                                map snd assigned = firstn j events /\
                                Forall (fun oe => In (fst oe) ids) assigned /\
                                least_loaded_first ids assigned /\
                                spread ids assigned (chenda_events (fst s)))
                  events 0%nat)
        with (s := s0) as ([pat r'] & Hrun & Hinv & Hbal & Hassigned)
  end.
  - intros j e [pat r0] Hn (Hi & Hb & assigned & Hev & Hown & Hleast1 & Hsp).
    cbn [Nat.add fst] in *.
    destruct (is_rest e) eqn:He.
    + eexists. split; [reflexivity|].
      split; [exact (one_each_rest _ _ _ _ _ _ Hn He Hi)|]. split; [exact Hb|].
      exists (assigned ++ [(id p0, e)]).
      split; [rewrite map_app, Hev, (firstn_succ_nth _ _ _ Hn); reflexivity|].
      split; [apply Forall_app; split; [exact Hown|];
              constructor; [cbn [fst]; now apply in_map | constructor]|].
      split; [|now apply spread_rest].
      intros pre o e0 post Heq He0 k Hkin.
      destruct (snoc_split _ _ _ _ _ (eq_sym Heq)) as [(_ & _ & Hlast) | (post' & _ & ->)].
      * injection Hlast as _ <-. congruence.
      * exact (Hleast1 pre o e0 post' eq_refl He0 k Hkin).
    + destruct (select_by_load_least ens pat Hk Hne) as (p & Hsel & Hp & Hleast).
      fold chendas in Hsel, Hp, Hleast. rewrite Hsel. cbn [bind].
      destruct (one_each_step ids cids events j e pat r0 p (j mod 8 =? 0)%nat
                  (get_cymbal_players ens) Hn He Hi)
        as (s' & Hs' & Hinv' & _ & Happ).
      * subst ids. now apply in_map.
      * intros c Hc. now apply in_map.
      * exists s'. split; [exact Hs'|]. split; [exact Hinv'|].
        destruct Hi as (Hch & _ & _). cbn [fst] in Hch.
        destruct (dict_append_grows (chenda_events pat) (id p)
                    (fst (_assign_event_to_player e p r0)))
          as (d & Hd & _ & Hload & Hother & _).
        { apply Hch. subst ids. now apply in_map. }
        pose proof Happ as Happ'. rewrite Hd in Happ'. injection Happ' as Hd'.
        split.
        { rewrite <- Hd'.
          assert (Hl : forall q, load_of d (id q) =
                                 if String.eqb (id q) (id p)
                                 then S (load_of (chenda_events pat) (id p))
                                 else load_of (chenda_events pat) (id q)).
          { intro q. destruct (String.eqb (id q) (id p)) eqn:E.
            - apply String.eqb_eq in E. now rewrite E.
            - apply String.eqb_neq in E. unfold load_of. now rewrite (Hother _ E). }
          intros q1 q2 H1 H2. rewrite (Hl q1), (Hl q2).
          pose proof (Hb q1 q2 H1 H2). pose proof (Hleast q2 H2).
          pose proof (Hb q1 p H1 Hp).
          destruct (String.eqb (id q1) (id p)) eqn:E1;
            destruct (String.eqb (id q2) (id p)) eqn:E2; try lia. }
        exists (assigned ++ [(id p, e)]).
        split; [rewrite map_app, Hev, (firstn_succ_nth _ _ _ Hn); reflexivity|].
        split; [apply Forall_app; split; [exact Hown|];
                constructor; [cbn [fst]; now apply in_map | constructor]|].
        split; [|exact (spread_step ids _ _ _ e p r0 He Hsp Happ)].
        intros pre o e0 post Heq He0 k Hkin.
        destruct (snoc_split _ _ _ _ _ (eq_sym Heq)) as [(_ & Hpre & Hlast) | (post' & _ & ->)].
        -- subst pre. injection Hlast as -> ->.
           apply in_map_iff in Hkin. destruct Hkin as (q & <- & Hq).
           rewrite <- (holds_copies_load _ _ _ (Hsp (id p) (in_map id _ _ Hp))).
           rewrite <- (holds_copies_load _ _ _ (Hsp (id q) (in_map id _ _ Hq))).
           exact (Hleast q Hq).
        -- exact (Hleast1 pre o e0 post' eq_refl He0 k Hkin).
  - split; [apply one_each_start|]. split.
    + intros q1 q2 H1 H2. cbn [fst chenda_events]. unfold load_of.
      rewrite !init_lists_get by (left; subst ids; now apply in_map).
      cbn. lia.
    + exists []. split; [reflexivity|]. split; [constructor|].
      split; [|apply spread_start].
      intros pre o e0 post Heq. destruct pre; discriminate.
  - exists pat, r'. split; [exact Hrun|].
    destruct Hinv as (_ & _ & Ht). cbn [fst Nat.add] in *.
    rewrite firstn_all in Ht. split; [exact Ht|]. split; [exact Hbal|].
    destruct Hassigned as (assigned & Hev & Hown & Hleast1 & Hsp).
    rewrite firstn_all in Hev.
    exists assigned. split; [exact Hev|]. split; [exact Hown|].
    split; [exact Hleast1|].
    intros p Hp. apply Hsp. subst ids. now apply in_map.
Qed.

Lemma standard_melam_well_keyed : well_keyed standard_melam.
Proof.
  split.
  - vm_compute. repeat constructor; cbn; intuition discriminate.
  - intros k p Hin. vm_compute in Hin.
    repeat (destruct Hin as [Hin | Hin]; [injection Hin as <- <-; reflexivity|]).
    destruct Hin.
Qed.

Lemma dynamic_balances_the_load_witness :
  exists pat r',
    orchestrate_sequence standard_melam demo_events DYNAMIC rng_mid = Ok (pat, r') /\
    total_events (chenda_events pat) = List.length (non_rests demo_events) /\
    balanced (chenda_events pat) (get_chenda_players standard_melam) /\
    exists assigned,
      map snd assigned = demo_events /\
      forall p, In p (get_chenda_players standard_melam) ->
        holds_copies (chenda_events pat) (id p) (share (id p) assigned).
Proof.
  destruct (dynamic_balances_the_load standard_melam demo_events rng_mid)
    as (pat & r' & Hrun & Ht & Hb & assigned & Hev & _ & _ & Hsp).
  - exact standard_melam_well_keyed.
  - vm_compute. discriminate.
  - exists pat, r'. split; [exact Hrun|]. split; [exact Ht|]. split; [exact Hb|].
    exists assigned. split; [exact Hev | exact Hsp].
Defined.

(** X11 (orchestration_engine.py, _orchestrate_dynamic and
    _select_player_by_load): in an ensemble without a chenda player the
    dynamic strategy raises ValueError at the first non-REST event ([min] of
    an empty table); when every event is a REST it returns the pattern of
    empty cymbal lists and draws no random number. *)
Theorem dynamic_without_chenda_players (ens : Ensemble) (events : list StrokeEvent)
    (r : Rng) :
  get_chenda_players ens = [] ->
  orchestrate_sequence ens events DYNAMIC r =
  if forallb is_rest events
  then Ok (mkPattern [] (init_lists (map id (get_cymbal_players ens)) []) [], r)
  else Raise ValueError.
Proof.
  intro Hnone. cbn [orchestrate_sequence]. unfold _orchestrate_dynamic. cbv zeta.
  rewrite Hnone. cbn [map init_lists fold_left].
  match goal with
  | |- for_enumerate ?body 0%nat events _ = _ =>
      enough (H : forall i pat,
                 for_enumerate body i events (pat, r) =
                 if forallb is_rest events then Ok (pat, r) else Raise ValueError)
        by apply H
  end.
  induction events as [|e events IH]; intros i pat; cbn [for_enumerate forallb];
    [reflexivity|].
  destruct (is_rest e); cbn [bind andb]; [apply IH | reflexivity].
Qed.

Lemma dynamic_without_chenda_players_witness :
  orchestrate_sequence (mkEnsemble []) demo_events DYNAMIC rng_mid = Raise ValueError.
Proof.
  exact (dynamic_without_chenda_players (mkEnsemble []) demo_events rng_mid eq_refl).
Defined.

(** *** Staggered entry *)

Lemma active_at_in i chendas entries :
  forall k p,
    In p (active_at i chendas k entries) <->
    exists m entry, nth_error entries m = Some entry /\ (entry <= i)%nat /\
                    nth_error chendas (k + m) = Some p.
Proof.
  induction entries as [|entry rest IH]; intros k p; cbn [active_at].
  - split; [intros [] | intros ([|m] & en & Hn & _); discriminate].
  - assert (Htail : In p (active_at i chendas (S k) rest) <->
                    exists m en, nth_error (entry :: rest) (S m) = Some en /\
                                 (en <= i)%nat /\
                                 nth_error chendas (k + S m) = Some p).
    { rewrite IH. split; intros (m & en & Hn & Hle & Hp); exists m, en;
        (split; [exact Hn|]); (split; [exact Hle|]);
        now replace (k + S m)%nat with (S k + m)%nat in * by lia. }
    split.
    + intro Hin.
      assert (Hcases : (nth_error chendas k = Some p /\ (entry <= i)%nat) \/
                       In p (active_at i chendas (S k) rest)).
      { destruct ((entry <=? i)%nat && (k <? List.length chendas)%nat) eqn:E;
          [|now right].
        apply andb_true_iff in E. destruct E as [E _]. apply Nat.leb_le in E.
        destruct (nth_error chendas k) as [q|] eqn:Eq; [|now right].
        destruct Hin as [-> | Hin]; [now left | now right]. }
      destruct Hcases as [[Hp Hle] | Hin'].
      * exists 0%nat, entry. rewrite Nat.add_0_r. auto.
      * apply Htail in Hin'. destruct Hin' as (m & en & H). now exists (S m), en.
    + intros ([|m] & en & Hn & Hle & Hp).
      * cbn in Hn. injection Hn as ->. rewrite Nat.add_0_r in Hp.
        assert (Hk : (k < List.length chendas)%nat)
          by (apply nth_error_Some; congruence).
        rewrite (proj2 (Nat.leb_le _ _) Hle), (proj2 (Nat.ltb_lt _ _) Hk), Hp.
        now left.
      * assert (Hin : In p (active_at i chendas (S k) rest))
          by (apply Htail; now exists m, en).
        destruct ((entry <=? i)%nat && (k <? List.length chendas)%nat);
          [|exact Hin].
        destruct (nth_error chendas k); [now right | exact Hin].
Qed.

Lemma same_id_same_index (chendas : list Player) a b p q :
  NoDup (map id chendas) ->
  nth_error chendas a = Some p -> nth_error chendas b = Some q ->
  id p = id q -> a = b.
Proof.
  intros Hnd Ha Hb Hid.
  apply (proj1 (NoDup_nth_error (map id chendas)) Hnd).
  - rewrite length_map. apply nth_error_Some. congruence.
  - rewrite !nth_error_map, Ha, Hb. cbn [option_map]. now rewrite Hid.
Qed.

Lemma active_at_nodup i chendas :
  NoDup (map id chendas) ->
  forall entries k, NoDup (map id (active_at i chendas k entries)).
Proof.
  intro Hnd. induction entries as [|entry rest IH]; intro k; cbn [active_at];
    [constructor|].
  destruct ((entry <=? i)%nat && (k <? List.length chendas)%nat); [|apply IH].
  destruct (nth_error chendas k) as [q|] eqn:Eq; [|apply IH].
  cbn [map]. constructor; [|apply IH].
  intro Hin. apply in_map_iff in Hin. destruct Hin as (p & Hid & Hin).
  apply active_at_in in Hin. destruct Hin as (m & en & _ & _ & Hp).
  pose proof (same_id_same_index chendas _ _ _ _ Hnd Hp Eq Hid). lia.
Qed.

Lemma skipn_firstn_step (events : list StrokeEvent) j e entry :
  nth_error events j = Some e ->
  skipn entry (firstn (S j) events) =
  if (entry <=? j)%nat then skipn entry (firstn j events) ++ [e]
  else skipn entry (firstn j events).
Proof.
  intro Hn. rewrite (firstn_succ_nth _ _ _ Hn), skipn_app.
  assert (Hj : (j < List.length events)%nat) by (apply nth_error_Some; congruence).
  assert (Hlen : List.length (firstn j events) = j) by (rewrite length_firstn; lia).
  rewrite Hlen. destruct (entry <=? j)%nat eqn:E.
  - apply Nat.leb_le in E. now replace (entry - j)%nat with 0%nat by lia.
  - apply Nat.leb_gt in E. rewrite (skipn_all2 (firstn j events)) by lia.
    destruct (entry - j)%nat eqn:Ed; [lia|]. cbn. now destruct n.
Qed.

Lemma heard_step entries (events : list StrokeEvent) idx j e :
  nth_error events j = Some e ->
  heard entries events idx (S j) =
  match nth_error entries idx with
  | Some entry =>
      if (entry <=? j)%nat && negb (is_rest e)
      then heard entries events idx j ++ [e]
      else heard entries events idx j
  | None => heard entries events idx j
  end.
Proof.
  intro Hn. unfold heard. destruct (nth_error entries idx) as [entry|]; [|reflexivity].
  rewrite (skipn_firstn_step _ _ _ _ Hn).
  destruct (entry <=? j)%nat; cbn [andb]; [|reflexivity].
  rewrite non_rests_snoc. now destruct (is_rest e).
Qed.

(** X12 (orchestration_engine.py, _orchestrate_layered): for chenda players
    of distinct ids the layered strategy always returns a pattern.  The
    player of index 0, 1, 2 is given, in order, a copy of every non-REST
    event from position 0, len(events)//4, len(events)//2 on and none of the
    earlier ones; a fourth or later chenda player is given nothing; and no
    cymbal hit is ever added. *)
Theorem layered_players_enter_in_turn (ens : Ensemble) (events : list StrokeEvent)
    (r : Rng) :
  NoDup (map id (get_chenda_players ens)) ->
  exists pat r',
    orchestrate_sequence ens events LAYERED r = Ok (pat, r') /\
    all_empty (cymbal_events pat) /\
    forall idx p, nth_error (get_chenda_players ens) idx = Some p ->
      plays (chenda_events pat) p
        (match nth_error [0; List.length events / 4; List.length events / 2]%nat idx with
         | Some entry => non_rests (skipn entry events)
         | None => []
         end).
Proof.
  intro Hnd. cbn [orchestrate_sequence]. unfold _orchestrate_layered. cbv zeta.
  set (chendas := get_chenda_players ens) in *.
  set (cids := map id (get_cymbal_players ens)).
  set (entries := [0; List.length events / 4; List.length events / 2]%nat).
  match goal with
  | |- exists pat r', for_enumerate ?body _ _ ?s0 = _ /\ _ =>
      destruct (for_enumerate_total body
                  (layered_state chendas cids entries events) events 0%nat)
        with (s := s0) as ([pat r'] & Hrun & Hcym & Hplays)
  end.
  - intros j e [pat r0] Hn [Hc Hp]. cbn [Nat.add fst] in *.
    destruct (is_rest e) eqn:He.
    + eexists. split; [reflexivity|]. split; [exact Hc|].
      intros idx p Hidx. cbn [fst]. rewrite (heard_step _ _ _ _ _ Hn), He.
      specialize (Hp idx p Hidx).
      destruct (nth_error entries idx); [|exact Hp].
      now rewrite andb_false_r.
    + set (active := active_at j chendas 0 entries).
      assert (Hact : forall p, In p active ->
                exists idx, nth_error chendas idx = Some p).
      { intros p Hin. apply active_at_in in Hin.
        destruct Hin as (m & en & _ & _ & Hm). now exists m. }
      destruct (assign_to_all_spec e active pat r0)
        as (pat' & r1 & Hrun & Hcym' & Hkeep & Hgrow).
      * apply active_at_nodup. exact Hnd.
      * intros k Hk. apply in_map_iff in Hk. destruct Hk as (p & <- & Hin).
        destruct (Hact p Hin) as (idx & Hidx).
        destruct (Hp idx p Hidx) as (l & Hl & _). congruence.
      * exists (pat', r1). split; [exact Hrun|]. split; [cbn [fst]; congruence|].
        intros idx p Hidx. cbn [fst]. rewrite (heard_step _ _ _ _ _ Hn), He.
        cbn [negb].
        destruct (Hp idx p Hidx) as (l & Hl & Hscore & Hall).
        assert (Hin_iff : In p active <->
                          exists en, nth_error entries idx = Some en /\ (en <= j)%nat).
        { unfold active. rewrite active_at_in. cbn [Nat.add]. split.
          - intros (m & en & Hen & Hle & Hm).
            assert (m = idx) by exact (same_id_same_index chendas _ _ _ _ Hnd Hm Hidx eq_refl).
            subst m. now exists en.
          - intros (en & Hen & Hle). now exists idx, en. }
        assert (Hout : ~ In p active -> ~ In (id p) (map id active)).
        { intros Hnot Hin. apply in_map_iff in Hin. destruct Hin as (q & Hid & Hq).
          destruct (Hact q Hq) as (m & Hm).
          assert (m = idx) by exact (same_id_same_index chendas _ _ _ _ Hnd Hm Hidx Hid).
          subst m. rewrite Hidx in Hm. injection Hm as ->. now apply Hnot. }
        destruct (nth_error entries idx) as [en|] eqn:Een.
        -- rewrite andb_true_r. destruct (en <=? j)%nat eqn:Ele.
           ++ apply Nat.leb_le in Ele.
              assert (Hin : In p active) by (apply Hin_iff; now exists en).
              destruct (Hgrow p l Hin Hl) as (x & Hx & Hsx & Hax).
              exists (l ++ [x]). split; [exact Hx|]. split.
              ** rewrite !map_app, Hscore. cbn [map]. now rewrite Hsx.
              ** apply Forall_app. split; [exact Hall | now constructor].
           ++ apply Nat.leb_gt in Ele.
              assert (Hnot : ~ In p active).
              { intro Hin. apply Hin_iff in Hin. destruct Hin as (en' & Hen' & Hle).
                injection Hen' as <-. lia. }
              exists l. rewrite (Hkeep _ (Hout Hnot)). auto.
        -- assert (Hnot : ~ In p active).
           { intro Hin. apply Hin_iff in Hin. destruct Hin as (en' & Hen' & _).
             discriminate. }
           exists l. rewrite (Hkeep _ (Hout Hnot)). auto.
  - split; [reflexivity|]. intros idx p Hidx. cbn [fst chenda_events].
    exists []. split; [|split].
    + apply init_lists_get. left. apply in_map. eapply nth_error_In. exact Hidx.
    + unfold heard. destruct (nth_error entries idx); [|reflexivity].
      cbn [firstn]. now rewrite skipn_nil.
    + constructor.
  - exists pat, r'. split; [exact Hrun|]. cbn [fst Nat.add] in *. split.
    + rewrite Hcym. apply init_lists_all_empty.
    + intros idx p Hidx. specialize (Hplays idx p Hidx).
      unfold heard in Hplays. now rewrite firstn_all in Hplays.
Qed.

Lemma layered_players_enter_in_turn_witness :
  exists pat r',
    orchestrate_sequence standard_melam demo_events LAYERED rng_mid = Ok (pat, r') /\
    all_empty (cymbal_events pat) /\
    forall idx p, nth_error (get_chenda_players standard_melam) idx = Some p ->
      plays (chenda_events pat) p
        (match nth_error [0; List.length demo_events / 4;
                          List.length demo_events / 2]%nat idx with
         | Some entry => non_rests (skipn entry demo_events)
         | None => []
         end).
Proof.
  apply layered_players_enter_in_turn.
  exact (proj1 (chenda_players_keyed _ standard_melam_well_keyed)).
Defined.

(** *** What every strategy leaves in the pattern *)

Lemma dict_set_in {V : Type} (d : dict V) k v k' v' :
  In (k', v') (dict_set d k v) -> In (k', v') d \/ (k' = k /\ v' = v).
Proof.
  induction d as [|[k0 v0] d IH]; cbn.
  - intros [[= <- <-] | []]. now right.
  - destruct (String.eqb k k0) eqn:E.
    + apply String.eqb_eq in E. subst k0.
      intros [[= <- <-] | Hin]; [now right | left; now right].
    + intros [Heq | Hin]; [left; now left|].
      destruct (IH Hin) as [H | H]; [left; now right | now right].
Qed.

Lemma dict_update_in {V : Type} (e d : dict V) k v :
  In (k, v) (dict_update d e) -> In (k, v) d \/ In (k, v) e.
Proof.
  unfold dict_update. revert d.
  induction e as [|[k0 v0] e IH]; intros d; cbn [fold_left]; [now left|].
  intro Hin. destruct (IH _ Hin) as [H | H]; [|right; now right].
  cbn [fst snd] in H. destruct (dict_set_in _ _ _ _ _ H) as [H' | [-> ->]];
    [now left | right; now left].
Qed.

Lemma init_lists_filed ids : filed (init_lists ids []).
Proof.
  assert (H : forall d, filed d -> filed (init_lists ids d)).
  { unfold init_lists. induction ids as [|k ids IH]; intros d Hd; cbn [fold_left];
      [exact Hd|].
    apply IH. intros k' l Hin.
    destruct (dict_set_in _ _ _ _ _ Hin) as [H | [-> ->]]; [now apply (Hd k') | constructor]. }
  apply H. intros k l [].
Qed.

Lemma dict_append_filed (d d' : dict (list StrokeEvent)) k x :
  filed d -> ready_for k x -> dict_append d k x = Ok d' -> filed d'.
Proof.
  intros Hd Hx. unfold dict_append.
  destruct (dict_get d k) as [l|] eqn:El; [|discriminate].
  intros [= <-] k' l' Hin.
  destruct (dict_set_in _ _ _ _ _ Hin) as [H | [-> ->]]; [now apply (Hd k')|].
  apply Forall_app. split; [|now constructor].
  apply (Hd k). now apply dict_get_in.
Qed.

Lemma assigned_event_ready e p r : ready_for (id p) (fst (_assign_event_to_player e p r)).
Proof.
  pose proof (velocity_is_clipped p (intensity e) r) as Hv.
  unfold _assign_event_to_player.
  destruct (get_velocity_for_intensity p (intensity e) r) as [v r1]. cbn [fst] in Hv.
  destruct (get_timing_offset _ _ _) as [off r2].
  destruct (Qltb (7 # 10) (intensity e));
    destruct (np_uniform _ _ r2) as [c r3]; cbn [fst];
    (split; [reflexivity|]; split; [now exists v | discriminate]).
Qed.

Lemma append_assigned_ready pat e p r d :
  ready pat ->
  dict_append (chenda_events pat) (id p) (fst (_assign_event_to_player e p r)) = Ok d ->
  ready (set_chenda pat d).
Proof.
  intros (Hch & Hcy & Hw) Happ. repeat split; cbn; try assumption.
  exact (dict_append_filed _ _ _ _ Hch (assigned_event_ready e p r) Happ).
Qed.

Lemma add_cymbal_events_ready t cymbals s s' :
  ready (fst s) -> _add_cymbal_events t cymbals s = Ok s' -> ready (fst s').
Proof.
  unfold _add_cymbal_events.
  apply (for_each_invariant (fun s => ready (fst s))).
  intros c [pat r] s1 _ (Hch & Hcy & Hw). cbn [fst] in *.
  destruct (get_timing_offset (timing c) t r) as [off r1].
  pose proof (velocity_is_clipped c (6 # 10) r1) as Hv.
  destruct (get_velocity_for_intensity c (6 # 10) r1) as [v r2]. cbn [fst] in Hv.
  match goal with
  | |- context [dict_append ?d ?k ?x] => destruct (dict_append d k x) as [d1|] eqn:E
  end; cbn [bind]; [|discriminate].
  intros [= <-]. cbn [fst]. repeat split; cbn; try assumption.
  refine (dict_append_filed _ _ _ _ Hcy _ E).
  split; [reflexivity|]. split; [now exists v | discriminate].
Qed.

Lemma assign_to_all_ready e ps s s' :
  ready (fst s) -> assign_to_all e ps s = Ok s' -> ready (fst s').
Proof.
  unfold assign_to_all.
  apply (for_each_invariant (fun s => ready (fst s))).
  intros p [pat r] s1 _ Hinv. cbn [fst] in Hinv.
  destruct (_assign_event_to_player e p r) as [a r1] eqn:Ea.
  destruct (dict_append (chenda_events pat) (id p) a) as [d|] eqn:E;
    cbn [bind]; [|discriminate].
  intros [= <-]. cbn [fst].
  apply (append_assigned_ready pat e p r); [exact Hinv | now rewrite Ea].
Qed.

Lemma initial_pattern_ready ids1 ids2 :
  ready (mkPattern (init_lists ids1 []) (init_lists ids2 []) []).
Proof. repeat split; cbn; apply init_lists_filed. Qed.

Lemma strategies_leave_ready ens events strategy r s :
  orchestrate_sequence ens events strategy r = Ok s -> ready (fst s).
Proof.
  destruct strategy; cbn [orchestrate_sequence].
  - unfold _orchestrate_traditional.
    destruct (first_by_role ens CHENDA_LEAD) as [lead|]; cbn [bind]; [|discriminate].
    destruct (first_by_role ens CHENDA_RHYTHM) as [rhythm|]; cbn [bind]; [|discriminate].
    destruct (first_by_role ens CHENDA_ACCENT) as [accent|]; cbn [bind]; [|discriminate].
    apply (for_enumerate_invariant (fun s => ready (fst s)));
      [|apply initial_pattern_ready].
    intros i e [pat r0] s1 _ Hinv. cbn [fst] in Hinv.
    destruct (is_rest e); [now intros [= <-]|].
    match goal with
    | |- context [_assign_event_to_player e ?p r0] =>
        destruct (_assign_event_to_player e p r0) as [a r1] eqn:Ea;
        destruct (dict_append (chenda_events pat) (id p) a) as [d|] eqn:E;
        cbn [bind]; [|discriminate];
        assert (Hd : ready (set_chenda pat d))
          by (apply (append_assigned_ready pat e p r0); [assumption | now rewrite Ea])
    end.
    destruct (_is_structural_beat i (List.length events)).
    + intro Hc. refine (add_cymbal_events_ready _ _ _ _ _ Hc). exact Hd.
    + now intros [= <-].
  - unfold _orchestrate_dynamic.
    apply (for_enumerate_invariant (fun s => ready (fst s)));
      [|apply initial_pattern_ready].
    intros i e [pat r0] s1 _ Hinv. cbn [fst] in Hinv.
    destruct (is_rest e); [now intros [= <-]|].
    destruct (_select_player_by_load ens (get_chenda_players ens) pat) as [[p|]|];
      cbn [bind]; try discriminate.
    destruct (_assign_event_to_player e p r0) as [a r1] eqn:Ea.
    destruct (dict_append (chenda_events pat) (id p) a) as [d|] eqn:E;
      cbn [bind]; [|discriminate].
    assert (Hd : ready (set_chenda pat d))
      by (apply (append_assigned_ready pat e p r0); [assumption | now rewrite Ea]).
    destruct (i mod 8 =? 0)%nat.
    + intro Hc. refine (add_cymbal_events_ready _ _ _ _ _ Hc). exact Hd.
    + now intros [= <-].
  - unfold _orchestrate_antiphonal.
    destruct (first_by_role ens CHENDA_LEAD) as [lead|]; cbn [bind]; [|discriminate].
    destruct (first_by_role ens CHENDA_RHYTHM) as [rhythm|]; cbn [bind]; [|discriminate].
    destruct (first_by_role ens CHENDA_ACCENT) as [accent|]; cbn [bind]; [|discriminate].
    apply (for_enumerate_invariant (fun s => ready (fst s)));
      [|apply initial_pattern_ready].
    intros i e [pat r0] s1 _ Hinv. cbn [fst] in Hinv.
    destruct (is_rest e); [now intros [= <-]|].
    match goal with
    | |- context [_assign_event_to_player e ?p r0] =>
        destruct (_assign_event_to_player e p r0) as [a r1] eqn:Ea;
        destruct (dict_append (chenda_events pat) (id p) a) as [d|] eqn:E;
        cbn [bind]; [|discriminate];
        assert (Hd : ready (set_chenda pat d))
          by (apply (append_assigned_ready pat e p r0); [assumption | now rewrite Ea])
    end.
    now intros [= <-].
  - unfold _orchestrate_unison.
    apply (for_enumerate_invariant (fun s => ready (fst s)));
      [|apply initial_pattern_ready].
    intros i e s0 s1 _ Hinv.
    destruct (is_rest e); [now intros [= <-]|].
    destruct (assign_to_all e (get_chenda_players ens) s0) as [s2|] eqn:Ea;
      cbn [bind]; [|discriminate].
    pose proof (assign_to_all_ready _ _ _ _ Hinv Ea) as Hd.
    destruct (_is_structural_beat i (List.length events)).
    + intro Hc. refine (add_cymbal_events_ready _ _ _ _ _ Hc). exact Hd.
    + now intros [= <-].
  - unfold _orchestrate_layered.
    apply (for_enumerate_invariant (fun s => ready (fst s)));
      [|apply initial_pattern_ready].
    intros i e s0 s1 _ Hinv.
    destruct (is_rest e); [now intros [= <-]|].
    intro Ha. exact (assign_to_all_ready _ _ _ _ Hinv Ha).
Qed.

Lemma orchestrated_events_carry_velocity ens events strategy r pat r' :
  orchestrate_sequence ens events strategy r = Ok (pat, r') ->
  forall pid l e,
    In (pid, l) (get_all_player_events pat) -> In e l ->
    exists v, velocity e = Some v /\ 0 <= v /\ v <= 1.
Proof.
  intro Hrun. apply strategies_leave_ready in Hrun. cbn [fst] in Hrun.
  destruct Hrun as (Hch & Hcy & Hw).
  intros pid l e Hin He. unfold get_all_player_events in Hin.
  assert (Hfiled : Forall (ready_for pid) l).
  { apply dict_update_in in Hin. destruct Hin as [Hin | Hin];
      [|rewrite Hw in Hin; destruct Hin].
    apply dict_update_in in Hin. destruct Hin as [Hin | Hin]; [|exact (Hcy _ _ Hin)].
    apply dict_update_in in Hin. destruct Hin as [[] | Hin]. exact (Hch _ _ Hin). }
  rewrite Forall_forall in Hfiled. exact (proj1 (proj2 (Hfiled e He))).
Qed.

(** X17 (orchestration_engine.py, orchestrate_sequence and the five
    strategies): whatever the ensemble, the events, the strategy and the
    random source, a returned pattern has no wind list at all, and every
    event that get_all_player_events reports under a player id names that
    player as its assigned_player, carries a velocity in [0, 1] and a contact
    point. *)
Theorem orchestrated_pattern_is_ready (ens : Ensemble) (events : list StrokeEvent)
    (strategy : OrchestrationStrategy) (r : Rng) (pat : OrchestrationPattern)
    (r' : Rng) :
  orchestrate_sequence ens events strategy r = Ok (pat, r') ->
  wind_events pat = [] /\
  forall pid l e,
    In (pid, l) (get_all_player_events pat) -> In e l -> ready_for pid e.
Proof.
  intro Hrun. apply strategies_leave_ready in Hrun. cbn [fst] in Hrun.
  destruct Hrun as (Hch & Hcy & Hw). split; [exact Hw|].
  intros pid l e Hin He. unfold get_all_player_events in Hin.
  assert (Hfiled : Forall (ready_for pid) l).
  { apply dict_update_in in Hin. destruct Hin as [Hin | Hin];
      [|rewrite Hw in Hin; destruct Hin].
    apply dict_update_in in Hin. destruct Hin as [Hin | Hin]; [|exact (Hcy _ _ Hin)].
    apply dict_update_in in Hin. destruct Hin as [[] | Hin]. exact (Hch _ _ Hin). }
  rewrite Forall_forall in Hfiled. exact (Hfiled e He).
Qed.

Lemma orchestrated_pattern_is_ready_witness :
  exists pat r',
    orchestrate_sequence standard_melam demo_events TRADITIONAL rng_mid = Ok (pat, r') /\
    wind_events pat = [].
Proof.
  destruct (orchestrate_sequence standard_melam demo_events TRADITIONAL rng_mid)
    as [[pat r']|] eqn:E; [|vm_compute in E; discriminate].
  exists pat, r'. split; [reflexivity|].
  exact (proj1 (orchestrated_pattern_is_ready _ _ _ _ _ _ E)).
Defined.

End StrategyFacts.

(* ------------------------------------------------------------------ *)
(** ** ensemble_mixer.py: tracks, channels and the master *)
(* ------------------------------------------------------------------ *)

Module TrackFacts.
Import DictFacts BufferFacts MixerFacts.

Lemma add_onto_length (a w : list Q) : List.length (add_onto a w) = List.length a.
Proof.
  revert w. induction a as [|x a IH]; intros [|y w]; cbn; try reflexivity.
  now rewrite IH.
Qed.

Lemma add_at_length (track : list Q) (start : nat) (sound : list Q) :
  List.length (add_at track start sound) = List.length track.
Proof.
  revert track. induction start as [|s IH]; intros track.
  - destruct track; apply add_onto_length.
  - destruct track as [|x t]; cbn; [reflexivity | now rewrite IH].
Qed.

Lemma add_onto_silence (a w : list Q) : silent a -> silent w -> silent (add_onto a w).
Proof.
  intros Ha. revert w. induction Ha as [|x a Hx Ha IH]; intros w Hw; cbn.
  - destruct w; constructor.
  - destruct Hw as [|y w Hy Hw]; [now constructor|].
    constructor; [rewrite Hx, Hy; reflexivity | now apply IH].
Qed.

Lemma add_at_silence (track : list Q) (start : nat) (sound : list Q) :
  silent track -> silent sound -> silent (add_at track start sound).
Proof.
  intros Ht Hs. revert start. induction Ht as [|x t Hx Ht IH]; intros [|start].
  - apply (add_onto_silence []); [constructor | exact Hs].
  - constructor.
  - apply (add_onto_silence (x :: t)); [now constructor | exact Hs].
  - cbn. constructor; [exact Hx | apply IH].
Qed.

Lemma repeat_silent (n : nat) : silent (repeat 0 n).
Proof. induction n; cbn; constructor; [reflexivity | assumption]. Qed.

Lemma max_abs_silent (l : list Q) : silent l -> max_abs l == 0.
Proof.
  intro Hs. apply Qle_antisym; [|apply max_abs_nonneg].
  apply max_abs_le; [discriminate|].
  intros x Hx. unfold silent in Hs. rewrite Forall_forall in Hs.
  rewrite (Hs x Hx). discriminate.
Qed.

Section Render.
Variable M : PyMath.
Variable sp : Scipy Q.
Variable prof :
  StickProperties -> MembraneProperties -> Q -> Q -> Z -> Rng ->
  result (StrikeProfile * Rng).
Variable rate : Z.
Variable eng : SpectralEngine.
Variable heap : MembraneHeap.

Lemma render_event_length player n e track r track' r' :
  render_event M sp prof rate eng heap player n e (track, r) = Ok (track', r') ->
  List.length track' = List.length track.
Proof.
  unfold render_event. destruct (is_rest e); [now intros [= <- <-]|].
  match goal with
  | |- bind ?m _ = _ -> _ => destruct m as [[sound r1]|]; cbn [bind]; [|discriminate]
  end.
  destruct sound as [|x sound]; [now intros [= <- <-]|].
  destruct (_ <=? _)%Z; intros [= <- <-]; [reflexivity | apply add_at_length].
Qed.

Lemma render_track_length player events dur r track r' :
  _render_player_track M sp prof rate eng heap player events dur r = Ok (track, r') ->
  (0 <= py_int (dur * inject_Z rate))%Z /\
  List.length track = Z.to_nat (py_int (dur * inject_Z rate)).
Proof.
  unfold _render_player_track. cbv zeta.
  set (n := py_int (dur * inject_Z rate)).
  destruct (Z.ltb_spec n 0) as [Hneg | Hpos].
  - now rewrite np_zeros_negative.
  - rewrite np_zeros_ok by exact Hpos. cbn [bind]. intro Hrun.
    split; [exact Hpos|].
    pose proof (for_each_invariant
                  (fun s : list Q * Rng => List.length (fst s) = Z.to_nat n)
                  (render_event M sp prof rate eng heap player n) events) as Hinv.
    refine (Hinv _ _ (track, r') _ Hrun).
    + intros e [t0 r0] [t1 r1] _ Hlen Hstep. cbn [fst] in *.
      now rewrite (render_event_length _ _ _ _ _ _ _ Hstep).
    + cbn [fst]. apply repeat_length.
Qed.

(** X13 (ensemble_mixer.py, _render_player_track): the track of a wind
    player is silence.  For a non-negative sample rate and a track of
    int(duration * sample_rate) >= 0 samples, whatever the events are, the
    call returns a track of that many samples, all zero, and draws no random
    number. *)
Theorem wind_track_is_silence (player : Player) (events : list StrokeEvent)
    (dur : Q) (r : Rng) :
  is_wind player ->
  (0 <= rate)%Z ->
  (0 <= py_int (dur * inject_Z rate))%Z ->
  exists track,
    _render_player_track M sp prof rate eng heap player events dur r = Ok (track, r) /\
    List.length track = Z.to_nat (py_int (dur * inject_Z rate)) /\
    silent track.
Proof.
  intros Hwind Hrate Hn. unfold _render_player_track. cbv zeta.
  set (n := py_int (dur * inject_Z rate)) in *.
  rewrite np_zeros_ok by exact Hn. cbn [bind].
  assert (Hplace : (0 <= py_int ((1 # 10) * inject_Z rate))%Z).
  { rewrite py_int_nonneg.
    - apply Qfloor_resp_le with (x := 0).
      apply Qmult_le_0_compat; [discriminate|].
      change 0 with (inject_Z 0). now rewrite <- Zle_Qle.
    - apply Qmult_le_0_compat; [discriminate|].
      change 0 with (inject_Z 0). now rewrite <- Zle_Qle. }
  assert (Hloop : forall track, silent track ->
            exists track',
              for_each (render_event M sp prof rate eng heap player n) events (track, r)
              = Ok (track', r) /\
              List.length track' = List.length track /\ silent track').
  { induction events as [|e evs IH]; intros track Hs; cbn [for_each].
    - exists track. auto.
    - assert (Hstep : exists t1,
                render_event M sp prof rate eng heap player n e (track, r) = Ok (t1, r) /\
                List.length t1 = List.length track /\ silent t1).
      { unfold render_event. destruct (is_rest e); [exists track; auto|].
        assert (Hty : match instrument_type player with
                      | CHENDA | ELATHAALAM => False
                      | _ => True
                      end).
        { destruct Hwind as [-> | ->]; exact I. }
        destruct (instrument_type player); try contradiction;
          rewrite (np_zeros_ok _ Hplace); cbn [bind];
          (destruct (repeat 0 (Z.to_nat (py_int ((1 # 10) * inject_Z rate)))) eqn:Er;
             [exists track; auto|]);
          (destruct (_ <=? _)%Z; [exists track; auto|]);
          (eexists; split; [reflexivity|]; split; [apply add_at_length|]);
          (apply add_at_silence; [exact Hs|]); rewrite <- Er; apply repeat_silent. }
      destruct Hstep as (t1 & -> & Hl1 & Hs1). cbn [bind].
      destruct (IH t1 Hs1) as (t2 & Hrun & Hl2 & Hs2).
      exists t2. split; [exact Hrun|]. split; [congruence | exact Hs2]. }
  destruct (Hloop (repeat 0 (Z.to_nat n)) (repeat_silent _)) as (t & Hrun & Hl & Hs).
  exists t. split; [exact Hrun|]. split; [|exact Hs].
  now rewrite Hl, repeat_length.
Qed.

Lemma apply_spatial_lengths (mono_signal : list Q) (position : Q * Q * Q) :
  List.length (fst (_apply_spatial_position M rate mono_signal position))
    = List.length mono_signal /\
  List.length (snd (_apply_spatial_position M rate mono_signal position))
    = List.length mono_signal.
Proof.
  destruct position as [[x y] z]. unfold _apply_spatial_position. cbv zeta.
  destruct (_ && _); cbn [fst snd].
  - unfold np_pad.
    rewrite !length_firstn, !length_app, !repeat_length, !vec_scale_length. lia.
  - now rewrite !vec_scale_length.
Qed.

(** X14 (ensemble_mixer.py, _apply_spatial_position): whatever the position,
    the left and the right channel both have exactly as many samples as the
    mono signal (the distance delay pads at the front and cuts at the end),
    and a delayed channel starts with silence. *)
Theorem spatial_channels_keep_length (mono_signal : list Q) (position : Q * Q * Q) :
  let out := _apply_spatial_position M rate mono_signal position in
  let z := snd position in
  let delay := py_int ((z - (1#2)) / 343 * inject_Z rate) in
  (List.length (fst out) = List.length mono_signal /\
   List.length (snd out) = List.length mono_signal) /\
  (1#2 < z -> (0 < delay < 100)%Z ->
   forall i, (i < Z.to_nat delay)%nat -> (i < List.length mono_signal)%nat ->
             nth_error (fst out) i = Some 0 /\ nth_error (snd out) i = Some 0).
Proof.
  cbv zeta. split; [apply apply_spatial_lengths|].
  destruct position as [[x y] z]. cbn [snd]. intros Hz [Hd0 Hd1] i Hi Hlen.
  unfold _apply_spatial_position. cbv zeta.
  rewrite (proj2 (Qltb_lt _ _) Hz).
  rewrite (proj2 (Z.ltb_lt _ _) Hd0), (proj2 (Z.ltb_lt _ _) Hd1).
  cbn [andb fst snd]. unfold np_pad.
  rewrite !nth_error_firstn, !vec_scale_length.
  rewrite (proj2 (Nat.ltb_lt _ _) Hlen).
  rewrite !nth_error_app1 by (rewrite repeat_length; exact Hi).
  now rewrite (nth_error_repeat 0 Hi).
Qed.

Lemma np_max_abs_some (l : list Q) : l <> [] -> np_max_abs l = Ok (max_abs l).
Proof. destruct l; [congruence | reflexivity]. Qed.

Lemma np_max_abs_ok (l : list Q) (m : Q) :
  np_max_abs l = Ok m -> l <> [] /\ m = max_abs l.
Proof. destruct l; [discriminate|]. intros [= <-]. split; [discriminate | reflexivity]. Qed.

Lemma safety_normalize_length (p : Q) (x : list Q) :
  List.length (safety_normalize p x) = List.length x.
Proof. unfold safety_normalize. destruct (Qltb _ _); [apply length_map | reflexivity]. Qed.

Lemma safety_normalize_nil (p : Q) : safety_normalize p [] = [].
Proof. unfold safety_normalize. now destruct (Qltb _ _). Qed.

(** After the safety normalisation against the joint peak no sample of
    either channel exceeds 0.98. *)
Lemma safety_normalize_headroom (x y : list Q) :
  max_abs (safety_normalize (max_abs (x ++ y)) x ++
           safety_normalize (max_abs (x ++ y)) y) <= 98#100.
Proof.
  unfold safety_normalize. destruct (Qltb (98#100) (max_abs (x ++ y))) eqn:E.
  - rewrite <- map_app. apply normalized_peak; [discriminate|].
    apply Qltb_lt in E. lra.
  - now apply Qltb_ge in E.
Qed.

Lemma master_stereo_ok (l rt l' rt' : list Q) :
  master_stereo M l rt = Ok (l', rt') ->
  l ++ rt <> [] /\
  List.length l' = List.length l /\ List.length rt' = List.length rt /\
  max_abs (l' ++ rt') <= 98#100.
Proof.
  unfold master_stereo.
  destruct (np_max_abs (l ++ rt)) as [peak_pre|] eqn:Ep; cbn [bind]; [|discriminate].
  apply np_max_abs_ok in Ep. destruct Ep as [Hne ->].
  destruct (Qltb 0 (max_abs (l ++ rt))) eqn:E.
  - cbv zeta.
    set (f := fun v : Q => m_tanh M (v * _)).
    rewrite <- map_app, np_max_abs_some.
    + cbn [bind]. intros [= <- <-]. split; [exact Hne|].
      rewrite !safety_normalize_length, !length_map. split; [reflexivity|].
      split; [reflexivity|]. rewrite map_app. apply safety_normalize_headroom.
    + intro Hnil. apply Hne. now apply map_eq_nil in Hnil.
  - intros [= <- <-]. apply Qltb_ge in E.
    repeat split; try exact Hne. lra.
Qed.

Lemma master_mono_ok (m m' : list Q) :
  master_mono M m = Ok m' ->
  m <> [] /\ List.length m' = List.length m /\ max_abs m' <= 98#100.
Proof.
  unfold master_mono.
  destruct (np_max_abs m) as [peak_pre|] eqn:Ep; cbn [bind]; [|discriminate].
  apply np_max_abs_ok in Ep. destruct Ep as [Hne ->].
  destruct (Qltb 0 (max_abs m)) eqn:E.
  - cbv zeta. rewrite np_max_abs_some.
    + cbn [bind]. intros [= <-]. split; [exact Hne|].
      rewrite safety_normalize_length, length_map. split; [reflexivity|].
      pose proof (safety_normalize_headroom
                    (map (fun v => m_tanh M (v * (12 # 10))) m) []) as Hh.
      now rewrite safety_normalize_nil, !app_nil_r in Hh.
    + intro Hnil. apply Hne. now apply map_eq_nil in Hnil.
  - intros [= <-]. apply Qltb_ge in E. repeat split; try exact Hne. lra.
Qed.

Lemma render_player_sized ens solo_active dur (spatial stems_flag : bool) item s s' :
  mix_sized (Z.to_nat (py_int (dur * inject_Z rate))) stems_flag s ->
  render_player M sp prof rate eng heap ens solo_active dur spatial stems_flag item s
  = Ok s' ->
  mix_sized (Z.to_nat (py_int (dur * inject_Z rate))) stems_flag s'.
Proof.
  intros Hs. destruct item as [pid events]. unfold render_player.
  destruct events as [|e events]; [now intros [= <-]|].
  destruct (get_player ens pid) as [player|]; [|discriminate].
  destruct (mute player && negb (solo player)); [now intros [= <-]|].
  destruct (solo_active && negb (solo player)); [now intros [= <-]|].
  destruct (_render_player_track _ _ _ _ _ _ _ _ _ _) as [[track r1]|] eqn:Et;
    cbn [bind]; [|discriminate].
  apply render_track_length in Et. destruct Et as [_ Hlen].
  destruct Hs as (Hl & Hr & Hm & Hst & Hno). cbv zeta.
  set (stems1 := if stems_flag then dict_set (stems s) pid track else stems s).
  assert (Hst1 : all_values (fun t => List.length t = Z.to_nat (py_int (dur * inject_Z rate)))
                            stems1).
  { subst stems1. destruct stems_flag; [now apply all_values_set | exact Hst]. }
  assert (Hno1 : stems_flag = false -> stems1 = []).
  { subst stems1. intros ->. now apply Hno. }
  destruct spatial.
  - destruct (spatial_position player) as [[px py] pz].
    pose proof (apply_spatial_lengths (vec_scale track (gain player))
                  (pan player, py, pz)) as [Hfl Hfr].
    destruct (_apply_spatial_position _ _ _ _) as [l rt]. cbn [fst snd] in *.
    rewrite vec_scale_length in Hfl, Hfr.
    intros [= <-]. repeat split; cbn; try assumption;
      rewrite vec_add_length; congruence.
  - intros [= <-]. repeat split; cbn; try assumption.
    rewrite vec_add_length; [exact Hm|]. rewrite vec_scale_length. congruence.
Qed.

(** X15 (ensemble_mixer.py, render_ensemble): whenever the render returns,
    the duration held at least one sample (int(duration * sample_rate) >= 1),
    every channel of the master and every stem has exactly that many samples,
    no sample of the master exceeds 0.98 in absolute value, whatever tanh
    gives, and there is no stem unless stems were requested. *)
Theorem render_size_and_headroom (ens : Ensemble) (pattern : OrchestrationPattern)
    (dur : Q) (spatial stems_flag : bool) (r : Rng)
    (master : Master) (st : dict (list Q)) (r' : Rng) :
  render_ensemble M sp prof rate eng heap ens pattern dur spatial stems_flag r
  = Ok (master, st, r') ->
  let n := py_int (dur * inject_Z rate) in
  (1 <= n)%Z /\
  master_length master (Z.to_nat n) /\
  master_peak master <= 98#100 /\
  all_values (fun t => List.length t = Z.to_nat n) st /\
  (stems_flag = false -> st = []).
Proof.
  unfold render_ensemble. cbv zeta.
  set (n := py_int (dur * inject_Z rate)).
  destruct (Z.ltb_spec n 0) as [Hneg | Hpos];
    [now rewrite np_zeros_negative|].
  rewrite np_zeros_ok by exact Hpos. cbn [bind].
  destruct (for_each _ _ _) as [s|] eqn:Eloop; cbn [bind]; [|discriminate].
  assert (Hs : mix_sized (Z.to_nat n) stems_flag s).
  { refine (for_each_invariant (mix_sized (Z.to_nat n) stems_flag) _ _ _ _ s _ Eloop).
    - intros item s0 s1 _ H0 Hstep. exact (render_player_sized _ _ _ _ _ _ _ _ H0 Hstep).
    - repeat split; cbn; try apply repeat_length. constructor. }
  destruct Hs as (Hl & Hr & Hm & Hst & Hno).
  assert (Hone : forall x : list Q, x <> [] -> List.length x = Z.to_nat n -> (1 <= n)%Z).
  { intros [|v x] Hne Hlen; [congruence|]. cbn in Hlen. lia. }
  destruct spatial.
  - destruct (master_stereo M (mix_left s) (mix_right s)) as [[l rt]|] eqn:Em;
      cbn [bind]; [|discriminate].
    intros [= <- <- <-]. apply master_stereo_ok in Em.
    destruct Em as (Hne & Hll & Hlr & Hpk).
    assert (H1 : (1 <= n)%Z).
    { destruct (mix_left s) as [|v x]; [|exact (Hone (v :: x) ltac:(discriminate) Hl)].
      apply (Hone (mix_right s)); [|exact Hr]. intro Hnil. apply Hne. now rewrite Hnil. }
    split; [exact H1|]. cbn. repeat split; try congruence; assumption.
  - destruct (master_mono M (mix_mono s)) as [m|] eqn:Em; cbn [bind]; [|discriminate].
    intros [= <- <- <-]. apply master_mono_ok in Em.
    destruct Em as (Hne & Hlm & Hpk).
    split; [exact (Hone _ Hne Hm)|].
    cbn. repeat split; try congruence; assumption.
Qed.

(** X16 (ensemble_mixer.py, render_ensemble): when every player that has
    events is muted and not soloed (or no player has events), a render of at
    least one sample returns silence on every channel, no stem, and draws no
    random number. *)
Theorem muted_ensemble_renders_silence (ens : Ensemble)
    (pattern : OrchestrationPattern) (dur : Q) (spatial stems_flag : bool) (r : Rng) :
  (1 <= py_int (dur * inject_Z rate))%Z ->
  (forall item, In item (get_all_player_events pattern) -> muted_out ens item) ->
  let z := repeat 0 (Z.to_nat (py_int (dur * inject_Z rate))) in
  render_ensemble M sp prof rate eng heap ens pattern dur spatial stems_flag r
  = Ok (if spatial then Stereo z z else Mono z, [], r).
Proof.
  intros Hn Hmuted z. unfold render_ensemble. cbv zeta.
  rewrite np_zeros_ok by lia. cbn [bind]. fold z.
  rewrite for_each_all_skipped; cbn [bind].
  - assert (Hz : z <> []).
    { subst z. destruct (Z.to_nat _) eqn:E; [lia | discriminate]. }
    assert (Hsil : silent z) by apply repeat_silent.
    destruct spatial; cbn [mix_left mix_right mix_mono stems rng].
    + unfold master_stereo. rewrite np_max_abs_some.
      * cbn [bind].
        assert (Hq : Qltb 0 (max_abs (z ++ z)) = false).
        { apply Qltb_ge. rewrite max_abs_silent; [discriminate|].
          apply Forall_app. now split. }
        now rewrite Hq.
      * destruct z; [congruence | discriminate].
    + unfold master_mono. rewrite np_max_abs_some by exact Hz. cbn [bind].
      assert (Hq : Qltb 0 (max_abs z) = false).
      { apply Qltb_ge. rewrite max_abs_silent; [discriminate | exact Hsil]. }
      now rewrite Hq.
  - intros [pid events] s Hin. specialize (Hmuted _ Hin). unfold render_player.
    destruct Hmuted as [Hnil | (p & Hp & Hmute & Hsolo)]; cbn [fst snd] in *.
    + now subst events.
    + destruct events; [reflexivity|]. now rewrite Hp, Hmute, Hsolo.
Qed.

End Render.

Lemma wind_track_is_silence_witness :
  exists track,
    _render_player_track coarse_math plain_scipy plain_profile 44100 demo_engine
      initial_membranes (create_kombu "P6") [wind_note] (1#11025) rng_low
    = Ok (track, rng_low) /\
    List.length track = Z.to_nat (py_int ((1#11025) * inject_Z 44100)) /\
    silent track.
Proof.
  apply wind_track_is_silence.
  - left. reflexivity.
  - discriminate.
  - vm_compute. discriminate.
Defined.

Lemma spatial_channels_keep_length_witness :
  nth_error (fst (_apply_spatial_position coarse_math 44100 [1; 1; 1] (0, 0, 1))) 0
    = Some 0 /\
  nth_error (snd (_apply_spatial_position coarse_math 44100 [1; 1; 1] (0, 0, 1))) 0
    = Some 0.
Proof.
  refine (proj2 (spatial_channels_keep_length coarse_math 44100 [1; 1; 1] (0, 0, 1))
            _ _ 0%nat _ _).
  - reflexivity.
  - vm_compute. split; reflexivity.
  - vm_compute. lia.
  - cbn. lia.
Defined.

Lemma render_size_and_headroom_witness :
  exists m st r',
    render_ensemble coarse_math plain_scipy plain_profile 44100 demo_engine
      initial_membranes cymbal_and_soloed_wind cymbal_only_pattern
      (1#11025) false false rng_low = Ok (Mono m, st, r') /\
    List.length m = 4%nat /\ max_abs m <= 98#100.
Proof.
  destruct (render_ensemble coarse_math plain_scipy plain_profile 44100 demo_engine
              initial_membranes cymbal_and_soloed_wind cymbal_only_pattern
              (1#11025) false false rng_low) as [[[m st] r']|] eqn:E;
    [|vm_compute in E; discriminate].
  destruct m as [l rt | m]; [vm_compute in E; discriminate|].
  exists m, st, r'. split; [reflexivity|].
  destruct (render_size_and_headroom _ _ _ _ _ _ _ _ _ _ _ _ _ _ _ E)
    as (_ & Hlen & Hpk & _).
  split; [exact Hlen | exact Hpk].
Defined.

Lemma muted_ensemble_renders_silence_witness :
  render_ensemble coarse_math plain_scipy plain_profile 44100 demo_engine
    initial_membranes
    (mkEnsemble [("P6"%string, set_mute (create_kombu "P6") true)])
    (mkPattern [] [] [("P6"%string, [wind_note])]) (1#11025) true true rng_low
  = Ok (Stereo [0; 0; 0; 0] [0; 0; 0; 0], [], rng_low).
Proof.
  apply (muted_ensemble_renders_silence coarse_math plain_scipy plain_profile 44100
           demo_engine initial_membranes _ _ (1#11025) true true rng_low).
  - vm_compute. discriminate.
  - intros item [<- | []]. right. eexists. split; [reflexivity|]. split; reflexivity.
Defined.

End TrackFacts.

(* ------------------------------------------------------------------ *)
(** ** ensemble_mixer.py: the material chain on any kind of sample *)
(* ------------------------------------------------------------------ *)

Module ChainFacts.
Import BufferFacts.

Lemma last_map_seq {B : Type} (f : nat -> B) (m : nat) (d : B) :
  last (map f (seq 0 (S m))) d = f m.
Proof. rewrite seq_S, map_app. cbn [map Nat.add]. apply last_last. Qed.

Section Chain.
Context {T : Type} `{Sample T}.
Variable sp : Scipy T.
Variable rate : Z.

Lemma blend_with_length (sig filtered : list T) (blend : Q) :
  List.length filtered = List.length sig ->
  List.length (blend_with sig filtered blend) = List.length sig.
Proof.
  revert filtered. induction sig as [|x sig IH]; intros [|y filtered] Hl;
    cbn in *; try discriminate; try reflexivity.
  f_equal. apply IH. lia.
Qed.

Lemma pitch_bend_length (sig : list T) (bend_amount bend_duration : Q) :
  List.length (_apply_pitch_bend sp rate sig bend_amount bend_duration)
  = List.length sig.
Proof.
  unfold _apply_pitch_bend. cbv zeta.
  set (n := Z.of_nat (List.length sig)).
  set (k := if (n <? _)%Z then n else _).
  assert (Hk : (k <= n)%Z).
  { subst k. destruct (Z.ltb_spec n (py_int (bend_duration * inject_Z rate))); lia. }
  destruct (k <? 10)%Z; [reflexivity|].
  destruct (Qeq_bool _ 0); [reflexivity|].
  destruct (Qltb _ _); [|reflexivity].
  destruct (_ =? _)%nat eqn:E; [|reflexivity].
  apply Nat.eqb_eq in E. rewrite length_app, E, length_skipn. subst n. lia.
Qed.

(** X18 (ensemble_mixer.py, _apply_pitch_bend): the pitch bend leaves the
    signal as it is when fewer than 10 samples are to be bent, and also
    whenever 0 < bend_amount <= 2 and bend_samples * bend_amount >= 2, where
    bend_samples = min(len(signal), int(bend_duration * sample_rate)): the
    stretched time axis then ends at or beyond the bent portion, so the
    interpolation is never applied. *)
Theorem pitch_bend_is_idle (sig : list T) (bend_amount bend_duration : Q) :
  let bend_samples :=
    Z.min (Z.of_nat (List.length sig)) (py_int (bend_duration * inject_Z rate)) in
  (bend_samples < 10)%Z \/
  (0 < bend_amount /\ bend_amount <= 2 /\ 2 <= inject_Z bend_samples * bend_amount) ->
  _apply_pitch_bend sp rate sig bend_amount bend_duration = sig.
Proof.
  cbv zeta. intro Hcase. unfold _apply_pitch_bend. cbv zeta.
  set (n := Z.of_nat (List.length sig)) in *.
  set (bend0 := py_int (bend_duration * inject_Z rate)) in *.
  assert (Hmin : (if (n <? bend0)%Z then n else bend0) = Z.min n bend0).
  { destruct (Z.ltb_spec n bend0); lia. }
  rewrite Hmin. set (k := Z.min n bend0) in *.
  destruct (Z.ltb_spec k 10) as [Hlt | Hge]; [reflexivity|].
  destruct Hcase as [Hc | (Hb0 & Hb2 & Hkb)]; [lia|].
  destruct (Qeq_bool (1 - bend_amount * (1 # 2)) 0) eqn:Ed; [reflexivity|].
  apply Qeq_bool_neq in Ed.
  assert (Hd : 0 < 1 - bend_amount * (1 # 2)) by lra.
  destruct (Z.to_nat k) as [|m] eqn:Em; [lia|].
  rewrite last_map_seq.
  assert (Hlen : List.length (firstn (S m) sig) = S m).
  { rewrite length_firstn. subst n k. lia. }
  rewrite Hlen.
  assert (Hq : Qltb (inject_Z (Z.of_nat m) * (1 / (1 - bend_amount * (1 # 2))))
                    (inject_Z (Z.of_nat (S m))) = false).
  { apply Qltb_ge.
    assert (Hk : inject_Z k == inject_Z (Z.of_nat m) + 1).
    { replace k with (Z.of_nat (S m)) by lia.
      rewrite Nat2Z.inj_succ. unfold Z.succ. rewrite inject_Z_plus. reflexivity. }
    replace (Z.of_nat (S m)) with k by lia. rewrite Hk in *.
    set (x := inject_Z (Z.of_nat m)) in *.
    setoid_replace (x * (1 / (1 - bend_amount * (1 # 2))))
      with (x / (1 - bend_amount * (1 # 2))) by (field; lra).
    apply Qle_shift_div_l; [exact Hd|]. lra. }
  now rewrite Hq.
Qed.

(** The filters return as many samples as they are given, as scipy's do. *)
Hypothesis filter_length :
  forall bt wn x, List.length (butter_sosfilt sp bt wn x) = List.length x.

Lemma wood_character_length (sig : list T) (brightness : Q) :
  List.length (_apply_wood_character sp rate sig brightness) = List.length sig.
Proof.
  unfold _apply_wood_character.
  destruct (Qltb (6 # 10) brightness); [apply blend_with_length, filter_length|].
  destruct (Qltb brightness (4 # 10)); [apply blend_with_length, filter_length|].
  reflexivity.
Qed.

Lemma contact_point_length (sig : list T) (contact : Q) :
  List.length (apply_contact_point_filtering sp rate sig contact) = List.length sig.
Proof.
  unfold apply_contact_point_filtering.
  destruct (Qltb (1 # 2) contact); apply blend_with_length, filter_length.
Qed.

(** X19 (ensemble_mixer.py, _apply_material_effects, with _apply_pitch_bend,
    _apply_wood_character and stick_physics.apply_contact_point_filtering):
    with filters that return as many samples as they are given, the material
    chain returns exactly as many samples as the sound it is given, for every
    strike profile and wood; this holds whatever the interpolation returns. *)
Theorem material_effects_keep_length (sig : list T)
    (pitch_bend pitch_bend_duration contact : Q) (wood : WoodProperties) :
  List.length (_apply_material_effects sp rate sig pitch_bend pitch_bend_duration
                 contact wood)
  = List.length sig.
Proof.
  unfold _apply_material_effects. cbv zeta.
  rewrite contact_point_length, wood_character_length.
  destruct (Qltb (1 # 100) pitch_bend); [apply pitch_bend_length | reflexivity].
Qed.

End Chain.

Lemma pitch_bend_is_idle_witness :
  _apply_pitch_bend plain_scipy 44100 (repeat 1 20) (15#100) (4#1000) = repeat 1 20.
Proof.
  apply (pitch_bend_is_idle plain_scipy 44100 (repeat 1 20) (15#100) (4#1000)).
  right. vm_compute. repeat split; discriminate.
Defined.

Lemma material_effects_keep_length_witness :
  List.length
    (_apply_material_effects sample_scipy 44100 [Fin 1; NaN; Fin (1#2)]
       (5#100) (1#44100) (7#10) (mkWood "Jackwood (Varikka)" 720 (98#10) (15#100) 3800 65))
  = 3%nat.
Proof.
  apply (material_effects_keep_length sample_scipy 44100).
  intros bt wn x. apply PostFxFacts.one_pole_length.
Defined.

End ChainFacts.

(* ------------------------------------------------------------------ *)
(** ** From stroke names to the trace *)
(* ------------------------------------------------------------------ *)

Module PatternFacts.
Import DictFacts PlayerFacts StrategyFacts.

Lemma stroke_events_from_length bd curve i pattern :
  List.length (stroke_events_from bd curve i pattern) = List.length pattern.
Proof.
  revert i. induction pattern as [|s pattern IH]; intro i; cbn; [reflexivity|].
  now rewrite IH.
Qed.

Lemma stroke_events_from_nth bd curve pattern :
  forall i j e,
    nth_error (stroke_events_from bd curve i pattern) j = Some e ->
    time e = inject_Z (Z.of_nat (i + j)) * bd /\
    duration e = bd * (8#10) /\
    nth_error pattern j = Some (stroke_type e) /\
    assigned_player e = None /\ velocity e = None /\ contact_point e = None /\
    is_rest e = negb (playable (stroke_type e)).
Proof.
  induction pattern as [|s pattern IH]; intros i [|j] e; cbn [stroke_events_from nth_error];
    try discriminate.
  - intros [= <-]. rewrite Nat.add_0_r.
    do 6 (split; [reflexivity|]).
    unfold is_rest, playable, STROKE_LIBRARY.
    cbn [sound_category stroke_type dict_get].
    repeat match goal with
           | |- context [String.eqb s ?x] => destruct (String.eqb s x)
           end; reflexivity.
  - intro Hn. destruct (IH (S i) j e Hn) as (Ht & Hrest).
    split; [|exact Hrest]. rewrite Ht. now replace (S i + j)%nat with (i + S j)%nat by lia.
Qed.

Lemma non_rests_stroke_events bd curve i pattern :
  map stroke_type (non_rests (stroke_events_from bd curve i pattern))
  = filter playable pattern.
Proof.
  revert i. induction pattern as [|s pattern IH]; intro i; [reflexivity|].
  cbn [stroke_events_from]. unfold non_rests in *. cbn [filter].
  unfold is_rest at 1. cbn [sound_category]. fold (playable s).
  assert (Hp : negb (String.eqb match dict_get STROKE_LIBRARY s with
                                | Some c => c
                                | None => "REST"%string
                                end "REST") = playable s).
  { unfold playable. now destruct (dict_get STROKE_LIBRARY s). }
  rewrite Hp. destruct (playable s); cbn [map stroke_type]; [f_equal|]; apply IH.
Qed.

(** X20 (orchestration_engine.py, create_stroke_events_from_pattern): a bpm
    of zero raises ZeroDivisionError, even for the empty pattern.  Otherwise
    the call returns one unassigned event per stroke name, in order: the
    event of position i has time i * (60 / bpm), duration 0.8 * (60 / bpm),
    the name as its stroke type, no player, velocity or contact point, and it
    is a REST exactly when its name is "." or is not in the stroke library;
    so the non-REST events are, in order, those of the names that sound. *)
Theorem stroke_events_follow_the_pattern (pattern : list string) (bpm : Q)
    (intensity_curve : option (list Q)) :
  (bpm == 0 ->
   create_stroke_events_from_pattern pattern bpm intensity_curve
   = inl ZeroDivisionError) /\
  (~ bpm == 0 ->
   exists events,
     create_stroke_events_from_pattern pattern bpm intensity_curve = inr events /\
     List.length events = List.length pattern /\
     map stroke_type (non_rests events) = filter playable pattern /\
     forall i e, nth_error events i = Some e ->
       time e = inject_Z (Z.of_nat i) * (60 / bpm) /\
       duration e = 60 / bpm * (8#10) /\
       nth_error pattern i = Some (stroke_type e) /\
       assigned_player e = None /\ velocity e = None /\ contact_point e = None /\
       is_rest e = negb (playable (stroke_type e))).
Proof.
  unfold create_stroke_events_from_pattern. split.
  - intro Hz. now rewrite (proj2 (Qeq_bool_iff bpm 0) Hz).
  - intro Hnz. destruct (Qeq_bool bpm 0) eqn:E;
      [exfalso; apply Hnz; now apply Qeq_bool_iff|].
    eexists. split; [reflexivity|].
    split; [apply stroke_events_from_length|].
    split; [apply non_rests_stroke_events|].
    intros i e Hn. exact (stroke_events_from_nth _ _ _ 0%nat i e Hn).
Qed.

Lemma stroke_events_follow_the_pattern_witness :
  exists events,
    create_stroke_events_from_pattern ["Ta"; "Zz"; "."; "Dheem"]%string 120 None
    = inr events /\
    map stroke_type (non_rests events) = ["Ta"; "Dheem"]%string.
Proof.
  destruct (proj2 (stroke_events_follow_the_pattern
                     ["Ta"; "Zz"; "."; "Dheem"]%string 120 None))
    as (events & Hrun & _ & Hnr & _); [discriminate|].
  exists events. split; [exact Hrun | exact Hnr].
Defined.

(** *** The merged dictionary of a pattern *)

Lemma dict_get_update {V : Type} (e d : dict V) k :
  NoDup (dict_keys e) ->
  dict_get (dict_update d e) k =
  match dict_get e k with
  | Some v => Some v
  | None => dict_get d k
  end.
Proof.
  unfold dict_update. revert d.
  induction e as [|[k0 v0] e IH]; intros d Hnd; cbn [fold_left dict_get]; [reflexivity|].
  inversion Hnd as [|? ? Hk0 Hnd']; subst. rewrite (IH _ Hnd'). cbn [fst snd].
  destruct (String.eqb k k0) eqn:E.
  - apply String.eqb_eq in E. subst k0.
    rewrite (proj2 (dict_get_none_keys e k) Hk0). apply dict_get_set_same.
  - apply String.eqb_neq in E.
    destruct (dict_get e k); [reflexivity|]. apply dict_get_set_other. congruence.
Qed.

(** X21 (orchestration_engine.py, OrchestrationPattern.get_all_player_events):
    the merged dictionary reports, for a player id, the wind list if the
    pattern has one under that id, else the cymbal list, else the chenda
    list, else nothing: a list filed under the same id in an earlier group
    is dropped, not concatenated. *)
Theorem all_player_events_precedence (pat : OrchestrationPattern) (pid : string) :
  NoDup (dict_keys (chenda_events pat)) ->
  NoDup (dict_keys (cymbal_events pat)) ->
  NoDup (dict_keys (wind_events pat)) ->
  dict_get (get_all_player_events pat) pid =
  match dict_get (wind_events pat) pid with
  | Some l => Some l
  | None =>
      match dict_get (cymbal_events pat) pid with
      | Some l => Some l
      | None => dict_get (chenda_events pat) pid
      end
  end.
Proof.
  intros Hch Hcy Hw. unfold get_all_player_events.
  rewrite (dict_get_update _ _ _ Hw), (dict_get_update _ _ _ Hcy),
    (dict_get_update _ _ _ Hch).
  destruct (dict_get (wind_events pat) pid); [reflexivity|].
  destruct (dict_get (cymbal_events pat) pid); [reflexivity|].
  now destruct (dict_get (chenda_events pat) pid).
Qed.

Lemma all_player_events_precedence_witness :
  dict_get (get_all_player_events
              (mkPattern [("P4"%string, [dheem])] [("P4"%string, [cymbal_hit])] []))
           "P4"
  = Some [cymbal_hit].
Proof.
  apply (all_player_events_precedence
           (mkPattern [("P4"%string, [dheem])] [("P4"%string, [cymbal_hit])] []) "P4");
    cbn; repeat constructor; intros [].
Defined.

(** *** The standard ensemble *)

Lemma create_chenda_total cid bw vt et vs es var h r :
  dict_get WOOD_DATABASE bw <> None ->
  dict_get MEMBRANE_DATABASE ("cow_" ++ vt) <> None ->
  dict_get MEMBRANE_DATABASE ("cow_" ++ et) <> None ->
  dict_get STICK_DATABASE vs <> None ->
  dict_get STICK_DATABASE es <> None ->
  exists ins h' r',
    create_chenda cid bw vt et vs es var (h, r) = Ok (ins, (h', r')) /\
    List.length h' = List.length h /\
    cursor r' = (cursor r + 10)%nat.
Proof.
  intros Hw Hv He Hsv Hse.
  unfold create_chenda, get_random_wood_variant, dict_item.
  destruct (dict_get WOOD_DATABASE bw) as [base|]; [|congruence].
  destruct (dict_get MEMBRANE_DATABASE ("cow_" ++ vt)) as [pv|]; [|congruence].
  destruct (dict_get MEMBRANE_DATABASE ("cow_" ++ et)) as [pe|]; [|congruence].
  destruct (dict_get STICK_DATABASE vs) as [sv|]; [|congruence].
  destruct (dict_get STICK_DATABASE es) as [se|]; [|congruence].
  unfold np_uniform. cbn [bind advance cursor unit_draws].
  do 3 eexists. split; [reflexivity|]. split.
  - now rewrite !heap_update_length.
  - cbn [cursor advance]. lia.
Qed.

Lemma create_elathaalam_cursor eid size r :
  cursor (snd (create_elathaalam eid size r)) = (cursor r + 4)%nat.
Proof.
  unfold create_elathaalam, np_uniform. cbv zeta. cbn [snd cursor advance]. lia.
Qed.

(** X22 (player_system.py, Ensemble.build_standard_melam with the player and
    instrument factories): whatever the membrane heap and the random source,
    the standard ensemble is built without an exception; it registers six
    players under the keys P1..P6, each under its own id, with the roles lead,
    rhythm, accent (chendas), primary and secondary elathaalam, and kombu; the
    build consumes exactly 38 random draws and keeps the size of the heap. *)
Theorem standard_melam_is_always_built (h : MembraneHeap) (r : Rng) :
  exists ens h' r',
    build_standard_melam (h, r) = Ok (ens, (h', r')) /\
    roster ens =
      [ ("P1", "P1", CHENDA_LEAD, CHENDA); ("P2", "P2", CHENDA_RHYTHM, CHENDA);
        ("P3", "P3", CHENDA_ACCENT, CHENDA);
        ("P4", "P4", ELATHAALAM_PRIMARY, ELATHAALAM);
        ("P5", "P5", ELATHAALAM_SECONDARY, ELATHAALAM);
        ("P6", "P6", KOMBU, WIND_KOMBU) ]%string /\
    well_keyed ens /\
    List.length h' = List.length h /\
    cursor r' = (cursor r + 38)%nat.
Proof.
  unfold build_standard_melam, create_chenda_lead, create_chenda_rhythm,
    create_chenda_accent, create_elathaalam_primary, create_elathaalam_secondary.
  destruct (create_chenda_total "P1_chenda" "jackwood" "high" "medium"
              "bamboo_medium" "bamboo_heavy" (8#100) h r)
    as (i1 & h1 & r1 & E1 & Hh1 & Hr1); try (cbn; discriminate).
  change ("P1" ++ "_chenda")%string with "P1_chenda"%string. rewrite E1. cbn [bind].
  destruct (create_chenda_total "P2_chenda" "teak" "medium" "medium"
              "bamboo_medium" "bamboo_heavy" (8#100) h1 r1)
    as (i2 & h2 & r2 & E2 & Hh2 & Hr2); try (cbn; discriminate).
  change ("P2" ++ "_chenda")%string with "P2_chenda"%string. rewrite E2. cbn [bind].
  destruct (create_chenda_total "P3_chenda" "rosewood" "high" "medium"
              "teak_medium" "bamboo_heavy" (8#100) h2 r2)
    as (i3 & h3 & r3 & E3 & Hh3 & Hr3); try (cbn; discriminate).
  change ("P3" ++ "_chenda")%string with "P3_chenda"%string. rewrite E3. cbn [bind].
  pose proof (create_elathaalam_cursor ("P4" ++ "_elathaalam") "medium" r3) as Hr4.
  destruct (create_elathaalam ("P4" ++ "_elathaalam") "medium" r3) as [i4 r4].
  pose proof (create_elathaalam_cursor ("P5" ++ "_elathaalam") "small" r4) as Hr5.
  destruct (create_elathaalam ("P5" ++ "_elathaalam") "small" r4) as [i5 r5].
  cbn [snd] in Hr4, Hr5.
  do 3 eexists. split; [reflexivity|]. split; [reflexivity|]. split; [|split].
  - split.
    + cbn. repeat constructor; cbn; intuition discriminate.
    + intros k p Hin. cbn [players In] in Hin.
      repeat (destruct Hin as [Hin | Hin]; [injection Hin as <- <-; reflexivity|]).
      destruct Hin.
  - congruence.
  - lia.
Qed.

(** *** Material formulas *)

(** X23 (material_properties.py, MaterialEffectsCalculator.calculate_brightness):
    for a stick of tip hardness within [0, 100], a velocity >= 0 and a contact
    point within [0, 1], the brightness lies within [0, 1]; and it saturates:
    from velocity 2/3 on it no longer depends on the velocity. *)
Theorem brightness_range_and_saturation (stick : StickProperties)
    (impact_velocity contact : Q) :
  0 <= tip_hardness stick -> tip_hardness stick <= 100 ->
  0 <= impact_velocity ->
  0 <= contact -> contact <= 1 ->
  (0 <= calculate_brightness stick impact_velocity contact /\
   calculate_brightness stick impact_velocity contact <= 1) /\
  (2#3 <= impact_velocity ->
   calculate_brightness stick impact_velocity contact
   == calculate_brightness stick 1 contact).
Proof.
  intros Hh0 Hh1 Hv Hc0 Hc1.
  unfold calculate_brightness, impact_brightness. cbv zeta.
  set (hb := tip_hardness stick / 100).
  assert (Hhb : 0 <= hb /\ hb <= 1).
  { subst hb. split.
    - apply Qle_shift_div_l; [reflexivity | lra].
    - apply Qle_shift_div_r; [reflexivity | lra]. }
  set (pb := contact * (3 # 10) + (7 # 10)).
  assert (Hpb : 0 <= pb /\ pb <= 1) by (subst pb; split; lra).
  assert (Hone : Qltb (1 * (15 # 10)) 1 = false) by reflexivity.
  split.
  - set (vb := if Qltb (impact_velocity * (15 # 10)) 1
               then impact_velocity * (15 # 10) else 1).
    assert (Hvb : 0 <= vb /\ vb <= 1).
    { subst vb. destruct (Qltb (impact_velocity * (15 # 10)) 1) eqn:E.
      - apply Qltb_lt in E. split; lra.
      - split; lra. }
    split.
    + apply Qmult_le_0_compat; [apply Qmult_le_0_compat|]; tauto.
    + assert (H1 : hb * vb <= 1).
      { setoid_replace 1 with (1 * 1) by reflexivity.
        apply Qmult_le_compat_nonneg; split; tauto. }
      assert (H0 : 0 <= hb * vb) by (apply Qmult_le_0_compat; tauto).
      setoid_replace 1 with (1 * 1) by reflexivity.
      apply Qmult_le_compat_nonneg; split; tauto.
  - intro Hsat. rewrite Hone.
    assert (E : Qltb (impact_velocity * (15 # 10)) 1 = false) by (apply Qltb_ge; lra).
    rewrite E. reflexivity.
Qed.

Lemma brightness_range_and_saturation_witness :
  calculate_brightness (mkStick "bamboo" 95 35 (14#10) 75 8) (8#10) (7#10)
  == calculate_brightness (mkStick "bamboo" 95 35 (14#10) 75 8) 1 (7#10).
Proof.
  apply (brightness_range_and_saturation (mkStick "bamboo" 95 35 (14#10) 75 8)
           (8#10) (7#10)); discriminate.
Defined.

(** *** The orchestration trace *)

(** X24 (chendai_6player.py, the trace of generate_melam, over
    orchestrate_sequence): in the serialized tracks of a pattern returned by
    any strategy, every entry reports a velocity v with 0 < v <= 1: the
    event's own velocity, or 0.7 when that velocity is exactly zero; the
    tracks have the keys of get_all_player_events, in order, and one entry
    per event. *)
Theorem trace_velocity_is_positive (ens : Ensemble) (events : list StrokeEvent)
    (strategy : OrchestrationStrategy) (r : Rng) (pat : OrchestrationPattern)
    (r' : Rng) :
  orchestrate_sequence ens events strategy r = Ok (pat, r') ->
  map fst (serialize_tracks pat) = dict_keys (get_all_player_events pat) /\
  map (fun kv => List.length (snd kv)) (serialize_tracks pat)
  = map (fun kv => List.length (snd kv)) (get_all_player_events pat) /\
  forall pid entries t,
    In (pid, entries) (serialize_tracks pat) -> In t entries ->
    0 < trace_velocity t /\ trace_velocity t <= 1 /\
    exists l e v,
      In (pid, l) (get_all_player_events pat) /\ In e l /\
      velocity e = Some v /\
      trace_velocity t == (if Qeq_bool v 0 then 7#10 else v).
Proof.
  intro Hrun. unfold serialize_tracks, dict_keys. rewrite !map_map. cbn [fst snd].
  split; [reflexivity|]. split.
  - apply map_ext. intros [k l]. cbn. apply length_map.
  - intros pid entries t Hin Ht.
    apply in_map_iff in Hin. destruct Hin as ([k l] & [= <- <-] & Hin).
    apply in_map_iff in Ht. destruct Ht as (e & <- & He).
    destruct (orchestrated_events_carry_velocity _ _ _ _ _ _ Hrun _ _ _ Hin He)
      as (v & Hv & Hv0 & Hv1).
    unfold serialize_event. cbn [trace_velocity]. rewrite Hv.
    destruct (Qeq_bool v 0) eqn:E.
    + split; [reflexivity|]. split; [discriminate|].
      exists l, e, v. rewrite E. split; [exact Hin|]. split; [exact He|].
      split; [exact Hv | reflexivity].
    + pose proof (Qeq_bool_neq _ _ E) as Hne. split; [lra|]. split; [exact Hv1|].
      exists l, e, v. rewrite E. split; [exact Hin|]. split; [exact He|].
      split; [exact Hv | reflexivity].
Qed.

Lemma trace_velocity_is_positive_witness :
  exists pat r',
    orchestrate_sequence standard_melam demo_events UNISON rng_mid = Ok (pat, r') /\
    map fst (serialize_tracks pat) = dict_keys (get_all_player_events pat).
Proof.
  destruct (orchestrate_sequence standard_melam demo_events UNISON rng_mid)
    as [[pat r']|] eqn:E; [|vm_compute in E; discriminate].
  exists pat, r'. split; [reflexivity|].
  exact (proj1 (trace_velocity_is_positive _ _ _ _ _ _ E)).
Defined.

End PatternFacts.

(* ------------------------------------------------------------------ *)
(** ** Cymbal hits and the placing of sounds *)
(* ------------------------------------------------------------------ *)

Module BeatFacts.
Import DictFacts BufferFacts StrategyFacts TrackFacts.

Lemma for_enumerate_indexed {A St : Type} (body : nat -> A -> St -> result St)
    (Inv : nat -> St -> Prop) (events : list A) :
  forall i0,
    (forall j e s s', nth_error events j = Some e -> Inv (i0 + j)%nat s ->
                      body (i0 + j)%nat e s = Ok s' -> Inv (i0 + S j)%nat s') ->
    forall s s', Inv i0 s -> for_enumerate body i0 events s = Ok s' ->
                 Inv (i0 + List.length events)%nat s'.
Proof.
  induction events as [|e events IH]; intros i0 Hstep s s' Hs Hrun;
    cbn [for_enumerate List.length] in *.
  - injection Hrun as <-. now rewrite Nat.add_0_r.
  - destruct (body i0 e s) as [s1|] eqn:E; cbn [bind] in Hrun; [|discriminate].
    assert (Hs1 : Inv (S i0) s1).
    { replace (S i0) with (i0 + 1)%nat by lia.
      apply (Hstep 0%nat e s s1 eq_refl); rewrite Nat.add_0_r; assumption. }
    replace (i0 + S (List.length events))%nat
      with (S i0 + List.length events)%nat by lia.
    apply (IH (S i0)) with (s := s1); [|exact Hs1 | exact Hrun].
    intros j e' s2 s3 Hn Hi Hb.
    replace (S i0 + S j)%nat with (i0 + S (S j))%nat by lia.
    replace (S i0 + j)%nat with (i0 + S j)%nat in * by lia.
    exact (Hstep (S j) e' s2 s3 Hn Hi Hb).
Qed.

Lemma count_beats_snoc m i (l : list StrokeEvent) e :
  count_beats m i (l ++ [e]) =
  (count_beats m i l +
   (if ((i + List.length l) mod m =? 0)%nat && negb (is_rest e) then 1 else 0))%nat.
Proof.
  revert i. induction l as [|x l IH]; intro i; cbn [app count_beats List.length].
  - rewrite (Nat.add_0_r i). now destruct (_ && _).
  - rewrite IH. replace (S i + List.length l)%nat with (i + S (List.length l))%nat by lia.
    generalize (if ((i + S (List.length l)) mod m =? 0)%nat && negb (is_rest e)
                then 1%nat else 0%nat).
    generalize (if (i mod m =? 0)%nat && negb (is_rest x) then 1%nat else 0%nat).
    intros a b. lia.
Qed.

Lemma count_beats_step m (events : list StrokeEvent) j e :
  nth_error events j = Some e ->
  count_beats m 0 (firstn (S j) events) =
  (count_beats m 0 (firstn j events) +
   (if (j mod m =? 0)%nat && negb (is_rest e) then 1 else 0))%nat.
Proof.
  intro Hn. rewrite (firstn_succ_nth _ _ _ Hn), count_beats_snoc.
  assert (Hj : (j < List.length events)%nat) by (apply nth_error_Some; congruence).
  rewrite length_firstn. now replace (0 + Nat.min j (List.length events))%nat with j by lia.
Qed.

Lemma add_cymbal_events_count t cymbals pat r pat' r' :
  _add_cymbal_events t cymbals (pat, r) = Ok (pat', r') ->
  total_events (cymbal_events pat')
  = (total_events (cymbal_events pat) + List.length cymbals)%nat.
Proof.
  unfold _add_cymbal_events. revert pat r.
  induction cymbals as [|c cymbals IH]; intros pat r; cbn [for_each List.length].
  { intros [= <- <-]. lia. }
  destruct (get_timing_offset (timing c) t r) as [off r1].
  destruct (get_velocity_for_intensity c (6 # 10) r1) as [v r2].
  cbv zeta.
  match goal with
    | |- context [dict_append ?d ?k ?x] =>
        destruct (dict_append d k x) as [d1|] eqn:E;
        [assert (Ht : total_events d1 = S (total_events d))|]
    end; cbn [bind]; [| |discriminate].
    - unfold dict_append in E.
      destruct (dict_get (cymbal_events pat) (id c)) as [l|] eqn:El; [|discriminate].
      injection E as <-.
      match goal with
      | |- total_events (dict_set _ _ ?v) = _ =>
          pose proof (total_events_set _ _ _ v El) as Hs
      end.
      rewrite length_app in Hs. cbn [List.length] in Hs. lia.
    - intro Hrun. rewrite (IH _ _ Hrun). cbn [set_cymbal cymbal_events]. lia.
Qed.

Lemma assign_to_all_keeps_cymbals e ps s s' :
  assign_to_all e ps s = Ok s' -> cymbal_events (fst s') = cymbal_events (fst s).
Proof.
  unfold assign_to_all. intro Hrun.
  refine (for_each_invariant
            (fun x : OState => cymbal_events (fst x) = cymbal_events (fst s))
            _ ps _ s s' eq_refl Hrun).
  intros p [pat r] s1 _ Hinv. cbn [fst] in *.
  destruct (_assign_event_to_player e p r) as [a r1].
  destruct (dict_append (chenda_events pat) (id p) a) as [d|]; cbn [bind]; [|discriminate].
  intros [= <-]. exact Hinv.
Qed.

(** The step shared by the strategies that may add cymbal hits. *)
Lemma cymbal_count_step (m : nat) (events : list StrokeEvent) cymbals j e
    (pat : OrchestrationPattern) (r : Rng) (d : dict (list StrokeEvent)) s' :
  nth_error events j = Some e -> is_rest e = false ->
  total_events (cymbal_events pat)
  = (List.length cymbals * count_beats m 0 (firstn j events))%nat ->
  (if (j mod m =? 0)%nat
   then _add_cymbal_events (time e) cymbals (set_chenda pat d, r)
   else Ok (set_chenda pat d, r)) = Ok s' ->
  total_events (cymbal_events (fst s'))
  = (List.length cymbals * count_beats m 0 (firstn (S j) events))%nat.
Proof.
  intros Hn He Hinv Hrun. rewrite (count_beats_step _ _ _ _ Hn), He. cbn [negb].
  rewrite andb_true_r. destruct (j mod m =? 0)%nat.
  - destruct s' as [pat' r']. apply add_cymbal_events_count in Hrun.
    cbn [fst set_chenda cymbal_events] in *. lia.
  - injection Hrun as <-. cbn [fst set_chenda cymbal_events]. lia.
Qed.

Lemma cymbal_count_rest (m : nat) (events : list StrokeEvent) j e (n c : nat) :
  nth_error events j = Some e -> is_rest e = true ->
  n = (c * count_beats m 0 (firstn j events))%nat ->
  n = (c * count_beats m 0 (firstn (S j) events))%nat.
Proof.
  intros Hn He ->. rewrite (count_beats_step _ _ _ _ Hn), He. cbn [negb].
  rewrite andb_false_r. lia.
Qed.

(** X25 (orchestration_engine.py, the five strategies with _add_cymbal_events
    and _is_structural_beat): in a returned pattern the cymbal lists hold, in
    all, one hit per cymbal player for every non-REST event at a position
    that is a multiple of 4 under the traditional and unison strategies, of 8
    under the dynamic strategy, and no hit at all under the antiphonal and
    layered strategies. *)
Theorem cymbals_strike_on_the_beat (ens : Ensemble) (events : list StrokeEvent)
    (strategy : OrchestrationStrategy) (r : Rng) (pat : OrchestrationPattern)
    (r' : Rng) :
  orchestrate_sequence ens events strategy r = Ok (pat, r') ->
  total_events (cymbal_events pat)
  = match cymbal_period strategy with
    | O => 0%nat
    | m => (List.length (get_cymbal_players ens) * count_beats m 0 events)%nat
    end.
Proof.
  set (cymbals := get_cymbal_players ens).
  assert (Hgen : forall m body s0,
            total_events (cymbal_events (fst s0)) = 0%nat ->
            (forall j e s s', nth_error events j = Some e ->
               total_events (cymbal_events (fst s))
               = (List.length cymbals * count_beats m 0 (firstn j events))%nat ->
               body j e s = Ok s' ->
               total_events (cymbal_events (fst s'))
               = (List.length cymbals * count_beats m 0 (firstn (S j) events))%nat) ->
            for_enumerate body 0%nat events s0 = Ok (pat, r') ->
            total_events (cymbal_events pat)
            = (List.length cymbals * count_beats m 0 events)%nat).
  { intros m body s0 H0 Hstep Hrun.
    pose proof (for_enumerate_indexed body
                  (fun j s => total_events (cymbal_events (fst s))
                              = (List.length cymbals
                                 * count_beats m 0 (firstn j events))%nat)
                  events 0%nat) as Hinv.
    cbn [Nat.add] in Hinv. specialize (Hinv Hstep s0 (pat, r')).
    cbn [fst] in Hinv. rewrite firstn_all in Hinv. apply Hinv; [|exact Hrun].
    cbn [firstn count_beats]. rewrite H0. lia. }
  assert (Hquiet : forall body s0,
            total_events (cymbal_events (fst s0)) = 0%nat ->
            (forall j e s s', body j e s = Ok s' ->
               cymbal_events (fst s') = cymbal_events (fst s)) ->
            for_enumerate body 0%nat events s0 = Ok (pat, r') ->
            total_events (cymbal_events pat) = 0%nat).
  { intros body s0 H0 Hstep Hrun.
    refine (for_enumerate_invariant
              (fun s : OState => total_events (cymbal_events (fst s)) = 0%nat)
              body events _ 0%nat s0 (pat, r') H0 Hrun).
    intros j e s s' _ Hs Hb. now rewrite (Hstep j e s s' Hb). }
  destruct strategy; cbn [orchestrate_sequence cymbal_period].
  - unfold _orchestrate_traditional.
    destruct (first_by_role ens CHENDA_LEAD) as [lead|]; cbn [bind]; [|discriminate].
    destruct (first_by_role ens CHENDA_RHYTHM) as [rhythm|]; cbn [bind]; [|discriminate].
    destruct (first_by_role ens CHENDA_ACCENT) as [accent|]; cbn [bind]; [|discriminate].
    cbv zeta. apply (Hgen 4%nat); [apply total_events_init|].
    intros j e [p0 r0] s' Hn Hinv. cbn [fst] in Hinv.
    destruct (is_rest e) eqn:He.
    + intros [= <-]. cbn [fst]. exact (cymbal_count_rest _ _ _ _ _ _ Hn He Hinv).
    + match goal with
      | |- context [_assign_event_to_player e ?p r0] =>
          destruct (_assign_event_to_player e p r0) as [a r1];
          destruct (dict_append (chenda_events p0) (id p) a) as [d|];
          cbn [bind]; [|discriminate]
      end.
      unfold _is_structural_beat.
      exact (cymbal_count_step 4 events cymbals j e p0 r1 d s' Hn He Hinv).
  - unfold _orchestrate_dynamic. cbv zeta.
    apply (Hgen 8%nat); [apply total_events_init|].
    intros j e [p0 r0] s' Hn Hinv. cbn [fst] in Hinv.
    destruct (is_rest e) eqn:He.
    + intros [= <-]. cbn [fst]. exact (cymbal_count_rest _ _ _ _ _ _ Hn He Hinv).
    + destruct (_select_player_by_load ens (get_chenda_players ens) p0) as [[p|]|];
        cbn [bind]; try discriminate.
      destruct (_assign_event_to_player e p r0) as [a r1].
      destruct (dict_append (chenda_events p0) (id p) a) as [d|];
        cbn [bind]; [|discriminate].
      exact (cymbal_count_step 8 events cymbals j e p0 r1 d s' Hn He Hinv).
  - unfold _orchestrate_antiphonal.
    destruct (first_by_role ens CHENDA_LEAD) as [lead|]; cbn [bind]; [|discriminate].
    destruct (first_by_role ens CHENDA_RHYTHM) as [rhythm|]; cbn [bind]; [|discriminate].
    destruct (first_by_role ens CHENDA_ACCENT) as [accent|]; cbn [bind]; [|discriminate].
    cbv zeta. apply Hquiet; [apply total_events_init|].
    intros j e [p0 r0] s'.
    destruct (is_rest e); [now intros [= <-]|].
    match goal with
    | |- context [_assign_event_to_player e ?p r0] =>
        destruct (_assign_event_to_player e p r0) as [a r1];
        destruct (dict_append (chenda_events p0) (id p) a) as [d|];
        cbn [bind]; [|discriminate]
    end.
    now intros [= <-].
  - unfold _orchestrate_unison. cbv zeta.
    apply (Hgen 4%nat); [apply total_events_init|].
    intros j e s s' Hn Hinv.
    destruct (is_rest e) eqn:He.
    + intros [= <-]. exact (cymbal_count_rest _ _ _ _ _ _ Hn He Hinv).
    + destruct (assign_to_all e (get_chenda_players ens) s) as [[p1 r1]|] eqn:Ea;
        cbn [bind]; [|discriminate].
      apply assign_to_all_keeps_cymbals in Ea. cbn [fst] in Ea.
      unfold _is_structural_beat. intro Hrun.
      refine (cymbal_count_step 4 events cymbals j e p1 r1 (chenda_events p1) s'
                Hn He _ _).
      * now rewrite Ea.
      * destruct p1. exact Hrun.
  - unfold _orchestrate_layered. cbv zeta.
    apply Hquiet; [apply total_events_init|].
    intros j e s s'.
    destruct (is_rest e); [now intros [= <-]|].
    apply assign_to_all_keeps_cymbals.
Qed.

Lemma cymbals_strike_on_the_beat_witness :
  exists pat r',
    orchestrate_sequence standard_melam demo_events TRADITIONAL rng_mid = Ok (pat, r') /\
    total_events (cymbal_events pat) = 2%nat.
Proof.
  destruct (orchestrate_sequence standard_melam demo_events TRADITIONAL rng_mid)
    as [[pat r']|] eqn:E; [|vm_compute in E; discriminate].
  exists pat, r'. split; [reflexivity|].
  exact (cymbals_strike_on_the_beat _ _ _ _ _ _ E).
Defined.

(** *** Where a sound lands in the track *)

Lemma add_at_before (track : list Q) (start : nat) (sound : list Q) (i : nat) :
  (i < start)%nat -> nth_error (add_at track start sound) i = nth_error track i.
Proof.
  revert track i. induction start as [|s IH]; intros track i Hi; [lia|].
  destruct track as [|x t]; [reflexivity|]. cbn [add_at].
  destruct i as [|i]; [reflexivity|]. cbn [nth_error]. apply IH. lia.
Qed.

Section Render.
Variable M : PyMath.
Variable sp : Scipy Q.
Variable prof :
  StickProperties -> MembraneProperties -> Q -> Q -> Z -> Rng ->
  result (StrikeProfile * Rng).
Variable rate : Z.
Variable eng : SpectralEngine.
Variable heap : MembraneHeap.

Lemma render_event_before player n e track r track' r' i :
  render_event M sp prof rate eng heap player n e (track, r) = Ok (track', r') ->
  is_rest e = true \/ (i < start_sample_of rate e)%nat ->
  nth_error track' i = nth_error track i.
Proof.
  unfold render_event. destruct (is_rest e) eqn:He; [now intros [= <- <-]|].
  intros Hrun [Hrest | Hi]; [discriminate|]. revert Hrun.
  match goal with
  | |- bind ?m _ = _ -> _ => destruct m as [[sound r1]|]; cbn [bind]; [|discriminate]
  end.
  destruct sound as [|x sound]; [now intros [= <- <-]|].
  destruct (_ <=? _)%Z; intros [= <- <-]; [reflexivity|].
  now apply add_at_before.
Qed.

(** X26 (ensemble_mixer.py, _render_player_track): a returned track has
    int(duration * sample_rate) samples, and it is silent before the first
    event starts: every sample at an index below the start sample
    max(0, int(time * sample_rate)) of all the non-REST events is zero. *)
Theorem track_is_silent_before_first_event (player : Player)
    (events : list StrokeEvent) (dur : Q) (r : Rng) (track : list Q) (r' : Rng)
    (first : nat) :
  _render_player_track M sp prof rate eng heap player events dur r = Ok (track, r') ->
  (forall e, In e events -> is_rest e = false -> (first <= start_sample_of rate e)%nat) ->
  List.length track = Z.to_nat (py_int (dur * inject_Z rate)) /\
  forall i, (i < first)%nat -> (i < List.length track)%nat -> nth_error track i = Some 0.
Proof.
  intros Hrun Hfirst.
  pose proof (render_track_length M sp prof rate eng heap _ _ _ _ _ _ Hrun) as [Hn Hlen].
  split; [exact Hlen|].
  unfold _render_player_track in Hrun. cbv zeta in Hrun.
  rewrite np_zeros_ok in Hrun by exact Hn. cbn [bind] in Hrun.
  set (n := py_int (dur * inject_Z rate)) in *.
  assert (Hinv : forall i, (i < first)%nat ->
            nth_error track i = nth_error (repeat 0 (Z.to_nat n)) i).
  { intros i Hi.
    refine (for_each_invariant
              (fun s : list Q * Rng =>
                 nth_error (fst s) i = nth_error (repeat 0 (Z.to_nat n)) i)
              _ events _ (repeat 0 (Z.to_nat n), r) (track, r') eq_refl Hrun).
    intros e [t0 r0] [t1 r1] Hin Hs Hstep. cbn [fst] in *.
    rewrite <- Hs. apply (render_event_before _ _ _ _ _ _ _ _ Hstep).
    destruct (is_rest e) eqn:He; [now left|]. right.
    specialize (Hfirst e Hin He). lia. }
  intros i Hi Hil. rewrite (Hinv i Hi). apply nth_error_repeat. lia.
Qed.

End Render.

Lemma track_is_silent_before_first_event_witness :
  exists track r',
    _render_player_track coarse_math plain_scipy plain_profile 44100 demo_engine
      initial_membranes
      (fst (create_elathaalam_primary "P4" (initial_membranes, rng_low)))
      [mkEvent (1#22050) "1" "NAM" (6#10) (1#11025) (Some "P4"%string)
         (Some (8#10)) (Some (1#2))]
      (1#11025) rng_low = Ok (track, r') /\
    nth_error track 1 = Some 0.
Proof.
  destruct (_render_player_track coarse_math plain_scipy plain_profile 44100 demo_engine
              initial_membranes
              (fst (create_elathaalam_primary "P4" (initial_membranes, rng_low)))
              [mkEvent (1#22050) "1" "NAM" (6#10) (1#11025) (Some "P4"%string)
                 (Some (8#10)) (Some (1#2))]
              (1#11025) rng_low) as [[track r']|] eqn:E;
    [|vm_compute in E; discriminate].
  exists track, r'. split; [reflexivity|].
  destruct (track_is_silent_before_first_event _ _ _ _ _ _ _ _ _ _ _ _ 2%nat E)
    as [Hlen Hsil].
  - intros e [<- | []] _. vm_compute. lia.
  - apply Hsil; [lia|]. rewrite Hlen. vm_compute. lia.
Defined.

End BeatFacts.

(* ------------------------------------------------------------------ *)
(** ** Cymbals, and the level of a sound *)
(* ------------------------------------------------------------------ *)

Module SoundFacts.
Import PyFacts BufferFacts SpectralFacts.

(** X27 (player_system.py, InstrumentFactory.create_elathaalam and
    ElathaalamInstrument.get_base_frequency): for uniform samples in [0, 1)
    a created cymbal has a diameter within 12..14 cm for size "small",
    16..18 for "large" and 14..16 for "medium" and for every unknown size, a
    thickness within 1.5..2.5 mm, bronze or brass as its metal, an age of 1
    to 10 years; its base frequency is defined and lies within 2000/18 and
    2000/12 Hz; and the call makes exactly four random draws. *)
Theorem elathaalam_is_within_range (eid size : string) (r : Rng) :
  unit_range r ->
  let ins := fst (create_elathaalam eid size r) in
  (size = "small"%string -> 12 <= diameter ins /\ diameter ins <= 14) /\
  (size = "large"%string -> 16 <= diameter ins /\ diameter ins <= 18) /\
  (size <> "small"%string -> size <> "large"%string ->
   14 <= diameter ins /\ diameter ins <= 16) /\
  (15#10 <= cymbal_thickness ins /\ cymbal_thickness ins <= 25#10) /\
  (metal_type ins = "bronze"%string \/ metal_type ins = "brass"%string) /\
  (1 <= age_years ins <= 10)%Z /\
  (exists f, get_base_frequency ins = inr f /\ 2000 / 18 <= f /\ f <= 2000 / 12) /\
  cursor (snd (create_elathaalam eid size r)) = (cursor r + 4)%nat.
Proof.
  intros Hr. cbv zeta.
  assert (Hd : forall lo hi, lo <= hi ->
            lo <= fst (np_uniform lo hi r) /\ fst (np_uniform lo hi r) <= hi).
  { intros lo hi Hlh. unfold np_uniform. cbn [fst].
    destruct (Hr (cursor r)). now apply uniform_draw_bounds. }
  assert (Hshape : exists lo hi,
            diameter (fst (create_elathaalam eid size r)) = fst (np_uniform lo hi r) /\
            12 <= lo /\ lo <= hi /\ hi <= 18 /\
            (size = "small"%string -> lo = 12 /\ hi = 14) /\
            (size = "large"%string -> lo = 16 /\ hi = 18) /\
            (size <> "small"%string -> size <> "large"%string -> lo = 14 /\ hi = 16)).
  { unfold create_elathaalam. cbv zeta. cbn [dict_get].
    destruct (String.eqb_spec size "small") as [-> | Hs].
    - exists 12, 14. cbn [fst snd diameter].
      repeat split; try discriminate; congruence.
    - destruct (String.eqb_spec size "medium") as [-> | Hm].
      + exists 14, 16. cbn [fst snd diameter].
        repeat split; try discriminate; congruence.
      + destruct (String.eqb_spec size "large") as [-> | Hl].
        * exists 16, 18. cbn [fst snd diameter].
          repeat split; try discriminate; congruence.
        * exists 14, 16. cbn [fst snd diameter].
          repeat split; try discriminate; congruence. }
  destruct Hshape as (lo & hi & Hdia & Hlo & Hlh & Hhi & Hsmall & Hlarge & Hother).
  destruct (Hd lo hi Hlh) as [Hd0 Hd1]. rewrite <- Hdia in Hd0, Hd1.
  split; [intro E; destruct (Hsmall E) as [-> ->]; now split|].
  split; [intro E; destruct (Hlarge E) as [-> ->]; now split|].
  split; [intros E1 E2; destruct (Hother E1 E2) as [-> ->]; now split|].
  split; [|split; [|split; [|split]]].
  - unfold create_elathaalam. cbv zeta. cbn [fst cymbal_thickness].
    unfold np_uniform. cbn [fst snd advance cursor unit_draws].
    destruct (Hr (S (cursor r))). now apply uniform_draw_bounds.
  - unfold create_elathaalam, np_uniform. cbv zeta. cbn [fst metal_type].
    match goal with
    | |- context [nth (?k mod 2) _ _] =>
        pose proof (Nat.mod_upper_bound k 2) as Hk; destruct (k mod 2)%nat as [|[|n]]
    end; cbn [nth]; auto. lia.
  - unfold create_elathaalam, np_uniform. cbv zeta. cbn [fst age_years].
    match goal with
    | |- context [Z.of_nat (?k mod 10)] =>
        pose proof (Nat.mod_upper_bound k 10) as Hk
    end. lia.
  - unfold get_base_frequency.
    set (d := diameter (fst (create_elathaalam eid size r))) in *.
    assert (Hpos : 0 < d) by lra.
    destruct (Qeq_bool d 0) eqn:E; [apply Qeq_bool_iff in E; lra|].
    eexists. split; [reflexivity|]. split.
    + apply Qle_shift_div_l; [exact Hpos|].
      setoid_replace (2000 / 18 * d) with (2000 * (d / 18)) by (field; lra).
      assert (d / 18 <= 1) by (apply Qle_shift_div_r; [reflexivity | lra]). lra.
    + apply Qle_shift_div_r; [exact Hpos|].
      setoid_replace (2000 / 12 * d) with (2000 * (d / 12)) by (field; lra).
      assert (1 <= d / 12) by (apply Qle_shift_div_l; [reflexivity | lra]). lra.
  - unfold create_elathaalam, np_uniform. cbv zeta. cbn [snd cursor advance]. lia.
Qed.

Lemma elathaalam_is_within_range_witness :
  14 <= diameter (fst (create_elathaalam "P4_elathaalam" "huge" rng_mid)) /\
  diameter (fst (create_elathaalam "P4_elathaalam" "huge" rng_mid)) <= 16.
Proof.
  destruct (elathaalam_is_within_range "P4_elathaalam" "huge" rng_mid)
    as (_ & _ & Hmid & _).
  - intro n. cbn. split; [discriminate | reflexivity].
  - apply Hmid; discriminate.
Defined.

(** The running maximum is its start value or the size of a sample. *)
Lemma peak_from_attained (l : list Q) (m : Q) :
  peak_from m l = m \/ exists x, In x l /\ peak_from m l = Qabs x.
Proof.
  unfold peak_from. revert m. induction l as [|y l IH]; intro m; cbn [fold_left];
    [now left|].
  destruct (IH (if Qltb m (Qabs y) then Qabs y else m)) as [Hm | (x & Hx & Hp)].
  - rewrite Hm. destruct (Qltb m (Qabs y)); [|now left].
    right. exists y. split; [now left | reflexivity].
  - right. exists x. split; [now right | exact Hp].
Qed.

Lemma max_abs_attained (l : list Q) :
  0 < max_abs l -> exists x, In x l /\ Qabs x == max_abs l.
Proof.
  intro Hpos. change (max_abs l) with (peak_from 0 l) in *.
  destruct (peak_from_attained l 0) as [Hz | (x & Hx & Hp)].
  - rewrite Hz in Hpos. discriminate.
  - exists x. split; [exact Hx | now rewrite Hp].
Qed.

(** Normalising a buffer that is not silent puts its peak at the level. *)
Lemma normalized_peak_exact (l : list Q) (v : Q) :
  0 <= v -> 0 < max_abs l ->
  max_abs (map (fun x => x / max_abs l * v) l) == v.
Proof.
  intros Hv Hpos. apply Qle_antisym; [now apply normalized_peak|].
  destruct (max_abs_attained l Hpos) as (x & Hx & Hax).
  set (m := max_abs l) in *.
  assert (Hin : In (x / m * v) (map (fun y => y / m * v) l))
    by (apply in_map_iff; now exists x).
  apply max_abs_ge in Hin.
  assert (Habs : Qabs (x / m * v) == v).
  { unfold Qdiv. rewrite !Qabs_Qmult, Hax.
    rewrite (Qabs_pos (/ m)) by (apply Qlt_le_weak, Qinv_lt_0_compat; exact Hpos).
    rewrite (Qabs_pos v) by exact Hv. field. lra. }
  now rewrite Habs in Hin.
Qed.

Lemma max_abs_zero_silent (l : list Q) : max_abs l <= 0 -> silent l.
Proof.
  intro Hz. apply Forall_forall. intros x Hx.
  pose proof (max_abs_ge l x Hx) as Hle.
  assert (Ha : Qabs x <= 0) by lra.
  apply Qabs_Qle_condition in Ha. lra.
Qed.

(** X28 (spectral_engine.py, get_sound): for a category with a variant in the
    database, a velocity v >= 0 and at least one sample, the returned sound
    is either silent or normalised exactly to the velocity: its peak absolute
    amplitude equals v, however many layers were mixed and however loud their
    partials are. *)
Theorem get_sound_peak_is_velocity (M : PyMath) (eng : SpectralEngine)
    (category : string) (v dur : Q) (r : Rng) :
  candidates_of eng category <> [] ->
  (1 <= py_int (dur * inject_Z (sample_rate eng)))%Z ->
  0 <= v ->
  exists buf r',
    get_sound M eng category (Some v) dur r = Ok (buf, r') /\
    (silent buf \/ max_abs buf == v).
Proof.
  intros Hc Hn Hv.
  destruct (get_sound_reaches_normalize M eng category v dur r Hc)
    as (ens & r' & Hlen & ->); [lia|].
  destruct ens as [|x ens]; [cbn in Hlen; lia|].
  cbn [np_max_abs bind].
  destruct (Qltb 0 (max_abs (x :: ens))) eqn:E.
  - eexists. exists r'. split; [reflexivity|]. right.
    apply normalized_peak_exact; [exact Hv | now apply Qltb_lt].
  - exists (x :: ens), r'. split; [reflexivity|]. left.
    apply max_abs_zero_silent. now apply Qltb_ge.
Qed.

Lemma get_sound_peak_is_velocity_witness :
  exists buf r',
    get_sound coarse_math demo_engine "NAM" (Some (8#10)) (1#11025) rng_low
    = Ok (buf, r') /\
    (silent buf \/ max_abs buf == 8#10).
Proof.
  apply (get_sound_peak_is_velocity coarse_math demo_engine "NAM" (8#10) (1#11025) rng_low).
  - discriminate.
  - vm_compute. discriminate.
  - discriminate.
Defined.

End SoundFacts.

(* ------------------------------------------------------------------ *)
(** ** ensemble_mixer.py: the mastering stage of render_ensemble *)
(* ------------------------------------------------------------------ *)

Module MasterFacts.
Import DictFacts BufferFacts MixerFacts RenderFacts TrackFacts.

Section Render.
Variable M : PyMath.
Variable sp : Scipy Q.
Variable prof :
  StickProperties -> MembraneProperties -> Q -> Q -> Z -> Rng ->
  result (StrikeProfile * Rng).
Variable rate : Z.
Variable eng : SpectralEngine.
Variable heap : MembraneHeap.


End Render.



End MasterFacts.
